(** * The channel IPC protocol of vs/base/parts/ipc/node/ipc.ts

    A shallow embedding of the frame codec ([serialize], [deserialize]),
    of the channel server and channel client engines and of the
    multi-client [IPCServer], together with the properties the protocol
    description states about them.

    Conventions of the model.
    - A Node [Buffer] is a [list byte].
    - A JavaScript string is represented by the bytes of its UTF-8
      encoding, as a [string]; [Buffer.from(str)] and [buf.toString()]
      are then the two conversions between [string] and [list byte].
    - A JavaScript number is an integer [Z]: every number the protocol
      itself produces (frame types, request ids, body tags) is one.
      JSON texts with a fraction or an exponent are outside the model.
    - A function that may throw returns an [option] or a [result].
    - [TPromise] (vs/base/common/winjs.base) is not among the sources.
      A callback given to [then] runs when its promise settles, and
      before [then] returns when the promise is settled already;
      [cancel] rejects a pending promise with the error [Canceled]. *)

From Stdlib Require Import ZArith NArith List String Ascii Lia Bool.
From Stdlib.Strings Require Import Byte.
From Stdlib Require Import Decimal DecimalFacts DecimalN.
From stdpp Require Import gmap strings list fin_maps.
Import ListNotations.

Local Open Scope Z_scope.

(** ** JavaScript values *)

Module JS.

Unset Elimination Schemes.

Inductive value : Type :=
| VUndefined
| VNull
| VBool (b : bool)
| VNum (n : Z)
| VStr (s : string)
| VBuf (b : list byte)
| VArr (xs : list value)
| VObj (fs : list (string * value)).

Set Elimination Schemes.

Section value_induction.
Variable P : value -> Prop.
Hypothesis Hundef : P VUndefined.
Hypothesis Hnull : P VNull.
Hypothesis Hbool : forall b, P (VBool b).
Hypothesis Hnum : forall n, P (VNum n).
Hypothesis Hstr : forall s, P (VStr s).
Hypothesis Hbuf : forall b, P (VBuf b).
Hypothesis Harr : forall xs, Forall P xs -> P (VArr xs).
Hypothesis Hobj : forall fs, Forall (fun kv => P (snd kv)) fs -> P (VObj fs).

Fixpoint value_ind (v : value) : P v :=
  match v with
  | VUndefined => Hundef
  | VNull => Hnull
  | VBool b => Hbool b
  | VNum n => Hnum n
  | VStr s => Hstr s
  | VBuf b => Hbuf b
  | VArr xs =>
      Harr xs ((fix go (l : list value) : Forall P l :=
                  match l with
                  | [] => List.Forall_nil P
                  | x :: l' => List.Forall_cons P x l' (value_ind x) (go l')
                  end) xs)
  | VObj fs =>
      Hobj fs ((fix go (l : list (string * value))
                  : Forall (fun kv => P (snd kv)) l :=
                  match l with
                  | [] => List.Forall_nil _
                  | kv :: l' =>
                      List.Forall_cons _ kv l' (value_ind (snd kv)) (go l')
                  end) fs)
  end.
End value_induction.

(** [typeof v === 'undefined'], [typeof v === 'string'],
    [Buffer.isBuffer(v)]. *)
Definition is_undefined (v : value) : bool :=
  match v with VUndefined => true | _ => false end.

Definition is_string (v : value) : bool :=
  match v with VStr _ => true | _ => false end.

Definition isBuffer (v : value) : bool :=
  match v with VBuf _ => true | _ => false end.

(** Truthiness, as used by [if (x)] and [x ? a : b]. *)
Definition truthy (v : value) : bool :=
  match v with
  | VUndefined | VNull => false
  | VBool b => b
  | VNum n => negb (n =? 0)
  | VStr s => negb (String.eqb s EmptyString)
  | VBuf _ | VArr _ | VObj _ => true
  end.

End JS.
Export JS.

(** ** JSON text

    [JSON.stringify] and [JSON.parse] of the host, on the values above.
    Texts are handled as lists of characters; the two entry points
    convert from and to [string]. *)

Module JSON.

Abbreviation text := (list ascii).

Definition dquote : ascii := ascii_of_N 34.
Definition backslash : ascii := ascii_of_N 92.
Definition ch_bs : ascii := ascii_of_N 8.
Definition ch_ff : ascii := ascii_of_N 12.
Definition ch_lf : ascii := ascii_of_N 10.
Definition ch_cr : ascii := ascii_of_N 13.
Definition ch_tab : ascii := ascii_of_N 9.

Definition text_of (s : string) : text := list_ascii_of_string s.

(** *** Printing *)

Fixpoint uint_chars (d : uint) : text :=
  match d with
  | Nil => []
  | D0 d => "0"%char :: uint_chars d
  | D1 d => "1"%char :: uint_chars d
  | D2 d => "2"%char :: uint_chars d
  | D3 d => "3"%char :: uint_chars d
  | D4 d => "4"%char :: uint_chars d
  | D5 d => "5"%char :: uint_chars d
  | D6 d => "6"%char :: uint_chars d
  | D7 d => "7"%char :: uint_chars d
  | D8 d => "8"%char :: uint_chars d
  | D9 d => "9"%char :: uint_chars d
  end.

Definition number_chars (n : Z) : text :=
  if n <? 0 then "-"%char :: uint_chars (N.to_uint (Z.to_N (- n)))
  else uint_chars (N.to_uint (Z.to_N n)).

Definition hex_char (n : N) : ascii :=
  nth (N.to_nat n) (text_of "0123456789abcdef") "0"%char.

(** One character of QuoteJSONString. *)
Definition quote_char (c : ascii) : text :=
  if Ascii.eqb c dquote then [backslash; dquote]
  else if Ascii.eqb c backslash then [backslash; backslash]
  else if Ascii.eqb c ch_bs then [backslash; "b"%char]
  else if Ascii.eqb c ch_ff then [backslash; "f"%char]
  else if Ascii.eqb c ch_lf then [backslash; "n"%char]
  else if Ascii.eqb c ch_cr then [backslash; "r"%char]
  else if Ascii.eqb c ch_tab then [backslash; "t"%char]
  else if (N_of_ascii c <? 32)%N then
    [backslash; "u"%char; "0"%char; "0"%char;
     hex_char (N_of_ascii c / 16); hex_char (N_of_ascii c mod 16)]
  else [c].

Definition quote (s : string) : text :=
  dquote :: flat_map quote_char (text_of s) ++ [dquote].

Fixpoint join (sep : ascii) (parts : list text) : text :=
  match parts with
  | [] => []
  | [p] => p
  | p :: ps => p ++ sep :: join sep ps
  end.

(** SerializeJSONProperty: inside an array [undefined] prints as [null],
    inside an object a property whose value is [undefined] is left out,
    and a Buffer prints through its [toJSON] as
    [{"type":"Buffer","data":[...]}]. *)
Fixpoint print (v : value) : text :=
  match v with
  | VUndefined | VNull => text_of "null"
  | VBool true => text_of "true"
  | VBool false => text_of "false"
  | VNum n => number_chars n
  | VStr s => quote s
  | VBuf b =>
      text_of "{" ++ quote "type" ++ text_of ":" ++ quote "Buffer"
        ++ text_of "," ++ quote "data" ++ text_of ":["
        ++ join ","%char (map (fun x => number_chars (Z.of_N (Byte.to_N x))) b)
        ++ text_of "]}"
  | VArr xs =>
      "["%char ::
        join ","%char
          ((fix go (l : list value) : list text :=
              match l with
              | [] => []
              | x :: l' => print x :: go l'
              end) xs)
        ++ ["]"%char]
  | VObj fs =>
      "{"%char ::
        join ","%char
          ((fix go (l : list (string * value)) : list text :=
              match l with
              | [] => []
              | (k, x) :: l' =>
                  if is_undefined x then go l'
                  else (quote k ++ ":"%char :: print x) :: go l'
              end) fs)
        ++ ["}"%char]
  end.

(** [JSON.stringify(v)] for a [v] that is not [undefined]. *)
Definition text_string (v : value) : string := string_of_list_ascii (print v).

(** [JSON.stringify(v)]; the result is [undefined] (here [None]) when
    [v] itself is [undefined]. *)
Definition stringify (v : value) : option string :=
  match v with
  | VUndefined => None
  | _ => Some (text_string v)
  end.

(** *** Parsing *)

Definition is_ws (c : ascii) : bool :=
  Ascii.eqb c " "%char || Ascii.eqb c ch_tab || Ascii.eqb c ch_lf
  || Ascii.eqb c ch_cr.

Fixpoint skip_ws (s : text) : text :=
  match s with
  | c :: r => if is_ws c then skip_ws r else s
  | [] => []
  end.

(** [expect c s] consumes the character [c] at the head of [s]. *)
Definition expect (c : ascii) (s : text) : option text :=
  match s with
  | x :: r => if Ascii.eqb x c then Some r else None
  | [] => None
  end.

Fixpoint expect_all (cs : text) (s : text) : option text :=
  match cs with
  | [] => Some s
  | c :: cs' =>
      match expect c s with
      | Some r => expect_all cs' r
      | None => None
      end
  end.

Definition digit_of (c : ascii) : option (uint -> uint) :=
  if Ascii.eqb c "0"%char then Some D0
  else if Ascii.eqb c "1"%char then Some D1
  else if Ascii.eqb c "2"%char then Some D2
  else if Ascii.eqb c "3"%char then Some D3
  else if Ascii.eqb c "4"%char then Some D4
  else if Ascii.eqb c "5"%char then Some D5
  else if Ascii.eqb c "6"%char then Some D6
  else if Ascii.eqb c "7"%char then Some D7
  else if Ascii.eqb c "8"%char then Some D8
  else if Ascii.eqb c "9"%char then Some D9
  else None.

Fixpoint read_digits (s : text) : uint * text :=
  match s with
  | c :: r =>
      match digit_of c with
      | Some D => let (d, r') := read_digits r in (D d, r')
      | None => (Nil, s)
      end
  | [] => (Nil, [])
  end.

(** A character that would continue a number with a fraction or an
    exponent; such numbers are not integers and are not modelled. *)
Definition starts_fraction (s : text) : bool :=
  match s with
  | c :: _ =>
      Ascii.eqb c "."%char || Ascii.eqb c "e"%char || Ascii.eqb c "E"%char
  | [] => false
  end.

(** The digits of a JSON number: at least one, no leading zero. A
    number with a fraction or an exponent, which [JSON.parse] reads, is
    not an integer: the model has no value for it and gives none. *)
Definition parse_nat (s : text) : option (N * text) :=
  let (d, r) := read_digits s in
  match d with
  | Nil => None
  | D0 (D0 _ | D1 _ | D2 _ | D3 _ | D4 _ | D5 _ | D6 _ | D7 _ | D8 _ | D9 _) =>
      None
  | _ => if starts_fraction r then None else Some (N.of_uint d, r)
  end.

Definition hex_of (c : ascii) : option N :=
  let n := N_of_ascii c in
  if ((48 <=? n) && (n <=? 57))%N then Some (n - 48)%N
  else if ((97 <=? n) && (n <=? 102))%N then Some (n - 87)%N
  else if ((65 <=? n) && (n <=? 70))%N then Some (n - 55)%N
  else None.

Definition hex4 (a b c d : ascii) : option N :=
  match hex_of a, hex_of b, hex_of c, hex_of d with
  | Some x, Some y, Some z, Some w =>
      Some (((x * 16 + y) * 16 + z) * 16 + w)%N
  | _, _, _, _ => None
  end.

(** The UTF-8 bytes of the code unit of a [\uXXXX] escape. Surrogate
    code units (which combine in pairs) are outside the model. *)
Definition utf8_of_code (n : N) : option text :=
  if (n <? 128)%N then Some [ascii_of_N n]
  else if (n <? 2048)%N then
    Some [ascii_of_N (192 + n / 64); ascii_of_N (128 + n mod 64)]
  else if ((55296 <=? n) && (n <? 57344))%N then None
  else
    Some [ascii_of_N (224 + n / 4096); ascii_of_N (128 + (n / 64) mod 64);
          ascii_of_N (128 + n mod 64)].

Definition unescape (c : ascii) : option ascii :=
  if Ascii.eqb c dquote then Some dquote
  else if Ascii.eqb c backslash then Some backslash
  else if Ascii.eqb c "/"%char then Some "/"%char
  else if Ascii.eqb c "b"%char then Some ch_bs
  else if Ascii.eqb c "f"%char then Some ch_ff
  else if Ascii.eqb c "n"%char then Some ch_lf
  else if Ascii.eqb c "r"%char then Some ch_cr
  else if Ascii.eqb c "t"%char then Some ch_tab
  else None.

(** The characters of a string literal after its opening quote, up to
    and including the closing quote. *)
Fixpoint parse_chars (s : text) : option (text * text) :=
  match s with
  | [] => None
  | c :: r =>
      if Ascii.eqb c dquote then Some ([], r)
      else if Ascii.eqb c backslash then
        match r with
        | [] => None
        | e :: r1 =>
            if Ascii.eqb e "u"%char then
              match r1 with
              | h1 :: h2 :: h3 :: h4 :: r2 =>
                  match hex4 h1 h2 h3 h4 with
                  | Some n =>
                      match utf8_of_code n, parse_chars r2 with
                      | Some bs, Some (cs, rest) => Some (bs ++ cs, rest)
                      | _, _ => None
                      end
                  | None => None
                  end
              | _ => None
              end
            else
              match unescape e, parse_chars r1 with
              | Some x, Some (cs, rest) => Some (x :: cs, rest)
              | _, _ => None
              end
        end
      else if (N_of_ascii c <? 32)%N then None
      else
        match parse_chars r with
        | Some (cs, rest) => Some (c :: cs, rest)
        | None => None
        end
  end.

(** Defining a property on an object under construction: a repeated
    key keeps its position and takes the later value. *)
Fixpoint obj_set (k : string) (v : value) (fs : list (string * value))
  : list (string * value) :=
  match fs with
  | [] => [(k, v)]
  | (k', v') :: fs' =>
      if String.eqb k' k then (k, v) :: fs' else (k', v') :: obj_set k v fs'
  end.

Definition obj_of_members (ms : list (string * value))
  : list (string * value) :=
  fold_left (fun acc kv => obj_set (fst kv) (snd kv) acc) ms [].

(** Recursive descent; [fuel] bounds the number of nested calls. *)
Fixpoint parse_value (fuel : nat) (s : text) {struct fuel}
  : option (value * text) :=
  match fuel with
  | O => None
  | S f =>
      match skip_ws s with
      | [] => None
      | c :: r =>
          if Ascii.eqb c "{"%char then
            match expect "}"%char (skip_ws r) with
            | Some r' => Some (VObj [], r')
            | None =>
                match parse_members f r with
                | Some (ms, r') => Some (VObj (obj_of_members ms), r')
                | None => None
                end
            end
          else if Ascii.eqb c "["%char then
            match expect "]"%char (skip_ws r) with
            | Some r' => Some (VArr [], r')
            | None =>
                match parse_elements f r with
                | Some (xs, r') => Some (VArr xs, r')
                | None => None
                end
            end
          else if Ascii.eqb c dquote then
            match parse_chars r with
            | Some (cs, r') => Some (VStr (string_of_list_ascii cs), r')
            | None => None
            end
          else if Ascii.eqb c "t"%char then
            match expect_all (text_of "rue") r with
            | Some r' => Some (VBool true, r')
            | None => None
            end
          else if Ascii.eqb c "f"%char then
            match expect_all (text_of "alse") r with
            | Some r' => Some (VBool false, r')
            | None => None
            end
          else if Ascii.eqb c "n"%char then
            match expect_all (text_of "ull") r with
            | Some r' => Some (VNull, r')
            | None => None
            end
          else if Ascii.eqb c "-"%char then
            match parse_nat r with
            | Some (n, r') => Some (VNum (- Z.of_N n), r')
            | None => None
            end
          else
            match parse_nat (c :: r) with
            | Some (n, r') => Some (VNum (Z.of_N n), r')
            | None => None
            end
      end
  end

with parse_elements (fuel : nat) (s : text) {struct fuel}
  : option (list value * text) :=
  match fuel with
  | O => None
  | S f =>
      match parse_value f s with
      | Some (v, r) =>
          match skip_ws r with
          | c :: r' =>
              if Ascii.eqb c ","%char then
                match parse_elements f r' with
                | Some (vs, r'') => Some (v :: vs, r'')
                | None => None
                end
              else if Ascii.eqb c "]"%char then Some ([v], r')
              else None
          | [] => None
          end
      | None => None
      end
  end

with parse_members (fuel : nat) (s : text) {struct fuel}
  : option (list (string * value) * text) :=
  match fuel with
  | O => None
  | S f =>
      match expect dquote (skip_ws s) with
      | Some r0 =>
          match parse_chars r0 with
          | Some (k, r1) =>
              match expect ":"%char (skip_ws r1) with
              | Some r2 =>
                  match parse_value f r2 with
                  | Some (v, r3) =>
                      match skip_ws r3 with
                      | c :: r4 =>
                          if Ascii.eqb c ","%char then
                            match parse_members f r4 with
                            | Some (ms, r5) =>
                                Some ((string_of_list_ascii k, v) :: ms, r5)
                            | None => None
                            end
                          else if Ascii.eqb c "}"%char then
                            Some ([(string_of_list_ascii k, v)], r4)
                          else None
                      | [] => None
                      end
                  | None => None
                  end
              | None => None
              end
          | None => None
          end
      | None => None
      end
  end.

(** [JSON.parse(s)]; [None] stands for the [SyntaxError] it throws. *)
Definition parse (s : string) : option value :=
  let t := text_of s in
  match parse_value (S (length t)) t with
  | Some (v, r) =>
      match skip_ws r with
      | [] => Some v
      | _ :: _ => None
      end
  | None => None
  end.

(** *** Values that survive a round trip through JSON text

    No [undefined] and no Buffer anywhere inside, and no object with a
    repeated key. *)
Fixpoint clean (v : value) : bool :=
  match v with
  | VUndefined | VBuf _ => false
  | VNull | VBool _ | VNum _ | VStr _ => true
  | VArr xs => forallb clean xs
  | VObj fs =>
      bool_decide (NoDup (map fst fs)) && forallb (fun kv => clean (snd kv)) fs
  end.

(** What a value reads back as after a round trip through JSON text:
    [undefined] array elements become [null], properties whose value is
    [undefined] disappear, a Buffer becomes the object its [toJSON]
    gives. *)
Definition json_of_buffer (b : list byte) : value :=
  VObj [("type"%string, VStr "Buffer");
        ("data"%string, VArr (map (fun x => VNum (Z.of_N (Byte.to_N x))) b))].

Fixpoint norm (v : value) : value :=
  match v with
  | VUndefined => VNull
  | VNull | VBool _ | VNum _ | VStr _ => v
  | VBuf b => json_of_buffer b
  | VArr xs => VArr (map norm xs)
  | VObj fs =>
      VObj (obj_of_members
              ((fix go (l : list (string * value)) : list (string * value) :=
                  match l with
                  | [] => []
                  | (k, x) :: l' =>
                      if is_undefined x then go l' else (k, norm x) :: go l'
                  end) fs))
  end.

(** Nesting fuel that [parse_value] needs to read [print v] back. *)
Fixpoint weight (v : value) : nat :=
  match v with
  | VArr xs => S (list_sum (map (fun x => S (weight x)) xs))
  | VObj fs =>
      S (list_sum
           ((fix go (l : list (string * value)) : list nat :=
               match l with
               | [] => []
               | (k, x) :: l' =>
                   if is_undefined x then go l' else S (weight x) :: go l'
               end) fs))
  | VBuf b => (7 + 2 * length b)%nat
  | _ => 1%nat
  end.

End JSON.


(** ** The frame codec

    [serializeBody], [serialize], [deserializeBody], [deserialize]. *)

Module Codec.

(** [enum BodyType { Undefined, String, Buffer, Object }] *)
Inductive BodyType : Type :=
| BT_Undefined
| BT_String
| BT_Buffer
| BT_Object.

Definition BodyType_value (t : BodyType) : Z :=
  match t with
  | BT_Undefined => 0
  | BT_String => 1
  | BT_Buffer => 2
  | BT_Object => 3
  end.

(** [Buffer.from(str)] and [buf.toString()], for the strings of the
    model, which are well-formed: a string with a lone surrogate, for
    which [Buffer.from] writes U+FFFD, and bytes that are no UTF-8,
    which [toString] replaces, are outside the model. *)
Definition Buffer_from (s : string) : list byte := list_byte_of_string s.
Definition Buffer_toString (b : list byte) : string := string_of_list_byte b.

Definition empty : list byte := [].

Definition byte_of_Z (z : Z) : byte :=
  match Byte.of_N (Z.to_N (Z.land z 255)) with
  | Some b => b
  | None => x00
  end.

Definition Z_of_byte (b : byte) : Z := Z.of_N (Byte.to_N b).

(** [buf.writeUInt32BE(n, 0)] on a fresh 4-byte buffer. The value
    written is always a Buffer byte length, which is below [2^32], so
    the range check of [writeUInt32BE] is not modelled: the four bytes
    are those of [n] modulo [2^32]. *)
Definition writeUInt32BE (n : Z) : list byte :=
  [byte_of_Z (Z.shiftr n 24); byte_of_Z (Z.shiftr n 16);
   byte_of_Z (Z.shiftr n 8); byte_of_Z n].

(** [buf.readUInt32BE(0)]; a buffer shorter than 4 bytes makes it
    throw a [RangeError]. *)
Definition readUInt32BE (b : list byte) : option Z :=
  match b with
  | b0 :: b1 :: b2 :: b3 :: _ =>
      Some (Z_of_byte b0 * 2 ^ 24 + Z_of_byte b1 * 2 ^ 16
            + Z_of_byte b2 * 2 ^ 8 + Z_of_byte b3)
  | _ => None
  end.

(** [buf.slice(start, end)] and [buf.slice(start)] for non-negative
    indices; both clamp to the length of the buffer. *)
Definition slice (b : list byte) (start stop : Z) : list byte :=
  take (Z.to_nat (stop - start)) (drop (Z.to_nat start) b).

Definition slice_from (b : list byte) (start : Z) : list byte :=
  drop (Z.to_nat start) b.

Definition byteLength (b : list byte) : Z := Z.of_nat (length b).

Definition serializeBody (body : value) : list byte * BodyType :=
  match body with
  | VUndefined => (empty, BT_Undefined)
  | VStr s => (Buffer_from s, BT_String)
  | VBuf b => (b, BT_Buffer)
  | _ => (Buffer_from (JSON.text_string body), BT_Object)
  end.

Definition serialize (header : value) (body : value) : list byte :=
  let '(bodyBuffer, bodyType) := serializeBody body in
  let headerBuffer :=
    Buffer_from
      (JSON.text_string (VArr [header; VNum (BodyType_value bodyType)])) in
  let headerSizeBuffer := writeUInt32BE (byteLength headerBuffer) in
  headerSizeBuffer ++ headerBuffer ++ bodyBuffer.

(** [None] stands for the [SyntaxError] of [JSON.parse]. The [switch]
    has no default case: any other tag gives [undefined]. *)
Definition deserializeBody (bodyBuffer : list byte) (bodyType : value)
  : option value :=
  match bodyType with
  | VNum 0 => Some VUndefined
  | VNum 1 => Some (VStr (Buffer_toString bodyBuffer))
  | VNum 2 => Some (VBuf bodyBuffer)
  | VNum 3 => JSON.parse (Buffer_toString bodyBuffer)
  | _ => Some VUndefined
  end.

(** The number of bytes of the UTF-8 sequence that starts with [c]. *)
Definition utf8_width (c : ascii) : nat :=
  let n := N_of_ascii c in
  if (n <? 192)%N then 1
  else if (n <? 224)%N then 2
  else if (n <? 240)%N then 3
  else 4.

Fixpoint string_take (n : nat) (s : string) : string :=
  match n, s with
  | S n', String.String c s' => String.String c (string_take n' s')
  | _, _ => EmptyString
  end.

Fixpoint string_drop (n : nat) (s : string) : string :=
  match n, s with
  | S n', String.String _ s' => string_drop n' s'
  | _, _ => s
  end.

(** The characters of a string, as its iterator yields them. *)
Fixpoint chars_fuel (fuel : nat) (s : string) : list string :=
  match fuel, s with
  | S f, String.String c _ =>
      string_take (utf8_width c) s
        :: chars_fuel f (string_drop (utf8_width c) s)
  | _, _ => []
  end.

Definition chars (s : string) : list string :=
  chars_fuel (String.length s) s.

(** The elements an array destructuring pattern reads from [v]; [None]
    when [v] is not iterable (a [TypeError]). *)
Definition iterate (v : value) : option (list value) :=
  match v with
  | VArr xs => Some xs
  | VStr s => Some (map VStr (chars s))
  | VBuf b => Some (map (fun x => VNum (Z_of_byte x)) b)
  | VUndefined | VNull | VBool _ | VNum _ | VObj _ => None
  end.

Definition deserialize (buffer : list byte) : option (value * value) :=
  match readUInt32BE buffer with
  | None => None
  | Some headerSize =>
      let headerBuffer := slice buffer 4 (4 + headerSize) in
      let bodyBuffer := slice_from buffer (4 + headerSize) in
      match JSON.parse (Buffer_toString headerBuffer) with
      | None => None
      | Some parsed =>
          match iterate parsed with
          | None => None
          | Some elements =>
              let header := nth 0 elements VUndefined in
              let bodyType := nth 1 elements VUndefined in
              match deserializeBody bodyBuffer bodyType with
              | None => None
              | Some body => Some (header, body)
              end
          end
      end
  end.

End Codec.

(** ** Objects and errors of the host language *)

Module Host.

(** [String(v)], which is also the property key [v] stands for in
    [obj[v]]. *)
Fixpoint ToString (v : value) : string :=
  match v with
  | VUndefined => "undefined"
  | VNull => "null"
  | VBool true => "true"
  | VBool false => "false"
  | VNum n => string_of_list_ascii (JSON.number_chars n)
  | VStr s => s
  | VBuf b => Codec.Buffer_toString b
  | VArr xs =>
      String.concat ","
        ((fix go (l : list value) : list string :=
            match l with
            | [] => []
            | x :: l' =>
                match x with
                | VUndefined | VNull => EmptyString
                | _ => ToString x
                end :: go l'
            end) xs)
  | VObj _ => "[object Object]"
  end.

Fixpoint assoc (k : string) (fs : list (string * value)) : value :=
  match fs with
  | [] => VUndefined
  | (k', v) :: fs' => if String.eqb k' k then v else assoc k fs'
  end.

(** [v[k]] for a data property [k]; [None] is the [TypeError] raised
    when [v] is [undefined] or [null]. Properties inherited from a
    prototype are functions and are not modelled. *)
Definition get (v : value) (k : string) : option value :=
  match v with
  | VUndefined | VNull => None
  | VObj fs => Some (assoc k fs)
  | VBool _ | VNum _ | VStr _ | VBuf _ | VArr _ => Some VUndefined
  end.

(** [v[i]] for an index [i]. Indexing a string gives its [i]-th
    character. *)
Definition get_index (v : value) (i : nat) : option value :=
  match v with
  | VUndefined | VNull => None
  | VArr xs => Some (nth i xs VUndefined)
  | VStr s => Some (nth i (map VStr (Codec.chars s)) VUndefined)
  | VBuf b => Some (nth i (map (fun x => VNum (Codec.Z_of_byte x)) b) VUndefined)
  | VObj fs => Some (assoc (ToString (VNum (Z.of_nat i))) fs)
  | VBool _ | VNum _ => Some VUndefined
  end.

(** An instance of [Error]. *)
Record JSError : Type := {
  message : value;
  name : value;
  stack : value
}.

(** What a promise is rejected with, or what a [throw] raises:
    [data instanceof Error] or not. *)
Inductive reason : Type :=
| IsError (e : JSError)
| NotError (v : value).

(** How a promise settles. *)
Inductive settlement : Type :=
| Fulfilled (data : value)
| Rejected (r : reason).

(** The errors the host itself raises. *)
Inductive fault : Type :=
| DecodeFault
    (** what [deserialize] throws: the [RangeError] of [readUInt32BE],
        the [SyntaxError] of [JSON.parse] or the [TypeError] of a
        destructuring *)
| PropertyOfUndefined (p : string)
    (** the [TypeError] of reading or calling property [p] of
        [undefined] or [null] *)
| NewError (m : string)
    (** [new Error(m)] in code that is not the engine's: only its stack
        is the host's *).

(** [s.split('\n')] *)
Fixpoint split_lines_aux (cur : string) (s : string) : list string :=
  match s with
  | EmptyString => [cur]
  | String.String c s' =>
      if Ascii.eqb c JSON.ch_lf then cur :: split_lines_aux EmptyString s'
      else split_lines_aux (cur +:+ String.String c EmptyString) s'
  end.

Definition split_lines (s : string) : list string :=
  split_lines_aux EmptyString s.

(** A key that is an array index: the decimal text, with no sign and no
    leading zero, of an integer from 0 to 2^32 - 2. *)
Definition array_index (k : string) : option Z :=
  match JSON.read_digits (list_ascii_of_string k) with
  | (d, []) =>
      let n := Z.of_N (N.of_uint d) in
      if String.eqb (ToString (VNum n)) k && (n <? 2 ^ 32 - 1)
      then Some n else None
  | _ => None
  end.

Fixpoint insert_index (n : Z) (l : list Z) : list Z :=
  match l with
  | [] => [n]
  | m :: l' => if n <=? m then n :: l else m :: insert_index n l'
  end.

(** [Object.keys(o)] for an object whose keys were created in the
    order [created]: the array indices in ascending order, then the
    other keys in the order of their creation. *)
Definition Object_keys (created : list string) : list string :=
  map (fun n => ToString (VNum n))
    (fold_right insert_index [] (omap array_index created))
  ++ List.filter
       (fun k => match array_index k with Some _ => false | None => true end)
       created.

End Host.
Export Host.

(** ** Channels

    [IChannel]: what [call] and [listen] do when they are invoked.
    [call] either throws or returns a promise, which is either already
    settled ([Some]) or still pending ([None]); [listen] either throws
    or returns an event. When a pending promise settles and when an
    event emits is decided by the environment of the engine. A pending
    promise that is cancelled is rejected with the cancellation error
    of [TPromise]. *)

Module Channel.

Inductive call_result : Type :=
| CallThrows (err : reason)
| CallReturns (fate : option settlement).

Inductive listen_result : Type :=
| ListenThrows (err : reason)
| ListenReturns.

Record IChannel : Type := {
  call : value -> value -> call_result;
  listen : value -> value -> listen_result
}.

End Channel.
Export Channel.

(** ** Wire constants *)

Module Wire.

(** [enum RequestType] and [enum ResponseType] *)
Definition RequestType_Promise : Z := 100.
Definition RequestType_PromiseCancel : Z := 101.
Definition RequestType_EventListen : Z := 102.
Definition RequestType_EventDispose : Z := 103.

Definition ResponseType_Initialize : Z := 200.
Definition ResponseType_PromiseSuccess : Z := 201.
Definition ResponseType_PromiseError : Z := 202.
Definition ResponseType_PromiseErrorObj : Z := 203.
Definition ResponseType_EventFire : Z := 204.

(** [IRawRequest]; the fields are whatever the header and the body of
    the frame hold. *)
Inductive IRawRequest : Type :=
| RawPromise (id channelName name arg : value)
| RawPromiseCancel (id : value)
| RawEventListen (id channelName name arg : value)
| RawEventDispose (id : value).

(** [IRawResponse] *)
Inductive IRawResponse : Type :=
| RawInitialize
| RawPromiseSuccess (id data : value)
| RawPromiseError (id data : value)
| RawPromiseErrorObj (id data : value)
| RawEventFire (id data : value).

(** The outcome of a handler: it returns, or it throws and leaves the
    object in the state it had reached. *)
Inductive result (A : Type) : Type :=
| Returned (a : A)
| Threw (a : A) (err : reason).

Arguments Returned {A} a.
Arguments Threw {A} a err.

Definition state_of {A} (r : result A) : A :=
  match r with
  | Returned a => a
  | Threw a _ => a
  end.

End Wire.
Export Wire.

(** ** The channel server engine: [class ChannelServer] *)

Module Server.

(** The promise [requestPromise] that [onPromise] builds with
    [promise.then(...)]: the promise of the call is pending and the
    callbacks are waiting to run, or one of them has run, with the
    settlement of the call or with the error of its cancellation. *)
Inductive promise_status : Type :=
| Waiting
| Completed
| Cancelled.

Record request_promise : Type := {
  p_id : value;
  p_fate : option settlement;
  p_status : promise_status
}.

(** The listener that [onEventListen] attaches to the event. *)
Record event_listener : Type := {
  l_id : value;
  l_live : bool
}.

(** What [activeRequests] holds: the disposable that cancels
    [requestPromise], or the one that detaches the event listener. *)
Inductive IDisposable : Type :=
| CancelPromise (pid : nat)
| RemoveListener (sid : nat).

(** The fields of the class, followed by the objects its closures
    refer to: the frames handed to [protocol.send], the promises and
    the listeners. [keys_created] lists the keys of [activeRequests] in
    the order of their creation, which [Object.keys] depends on. *)
Record ChannelServer : Type := {
  channels : gmap string IChannel;
  activeRequests : gmap string IDisposable;
  keys_created : list string;
  protocolListener : bool;
  sent : list (list byte);
  promises : list request_promise;
  listeners : list event_listener
}.

Definition set_channels (f : gmap string IChannel -> gmap string IChannel)
  (this : ChannelServer) : ChannelServer :=
  {| channels := f (channels this);
     activeRequests := activeRequests this;
     keys_created := keys_created this;
     protocolListener := protocolListener this;
     sent := sent this;
     promises := promises this;
     listeners := listeners this |}.

Definition set_activeRequests
  (f : gmap string IDisposable -> gmap string IDisposable)
  (this : ChannelServer) : ChannelServer :=
  {| channels := channels this;
     activeRequests := f (activeRequests this);
     keys_created := keys_created this;
     protocolListener := protocolListener this;
     sent := sent this;
     promises := promises this;
     listeners := listeners this |}.

Definition set_protocolListener (b : bool) (this : ChannelServer)
  : ChannelServer :=
  {| channels := channels this;
     activeRequests := activeRequests this;
     keys_created := keys_created this;
     protocolListener := b;
     sent := sent this;
     promises := promises this;
     listeners := listeners this |}.

Definition set_sent (f : list (list byte) -> list (list byte))
  (this : ChannelServer) : ChannelServer :=
  {| channels := channels this;
     activeRequests := activeRequests this;
     keys_created := keys_created this;
     protocolListener := protocolListener this;
     sent := f (sent this);
     promises := promises this;
     listeners := listeners this |}.

Definition set_promises (f : list request_promise -> list request_promise)
  (this : ChannelServer) : ChannelServer :=
  {| channels := channels this;
     activeRequests := activeRequests this;
     keys_created := keys_created this;
     protocolListener := protocolListener this;
     sent := sent this;
     promises := f (promises this);
     listeners := listeners this |}.

Definition set_listeners (f : list event_listener -> list event_listener)
  (this : ChannelServer) : ChannelServer :=
  {| channels := channels this;
     activeRequests := activeRequests this;
     keys_created := keys_created this;
     protocolListener := protocolListener this;
     sent := sent this;
     promises := promises this;
     listeners := f (listeners this) |}.

Definition set_keys_created (f : list string -> list string)
  (this : ChannelServer) : ChannelServer :=
  {| channels := channels this;
     activeRequests := activeRequests this;
     keys_created := f (keys_created this);
     protocolListener := protocolListener this;
     sent := sent this;
     promises := promises this;
     listeners := listeners this |}.

(** [this.activeRequests[key] = disposable]: a key that is not there is
    created. *)
Definition activeRequests_set (this : ChannelServer) (key : string)
  (disposable : IDisposable) : ChannelServer :=
  let created :=
    match activeRequests this !! key with
    | Some _ => keys_created this
    | None => keys_created this ++ [key]
    end in
  set_keys_created (fun _ => created)
    (set_activeRequests (fun m => <[key := disposable]> m) this).

(** [delete this.activeRequests[key]] *)
Definition activeRequests_delete (this : ChannelServer) (key : string)
  : ChannelServer :=
  set_keys_created (List.filter (fun k => negb (String.eqb k key)))
    (set_activeRequests (fun m => delete key m) this).

Section Engine.

(** The [Error] instance the host builds for each of its faults. *)
Variable host_error : fault -> JSError.

(** [protocol.send(message)] inside [try]/[catch]: the frame is handed
    to the transport. *)
Definition sendRawMessage (this : ChannelServer) (message : list byte)
  : ChannelServer :=
  set_sent (fun log => log ++ [message]) this.

Definition sendResponse (this : ChannelServer) (response : IRawResponse)
  : ChannelServer :=
  let buffer :=
    match response with
    | RawInitialize =>
        Codec.serialize (VArr [VNum ResponseType_Initialize]) VUndefined
    | RawPromiseSuccess id data =>
        Codec.serialize (VArr [VNum ResponseType_PromiseSuccess; id]) data
    | RawPromiseError id data =>
        Codec.serialize (VArr [VNum ResponseType_PromiseError; id]) data
    | RawEventFire id data =>
        Codec.serialize (VArr [VNum ResponseType_EventFire; id]) data
    | RawPromiseErrorObj id data =>
        Codec.serialize (VArr [VNum ResponseType_PromiseErrorObj; id]) data
    end in
  sendRawMessage this buffer.

(** [new ChannelServer(protocol)]: listen to the protocol, then send
    the [Initialize] response. *)
Definition new_ChannelServer : ChannelServer :=
  sendResponse
    {| channels := ∅;
       activeRequests := ∅;
       keys_created := [];
       protocolListener := true;
       sent := [];
       promises := [];
       listeners := [] |}
    RawInitialize.

Definition registerChannel (this : ChannelServer) (channelName : string)
  (channel : IChannel) : ChannelServer :=
  set_channels (fun m => <[channelName := channel]> m) this.

(** [data.stack ? (data.stack.split ? data.stack.split('\n')
    : data.stack) : void 0]; [None] when [split] is there and is not a
    function. *)
Definition stack_lines (s : value) : option value :=
  if truthy s then
    match s with
    | VStr str => Some (VArr (map VStr (split_lines str)))
    | VObj fs => if truthy (assoc "split" fs) then None else Some s
    | _ => Some s
    end
  else Some VUndefined.

(** The response the callbacks of [onPromise] send. *)
Definition response_of (id : value) (s : settlement) : option IRawResponse :=
  match s with
  | Fulfilled data => Some (RawPromiseSuccess id data)
  | Rejected (IsError e) =>
      match stack_lines (stack e) with
      | Some st =>
          Some (RawPromiseError id
                  (VObj [("message", message e); ("name", name e);
                         ("stack", st)]))
      | None => None
      end
  | Rejected (NotError data) => Some (RawPromiseErrorObj id data)
  end.

Definition set_status (pid : nat) (s : promise_status)
  (this : ChannelServer) : ChannelServer :=
  set_promises
    (fun l =>
       match l !! pid with
       | Some p =>
           <[pid := {| p_id := p_id p; p_fate := p_fate p; p_status := s |}]> l
       | None => l
       end) this.

(** The callbacks that [onPromise] hands to [promise.then], run for
    call [pid] with the settlement [s]: the response is sent, then
    [delete this.activeRequests[request.id]]. When the error callback
    throws while it builds the response, nothing is sent and nothing is
    deleted; the exception stays in [requestPromise]. [after] is the
    status the call is left with. *)
Definition callbacks (this : ChannelServer) (pid : nat)
  (after : promise_status) (s : settlement) : ChannelServer :=
  match promises this !! pid with
  | Some p =>
      let this1 := set_status pid after this in
      match response_of (p_id p) s with
      | Some response =>
          activeRequests_delete (sendResponse this1 response)
            (ToString (p_id p))
      | None => this1
      end
  | None => this
  end.

(** Modelled from the spec: [TPromise.then] (vs/base/common/winjs.base
    is not among the sources). [promise.then(c, e)] for the promise of
    call [pid]: a promise that is settled already, as [fate], calls
    back before [then] returns; a pending one calls back when it
    settles. *)
Definition promise_then (this : ChannelServer) (pid : nat)
  (fate : option settlement) : ChannelServer :=
  match fate with
  | Some s => callbacks this pid Completed s
  | None => this
  end.

(** [onPromise]: [channel.call] inside [try]/[catch], a synchronous
    throw becoming [TPromise.wrapError(err)]; then [promise.then]; then
    the cancel handle is stored under the id, also when a callback has
    just deleted that key. *)
Definition onPromise (this : ChannelServer)
  (id channelName name arg : value) : ChannelServer :=
  let promise :=
    match channels this !! ToString channelName with
    | None => Some (Rejected (IsError (host_error (PropertyOfUndefined "call"))))
    | Some channel =>
        match call channel name arg with
        | CallThrows err => Some (Rejected err)
        | CallReturns fate => fate
        end
    end in
  let pid := length (promises this) in
  let this1 :=
    set_promises
      (fun l => l ++ [{| p_id := id; p_fate := promise; p_status := Waiting |}])
      this in
  let this2 := promise_then this1 pid promise in
  activeRequests_set this2 (ToString id) (CancelPromise pid).

(** Modelled from the spec: [TPromise.then] (vs/base/common/winjs.base
    is not among the sources). The pending promise of call [pid]
    settles as [s]: the callback that [onPromise] registered runs. A
    call that was called back is not called back again. *)
Definition settle (this : ChannelServer) (pid : nat) (s : settlement)
  : ChannelServer :=
  match promises this !! pid with
  | Some p =>
      match p_status p with
      | Waiting => callbacks this pid Completed s
      | Completed | Cancelled => this
      end
  | None => this
  end.

(** [onEventListen]: nothing guards the lookup and the call of
    [listen]. *)
Definition onEventListen (this : ChannelServer)
  (id channelName name arg : value) : result ChannelServer :=
  match channels this !! ToString channelName with
  | None => Threw this (IsError (host_error (PropertyOfUndefined "listen")))
  | Some channel =>
      match listen channel name arg with
      | ListenThrows err => Threw this err
      | ListenReturns =>
          let sid := length (listeners this) in
          let this1 :=
            set_listeners (fun l => l ++ [{| l_id := id; l_live := true |}])
              this in
          Returned
            (activeRequests_set this1 (ToString id) (RemoveListener sid))
      end
  end.

(** The event of listener [sid] emits [data]. *)
Definition fire (this : ChannelServer) (sid : nat) (data : value)
  : ChannelServer :=
  match listeners this !! sid with
  | Some l =>
      if l_live l then sendResponse this (RawEventFire (l_id l) data)
      else this
  | None => this
  end.

(** Modelled from the spec: the error that [TPromise.cancel] rejects a
    pending promise with (vs/base/common/winjs.base is not among the
    sources): an [Error] whose message and name are [Canceled]; its
    stack is the host's. *)
Definition canceled : JSError :=
  {| message := VStr "Canceled";
     name := VStr "Canceled";
     stack := stack (host_error (NewError "Canceled")) |}.

(** Modelled from the spec: [TPromise.cancel] (vs/base/common/winjs.base
    is not among the sources; the tests of the IPC, `cancel call with
    TPromise.cancel`, show the error callback of [then] running with an
    error whose message is [Canceled]). [disposable.dispose()] for a
    promise is [requestPromise.cancel()]: a call whose promise is
    pending is rejected with the cancellation error, so the error
    callback of [onPromise] runs; a call that was called back is left
    alone. For an event it detaches the listener. *)
Definition dispose_handle (this : ChannelServer) (d : IDisposable)
  : ChannelServer :=
  match d with
  | CancelPromise pid =>
      match promises this !! pid with
      | Some p =>
          match p_status p with
          | Waiting => callbacks this pid Cancelled (Rejected (IsError canceled))
          | Completed | Cancelled => this
          end
      | None => this
      end
  | RemoveListener sid =>
      set_listeners
        (fun l =>
           match l !! sid with
           | Some x => <[sid := {| l_id := l_id x; l_live := false |}]> l
           | None => l
           end) this
  end.

Definition disposeActiveRequest (this : ChannelServer) (id : value)
  : ChannelServer :=
  match activeRequests this !! ToString id with
  | Some disposable =>
      activeRequests_delete (dispose_handle this disposable) (ToString id)
  | None => this
  end.

Definition onRequest (this : ChannelServer) (request : IRawRequest)
  : result ChannelServer :=
  match request with
  | RawPromise id channelName name arg =>
      Returned (onPromise this id channelName name arg)
  | RawEventListen id channelName name arg =>
      onEventListen this id channelName name arg
  | RawPromiseCancel id | RawEventDispose id =>
      Returned (disposeActiveRequest this id)
  end.

(** The request a header and a body stand for; [None] for a type that
    the [switch] does not know. *)
Definition request_of (type header body : value) : option IRawRequest :=
  let field i := default VUndefined (get_index header i) in
  match type with
  | VNum 100 => Some (RawPromise (field 1%nat) (field 2%nat) (field 3%nat) body)
  | VNum 102 =>
      Some (RawEventListen (field 1%nat) (field 2%nat) (field 3%nat) body)
  | VNum 101 => Some (RawPromiseCancel (field 1%nat))
  | VNum 103 => Some (RawEventDispose (field 1%nat))
  | _ => None
  end.

(** [onRawMessage]: nothing guards [deserialize] and [header[0]]. *)
Definition onRawMessage (this : ChannelServer) (message : list byte)
  : result ChannelServer :=
  match Codec.deserialize message with
  | None => Threw this (IsError (host_error DecodeFault))
  | Some (header, body) =>
      match get_index header 0 with
      | None => Threw this (IsError (host_error (PropertyOfUndefined "0")))
      | Some type =>
          match request_of type header body with
          | Some request => onRequest this request
          | None => Returned this
          end
      end
  end.

(** [dispose]: stop listening and dispose the handle of every key of
    [Object.keys(this.activeRequests)], in that order; a key of that
    list is still there when its turn comes, a callback deleting only
    the key of its own call. The field [activeRequests] is then [null]:
    a callback that runs later still sends its response, and its
    [delete] throws inside the promise. *)
Definition dispose (this : ChannelServer) : ChannelServer :=
  let this1 := set_protocolListener false this in
  let this2 :=
    fold_left
      (fun acc key =>
         match activeRequests acc !! key with
         | Some disposable => dispose_handle acc disposable
         | None => acc
         end)
      (Object_keys (keys_created this1)) this1 in
  set_keys_created (fun _ => []) (set_activeRequests (fun _ => ∅) this2).

(** *** The engine in its environment *)

Inductive event : Type :=
| Receive (message : list byte)
| Settle (pid : nat) (s : settlement)
| Fire (sid : nat) (data : value)
| RegisterChannel (channelName : string) (channel : IChannel)
| Dispose.

(** An exception that escapes [onRawMessage] goes to the transport,
    which keeps delivering. *)
Definition step (this : ChannelServer) (e : event) : ChannelServer :=
  match e with
  | Receive message =>
      if protocolListener this then state_of (onRawMessage this message)
      else this
  | Settle pid s => settle this pid s
  | Fire sid data => fire this sid data
  | RegisterChannel channelName channel =>
      registerChannel this channelName channel
  | Dispose => dispose this
  end.

Definition run (this : ChannelServer) (es : list event) : ChannelServer :=
  fold_left step es this.

End Engine.

End Server.

(** ** The channel client engine: [class ChannelClient] *)

Module Client.

(** [enum State { Uninitialized, Idle }] *)
Inductive State : Type :=
| Uninitialized
| Idle.

(** The promise that [requestPromise] returns to the caller. *)
Inductive future_status : Type :=
| Pending
| Resolved (data : value)
| Failed (err : reason)
| Canceled.

(** How the promise was built: by [doRequest], or by [bufferRequest],
    whose [flushedRequest] is set once the request was flushed. *)
Inductive future_kind : Type :=
| Direct
| Buffered (flushedRequest : bool).

Record future : Type := {
  f_raw : IRawRequest;
  f_kind : future_kind;
  f_status : future_status
}.

(** [IRequest]: the raw request and whether its [flush] hook is set.
    [owner] identifies the object, that is the promise [bufferRequest]
    built for it. *)
Record IRequest : Type := {
  raw : IRawRequest;
  owner : nat;
  flush : bool
}.

(** [IHandler]: the closure of [doRequest], which settles a promise, or
    the closure of [requestEvent], which fires an emitter. *)
Inductive IHandler : Type :=
| PromiseHandler (h : nat)
| EventHandler (e : nat).

(** The emitter that [requestEvent] builds. [e_uninitialized] says that
    [uninitializedPromise] is not [null]; [e_fired] is what its
    subscribers were given. *)
Record emitter : Type := {
  e_raw : IRawRequest;
  e_subscribers : nat;
  e_uninitialized : bool;
  e_fired : list value
}.

(** The fields of the class, followed by the objects its closures
    refer to: the frames handed to [protocol.send], the promises given
    to callers, the emitters, and the emitters that wait on
    [onDidInitialize], oldest first. [bufferedRequests] is [None] once
    it was set to [null]. *)
Record ChannelClient : Type := {
  state : State;
  activeRequests : list nat;
  bufferedRequests : option (list IRequest);
  handlers : gmap string IHandler;
  lastRequestId : Z;
  protocolListener : bool;
  sent : list (list byte);
  futures : list future;
  emitters : list emitter;
  waiting : list nat
}.

Definition set_state (x : State) (this : ChannelClient) : ChannelClient :=
  {| state := x;
     activeRequests := activeRequests this;
     bufferedRequests := bufferedRequests this;
     handlers := handlers this;
     lastRequestId := lastRequestId this;
     protocolListener := protocolListener this;
     sent := sent this;
     futures := futures this;
     emitters := emitters this;
     waiting := waiting this |}.

Definition set_activeRequests (f : list nat -> list nat)
  (this : ChannelClient) : ChannelClient :=
  {| state := state this;
     activeRequests := f (activeRequests this);
     bufferedRequests := bufferedRequests this;
     handlers := handlers this;
     lastRequestId := lastRequestId this;
     protocolListener := protocolListener this;
     sent := sent this;
     futures := futures this;
     emitters := emitters this;
     waiting := waiting this |}.

Definition set_bufferedRequests
  (f : option (list IRequest) -> option (list IRequest))
  (this : ChannelClient) : ChannelClient :=
  {| state := state this;
     activeRequests := activeRequests this;
     bufferedRequests := f (bufferedRequests this);
     handlers := handlers this;
     lastRequestId := lastRequestId this;
     protocolListener := protocolListener this;
     sent := sent this;
     futures := futures this;
     emitters := emitters this;
     waiting := waiting this |}.

Definition set_handlers (f : gmap string IHandler -> gmap string IHandler)
  (this : ChannelClient) : ChannelClient :=
  {| state := state this;
     activeRequests := activeRequests this;
     bufferedRequests := bufferedRequests this;
     handlers := f (handlers this);
     lastRequestId := lastRequestId this;
     protocolListener := protocolListener this;
     sent := sent this;
     futures := futures this;
     emitters := emitters this;
     waiting := waiting this |}.

Definition set_lastRequestId (f : Z -> Z) (this : ChannelClient)
  : ChannelClient :=
  {| state := state this;
     activeRequests := activeRequests this;
     bufferedRequests := bufferedRequests this;
     handlers := handlers this;
     lastRequestId := f (lastRequestId this);
     protocolListener := protocolListener this;
     sent := sent this;
     futures := futures this;
     emitters := emitters this;
     waiting := waiting this |}.

Definition set_protocolListener (b : bool) (this : ChannelClient)
  : ChannelClient :=
  {| state := state this;
     activeRequests := activeRequests this;
     bufferedRequests := bufferedRequests this;
     handlers := handlers this;
     lastRequestId := lastRequestId this;
     protocolListener := b;
     sent := sent this;
     futures := futures this;
     emitters := emitters this;
     waiting := waiting this |}.

Definition set_sent (f : list (list byte) -> list (list byte))
  (this : ChannelClient) : ChannelClient :=
  {| state := state this;
     activeRequests := activeRequests this;
     bufferedRequests := bufferedRequests this;
     handlers := handlers this;
     lastRequestId := lastRequestId this;
     protocolListener := protocolListener this;
     sent := f (sent this);
     futures := futures this;
     emitters := emitters this;
     waiting := waiting this |}.

Definition set_futures (f : list future -> list future)
  (this : ChannelClient) : ChannelClient :=
  {| state := state this;
     activeRequests := activeRequests this;
     bufferedRequests := bufferedRequests this;
     handlers := handlers this;
     lastRequestId := lastRequestId this;
     protocolListener := protocolListener this;
     sent := sent this;
     futures := f (futures this);
     emitters := emitters this;
     waiting := waiting this |}.

Definition set_emitters (f : list emitter -> list emitter)
  (this : ChannelClient) : ChannelClient :=
  {| state := state this;
     activeRequests := activeRequests this;
     bufferedRequests := bufferedRequests this;
     handlers := handlers this;
     lastRequestId := lastRequestId this;
     protocolListener := protocolListener this;
     sent := sent this;
     futures := futures this;
     emitters := f (emitters this);
     waiting := waiting this |}.

Definition set_waiting (f : list nat -> list nat) (this : ChannelClient)
  : ChannelClient :=
  {| state := state this;
     activeRequests := activeRequests this;
     bufferedRequests := bufferedRequests this;
     handlers := handlers this;
     lastRequestId := lastRequestId this;
     protocolListener := protocolListener this;
     sent := sent this;
     futures := futures this;
     emitters := emitters this;
     waiting := f (waiting this) |}.

Definition is_Uninitialized (s : State) : bool :=
  match s with Uninitialized => true | Idle => false end.

Definition request_id (r : IRawRequest) : value :=
  match r with
  | RawPromise id _ _ _ | RawPromiseCancel id
  | RawEventListen id _ _ _ | RawEventDispose id => id
  end.

Section Engine.

Variable host_error : fault -> JSError.

(** [new ChannelClient(protocol)] *)
Definition new_ChannelClient : ChannelClient :=
  {| state := Uninitialized;
     activeRequests := [];
     bufferedRequests := Some [];
     handlers := ∅;
     lastRequestId := 0;
     protocolListener := true;
     sent := [];
     futures := [];
     emitters := [];
     waiting := [] |}.

Definition sendRawMessage (this : ChannelClient) (message : list byte)
  : ChannelClient :=
  set_sent (fun log => log ++ [message]) this.

Definition sendRequest (this : ChannelClient) (request : IRawRequest)
  : ChannelClient :=
  let buffer :=
    match request with
    | RawPromise id channelName name arg =>
        Codec.serialize
          (VArr [VNum RequestType_Promise; id; channelName; name]) arg
    | RawEventListen id channelName name arg =>
        Codec.serialize
          (VArr [VNum RequestType_EventListen; id; channelName; name]) arg
    | RawPromiseCancel id =>
        Codec.serialize (VArr [VNum RequestType_PromiseCancel; id]) VUndefined
    | RawEventDispose id =>
        Codec.serialize (VArr [VNum RequestType_EventDispose; id]) VUndefined
    end in
  sendRawMessage this buffer.

Definition set_future (h : nat) (f : future -> future)
  (this : ChannelClient) : ChannelClient :=
  set_futures
    (fun l => match l !! h with Some x => <[h := f x]> l | None => l end)
    this.

Definition with_status (s : future_status) (x : future) : future :=
  {| f_raw := f_raw x; f_kind := f_kind x; f_status := s |}.

Definition with_kind (k : future_kind) (x : future) : future :=
  {| f_raw := f_raw x; f_kind := k; f_status := f_status x |}.

(** The promise [h] settles; a promise that has settled stays as it
    is. The [done] callback of [requestPromise] then drops its
    disposable from [activeRequests]. *)
Definition settle_future (h : nat) (s : future_status)
  (this : ChannelClient) : ChannelClient :=
  match futures this !! h with
  | Some x =>
      match f_status x with
      | Pending =>
          set_activeRequests (List.filter (fun el => negb (Nat.eqb el h)))
            (set_future h (with_status s) this)
      | _ => this
      end
  | None => this
  end.

(** The body of the promise that [doRequest] builds: register the
    handler, send the request. *)
Definition doRequest (this : ChannelClient) (request : IRawRequest) (h : nat)
  : ChannelClient :=
  let this1 :=
    set_handlers
      (fun m => <[ToString (request_id request) := PromiseHandler h]> m)
      this in
  sendRequest this1 request.

(** The body of the promise that [bufferRequest] builds: queue the
    request with its [flush] hook. In the [Uninitialized] state
    [bufferedRequests] is an array. *)
Definition bufferRequest (this : ChannelClient) (request : IRawRequest)
  (h : nat) : ChannelClient :=
  set_bufferedRequests
    (option_map
       (fun l => l ++ [{| raw := request; owner := h; flush := true |}]))
    this.

(** [requestPromise], reached through [getChannel(channelName).call].
    The result is the engine and the promise handed to the caller. *)
Definition requestPromise (this : ChannelClient)
  (channelName name : string) (arg : value) : ChannelClient * nat :=
  let id := lastRequestId this in
  let this0 := set_lastRequestId (fun n => n + 1) this in
  let request := RawPromise (VNum id) (VStr channelName) (VStr name) arg in
  let h := length (futures this0) in
  let this1 :=
    if is_Uninitialized (state this0) then
      bufferRequest
        (set_futures
           (fun l =>
              l ++ [{| f_raw := request; f_kind := Buffered false;
                       f_status := Pending |}]) this0)
        request h
    else
      doRequest
        (set_futures
           (fun l =>
              l ++ [{| f_raw := request; f_kind := Direct;
                       f_status := Pending |}]) this0)
        request h in
  (set_activeRequests (fun l => l ++ [h]) this1, h).

(** The [flush] hook of a buffered request. *)
Definition flush_request (this : ChannelClient) (r : IRequest)
  : ChannelClient :=
  if flush r then
    set_future (owner r) (with_kind (Buffered true))
      (doRequest this (raw r) (owner r))
  else this.

(** Modelled from the spec: [TPromise.cancel] (vs/base/common/winjs.base
    is not among the sources). Cancelling the promise [h] that
    [requestPromise] returned: a pending promise runs its cancel
    callback and settles as cancelled; a settled promise is left
    alone. The cancel callbacks themselves are those of [doRequest] and
    of [bufferRequest]. *)
Definition cancel (this : ChannelClient) (h : nat) : ChannelClient :=
  match futures this !! h with
  | Some x =>
      match f_status x with
      | Pending =>
          let id := request_id (f_raw x) in
          let this1 :=
            match f_kind x with
            | Direct => sendRequest this (RawPromiseCancel id)
            | Buffered flushedRequest =>
                if negb (is_Uninitialized (state this)) then
                  if flushedRequest then
                    set_future h (with_kind (Buffered false))
                      (sendRequest this (RawPromiseCancel id))
                  else this
                else
                  set_bufferedRequests
                    (option_map
                       (List.filter (fun r => negb (Nat.eqb (owner r) h))))
                    this
            end in
          settle_future h Canceled this1
      | _ => this
      end
  | None => this
  end.

(** [requestEvent], reached through [getChannel(channelName).listen].
    The result is the engine and the emitter whose event is handed to
    the caller. *)
Definition requestEvent (this : ChannelClient)
  (channelName name : string) (arg : value) : ChannelClient * nat :=
  let id := lastRequestId this in
  let this0 := set_lastRequestId (fun n => n + 1) this in
  let request :=
    RawEventListen (VNum id) (VStr channelName) (VStr name) arg in
  let e := length (emitters this0) in
  let this1 :=
    set_emitters
      (fun l =>
         l ++ [{| e_raw := request; e_subscribers := 0;
                  e_uninitialized := false; e_fired := [] |}]) this0 in
  (set_handlers (fun m => <[ToString (VNum id) := EventHandler e]> m) this1,
   e).

Definition set_emitter (e : nat) (f : emitter -> emitter)
  (this : ChannelClient) : ChannelClient :=
  set_emitters
    (fun l => match l !! e with Some x => <[e := f x]> l | None => l end)
    this.

Definition with_subscribers (n : nat) (x : emitter) : emitter :=
  {| e_raw := e_raw x; e_subscribers := n;
     e_uninitialized := e_uninitialized x; e_fired := e_fired x |}.

Definition with_uninitialized (b : bool) (x : emitter) : emitter :=
  {| e_raw := e_raw x; e_subscribers := e_subscribers x;
     e_uninitialized := b; e_fired := e_fired x |}.

Definition with_fired (v : value) (x : emitter) : emitter :=
  {| e_raw := e_raw x; e_subscribers := e_subscribers x;
     e_uninitialized := e_uninitialized x; e_fired := e_fired x ++ [v] |}.

(** Modelled from the spec: [Emitter] and [whenInitialized]
    (vs/base/common/event is not among the sources). A first
    subscriber makes the emitter wait for the [Idle] state and then
    send its [EventListen] request. *)
Definition subscribe (this : ChannelClient) (e : nat) : ChannelClient :=
  match emitters this !! e with
  | Some x =>
      let this1 :=
        set_emitter e (with_subscribers (S (e_subscribers x))) this in
      match e_subscribers x with
      | O =>
          if is_Uninitialized (state this1) then
            set_waiting (fun l => l ++ [e])
              (set_emitter e (with_uninitialized true) this1)
          else sendRequest this1 (e_raw x)
      | S _ => this1
      end
  | None => this
  end.

(** Modelled from the spec: [Emitter] (vs/base/common/event is not
    among the sources). When the last subscriber leaves, a wait that is
    still going on is cancelled and nothing is sent; otherwise the
    [EventDispose] request is sent. *)
Definition unsubscribe (this : ChannelClient) (e : nat) : ChannelClient :=
  match emitters this !! e with
  | Some x =>
      match e_subscribers x with
      | O => this
      | S O =>
          let this1 := set_emitter e (with_subscribers 0) this in
          if e_uninitialized x then
            set_waiting (List.filter (fun el => negb (Nat.eqb el e)))
              (set_emitter e (with_uninitialized false) this1)
          else sendRequest this1 (RawEventDispose (request_id (e_raw x)))
      | S n => set_emitter e (with_subscribers n) this
      end
  | None => this
  end.

(** [_onDidInitialize.fire()]: every waiting emitter sends its
    request. *)
Definition initialized (this : ChannelClient) (e : nat) : ChannelClient :=
  match emitters this !! e with
  | Some x =>
      sendRequest (set_emitter e (with_uninitialized false) this) (e_raw x)
  | None => this
  end.

(** [new Error(m)]: the message is [String(m)] unless [m] is
    [undefined]. *)
Definition Error_message (m : value) : value :=
  match m with
  | VUndefined => VStr EmptyString
  | _ => VStr (ToString m)
  end.

(** The handlers. The one of [doRequest] deletes itself, then resolves
    or rejects its promise; reading [response.data.message] throws when
    the data is [undefined] or [null]. The one of [requestEvent] fires
    the emitter. *)
Definition handle (this : ChannelClient) (handler : IHandler)
  (response : IRawResponse) : result ChannelClient :=
  match handler with
  | PromiseHandler h =>
      match futures this !! h with
      | Some x =>
          let unregister :=
            set_handlers
              (fun m => delete (ToString (request_id (f_raw x))) m) this in
          match response with
          | RawPromiseSuccess _ data =>
              Returned (settle_future h (Resolved data) unregister)
          | RawPromiseError _ data =>
              match get data "message", get data "stack", get data "name" with
              | Some m, Some st, Some n =>
                  Returned
                    (settle_future h
                       (Failed (IsError {| message := Error_message m;
                                           name := n;
                                           stack := st |}))
                       unregister)
              | _, _, _ =>
                  Threw unregister
                    (IsError (host_error (PropertyOfUndefined "message")))
              end
          | RawPromiseErrorObj _ data =>
              Returned (settle_future h (Failed (NotError data)) unregister)
          | RawEventFire _ _ | RawInitialize => Returned this
          end
      | None => Returned this
      end
  | EventHandler e =>
      match response with
      | RawPromiseSuccess _ data | RawPromiseError _ data
      | RawPromiseErrorObj _ data | RawEventFire _ data =>
          match emitters this !! e with
          | Some x =>
              match e_subscribers x with
              | O => Returned this
              | S _ => Returned (set_emitter e (with_fired data) this)
              end
          | None => Returned this
          end
      | RawInitialize => Returned this
      end
  end.

Definition response_id (r : IRawResponse) : value :=
  match r with
  | RawInitialize => VUndefined
  | RawPromiseSuccess id _ | RawPromiseError id _
  | RawPromiseErrorObj id _ | RawEventFire id _ => id
  end.

Definition onResponse (this : ChannelClient) (response : IRawResponse)
  : result ChannelClient :=
  match response with
  | RawInitialize =>
      let this1 := set_state Idle this in
      let this2 :=
        set_waiting (fun _ => []) (fold_left initialized (waiting this1) this1)
      in
      match bufferedRequests this2 with
      | Some requests =>
          Returned
            (set_bufferedRequests (fun _ => None)
               (fold_left flush_request requests this2))
      | None =>
          Threw this2 (IsError (host_error (PropertyOfUndefined "forEach")))
      end
  | _ =>
      match handlers this !! ToString (response_id response) with
      | Some handler => handle this handler response
      | None => Returned this
      end
  end.

Definition response_of (type header body : value) : option IRawResponse :=
  let field i := default VUndefined (get_index header i) in
  match type with
  | VNum 200 => Some RawInitialize
  | VNum 201 => Some (RawPromiseSuccess (field 1%nat) body)
  | VNum 202 => Some (RawPromiseError (field 1%nat) body)
  | VNum 204 => Some (RawEventFire (field 1%nat) body)
  | VNum 203 => Some (RawPromiseErrorObj (field 1%nat) body)
  | _ => None
  end.

(** [onRawMessage]: nothing guards [deserialize] and [header[0]]. *)
Definition onRawMessage (this : ChannelClient) (message : list byte)
  : result ChannelClient :=
  match Codec.deserialize message with
  | None => Threw this (IsError (host_error DecodeFault))
  | Some (header, body) =>
      match get_index header 0 with
      | None => Threw this (IsError (host_error (PropertyOfUndefined "0")))
      | Some type =>
          match response_of type header body with
          | Some response => onResponse this response
          | None => Returned this
          end
      end
  end.

(** [dispose]: stop listening, cancel every active request. *)
Definition dispose (this : ChannelClient) : ChannelClient :=
  let this1 := set_protocolListener false this in
  set_activeRequests (fun _ => [])
    (fold_left cancel (activeRequests this1) this1).

(** *** The engine in its environment *)

Inductive event : Type :=
| Call (channelName name : string) (arg : value)
| Cancel (h : nat)
| Listen (channelName name : string) (arg : value)
| Subscribe (e : nat)
| Unsubscribe (e : nat)
| Receive (message : list byte)
| Dispose.

Definition step (this : ChannelClient) (ev : event) : ChannelClient :=
  match ev with
  | Call channelName name arg => fst (requestPromise this channelName name arg)
  | Cancel h => cancel this h
  | Listen channelName name arg => fst (requestEvent this channelName name arg)
  | Subscribe e => subscribe this e
  | Unsubscribe e => unsubscribe this e
  | Receive message =>
      if protocolListener this then state_of (onRawMessage this message)
      else this
  | Dispose => dispose this
  end.

Definition run (this : ChannelClient) (es : list event) : ChannelClient :=
  fold_left step es this.

End Engine.

End Client.

(** ** The multi-client server: [class IPCServer] *)

Module IPC.

(** A connection announced by [onDidClientConnect]: it waits for its
    first message, then owns the two engines built in the
    [onFirstMessage] callback, until it disconnects. *)
Inductive connection : Type :=
| Connecting
| Connected (id : string) (channelServer : Server.ChannelServer)
    (channelClient : Client.ChannelClient)
| Disconnected (channelServer : Server.ChannelServer)
    (channelClient : Client.ChannelClient).

(** The fields of the class ([channelClients] maps a client id to the
    connection whose [ChannelClient] it is), followed by the
    connections its callbacks refer to. *)
Record IPCServer : Type := {
  channels : gmap string IChannel;
  channelClients : gmap string nat;
  connections : list connection
}.

Section Engine.

Variable host_error : fault -> JSError.

(** [new IPCServer(onDidClientConnect)] *)
Definition new_IPCServer : IPCServer :=
  {| channels := ∅; channelClients := ∅; connections := [] |}.

(** [registerChannel]: [this.channels[channelName] = channel]. *)
Definition registerChannel (this : IPCServer) (channelName : string)
  (channel : IChannel) : IPCServer :=
  {| channels := <[channelName := channel]> (channels this);
     channelClients := channelClients this;
     connections := connections this |}.

(** The listener of [onDidClientConnect]. *)
Definition clientConnect (this : IPCServer) : IPCServer :=
  {| channels := channels this;
     channelClients := channelClients this;
     connections := connections this ++ [Connecting] |}.

(** The engines of a new connection: [new ChannelServer(protocol)],
    then [registerChannel] for every key of [this.channels]. *)
Definition connection_server (this : IPCServer) : Server.ChannelServer :=
  fold_left
    (fun channelServer kv =>
       Server.registerChannel channelServer (fst kv) (snd kv))
    (map_to_list (channels this)) Server.new_ChannelServer.

(** The [onFirstMessage] callback of connection [i]. *)
Definition firstMessage (this : IPCServer) (i : nat) (rawId : list byte)
  : IPCServer :=
  match connections this !! i with
  | Some Connecting =>
      let id := Codec.Buffer_toString rawId in
      {| channels := channels this;
         channelClients := <[id := i]> (channelClients this);
         connections :=
           <[i := Connected id (connection_server this)
                    Client.new_ChannelClient]> (connections this) |}
  | _ => this
  end.

(** A later message of connection [i] reaches both engines. *)
Definition message (this : IPCServer) (i : nat) (m : list byte)
  : IPCServer :=
  match connections this !! i with
  | Some (Connected id channelServer channelClient) =>
      {| channels := channels this;
         channelClients := channelClients this;
         connections :=
           <[i := Connected id
                    (Server.step host_error channelServer (Server.Receive m))
                    (Client.step host_error channelClient (Client.Receive m))]>
             (connections this) |}
  | _ => this
  end.

(** The [onDidClientDisconnect] callback of connection [i]. *)
Definition clientDisconnect (this : IPCServer) (i : nat) : IPCServer :=
  match connections this !! i with
  | Some (Connected id channelServer channelClient) =>
      {| channels := channels this;
         channelClients := delete id (channelClients this);
         connections :=
           <[i := Disconnected (Server.dispose host_error channelServer)
                    (Client.dispose channelClient)]> (connections this) |}
  | _ => this
  end.

(** [dispose] *)
Definition dispose (this : IPCServer) : IPCServer :=
  {| channels := ∅; channelClients := ∅; connections := connections this |}.

Inductive event : Type :=
| ClientConnect
| FirstMessage (i : nat) (rawId : list byte)
| Message (i : nat) (m : list byte)
| ClientDisconnect (i : nat)
| RegisterChannel (channelName : string) (channel : IChannel)
| Dispose.

Definition step (this : IPCServer) (e : event) : IPCServer :=
  match e with
  | ClientConnect => clientConnect this
  | FirstMessage i rawId => firstMessage this i rawId
  | Message i m => message this i m
  | ClientDisconnect i => clientDisconnect this i
  | RegisterChannel channelName channel =>
      registerChannel this channelName channel
  | Dispose => dispose this
  end.

Definition run (this : IPCServer) (es : list event) : IPCServer :=
  fold_left step es this.


End Engine.

End IPC.

(** ** The peer of the multi-client server: [class IPCClient], and
    [IPCServer.getClient] *)

Module Peer.

(** The two engines of the class, followed by the frames handed to the
    [send] of the protocol they share, in order. *)
Record IPCClient : Type := {
  channelClient : Client.ChannelClient;
  channelServer : Server.ChannelServer;
  sent : list (list byte)
}.

(** The frames an engine has sent since its log was [before]. *)
Definition sent_since (before now : list (list byte)) : list (list byte) :=
  drop (length before) now.

Section Engine.

Variable host_error : fault -> JSError.

(** [new IPCClient(protocol, id)]: send the id, then build the channel
    client and the channel server, which sends its [Initialize]. *)
Definition new_IPCClient (id : string) : IPCClient :=
  let log := [Codec.Buffer_from id] in
  let channelClient := Client.new_ChannelClient in
  let log := log ++ Client.sent channelClient in
  let channelServer := Server.new_ChannelServer in
  {| channelClient := channelClient;
     channelServer := channelServer;
     sent := log ++ Server.sent channelServer |}.

(** [getChannel(channelName).call(name, arg)]; the result is the peer
    and the promise handed to the caller. *)
Definition call (this : IPCClient) (channelName name : string) (arg : value)
  : IPCClient * nat :=
  let r := Client.requestPromise (channelClient this) channelName name arg in
  ({| channelClient := fst r;
      channelServer := channelServer this;
      sent := sent this
              ++ sent_since (Client.sent (channelClient this))
                   (Client.sent (fst r)) |},
   snd r).

(** A message of the protocol reaches the listener of the channel
    client, then the listener of the channel server. *)
Definition receive (this : IPCClient) (m : list byte) : IPCClient :=
  let c := Client.step host_error (channelClient this) (Client.Receive m) in
  let s := Server.step host_error (channelServer this) (Server.Receive m) in
  {| channelClient := c;
     channelServer := s;
     sent := sent this
             ++ sent_since (Client.sent (channelClient this)) (Client.sent c)
             ++ sent_since (Server.sent (channelServer this)) (Server.sent s) |}.

End Engine.

(** The promise that [IPCServer.getClient] returns: rejected with an
    [Error] of the given message, resolved with the channel client of a
    connection, or waiting for [onClientAdded] to fire the id. *)
Inductive client_promise : Type :=
| ClientRejected (message : string)
| ClientResolved (connection : nat)
| ClientAwaited (clientId : string).

(** [IPCServer.getClient] *)
Definition getClient (this : IPC.IPCServer) (clientId : string)
  : client_promise :=
  if String.eqb clientId EmptyString then
    ClientRejected "Client id should be provided"
  else
    match IPC.channelClients this !! clientId with
    | Some connection => ClientResolved connection
    | None => ClientAwaited clientId
    end.

End Peer.

(** * The vocabulary of the statements *)

(** ** JSON text *)

Module JSONVocab.
Import JSON.

(** The character after a number must not continue it. *)
Definition num_follow (rest : text) : Prop :=
  match rest with
  | [] => True
  | c :: _ => digit_of c = None /\ starts_fraction rest = false
  end.

(** A character that starts no value other than a number. *)
Definition plain_start (c : ascii) : Prop :=
  is_ws c = false /\ Ascii.eqb c "]"%char = false
  /\ Ascii.eqb c "}"%char = false.

(** The properties of an object that [JSON.stringify] prints. *)
Definition members (fs : list (string * value)) : list (string * value) :=
  List.filter (fun kv => negb (is_undefined (snd kv))) fs.

(** The text of one property: its quoted key, a colon, its value. *)
Definition print_member (kv : string * value) : text :=
  quote (fst kv) ++ ":"%char :: print (snd kv).

(** A property as it reads back. *)
Definition norm_member (kv : string * value) : string * value :=
  (fst kv, norm (snd kv)).

(** [print v] followed by [rest] parses as [norm v], leaving [rest]. *)
Definition reads_back (v : value) : Prop :=
  forall fuel rest,
    (weight v <= fuel)%nat -> num_follow rest ->
    parse_value fuel (print v ++ rest) = Some (norm v, rest).

End JSONVocab.

(** ** Frames *)

Module CodecVocab.
Import Codec.

(** What the body reads back as: a structured value goes through JSON
    text. *)
Definition norm_body (V : value) : value :=
  match V with
  | VUndefined | VStr _ | VBuf _ => V
  | _ => JSON.norm V
  end.

(** The body-type tag [serializeBody] gives the body. *)
Definition body_tag (V : value) : Z := BodyType_value (snd (serializeBody V)).

(** The header JSON of the frame for [H] and [V]. *)
Definition header_json (H V : value) : value := VArr [H; VNum (body_tag V)].

(** The bytes of that header JSON. *)
Definition header_buffer (H V : value) : list byte :=
  Buffer_from (JSON.text_string (header_json H V)).

End CodecVocab.

(** ** The channel server *)

Module ServerVocab.
Import Codec Server.

(** The frame [sendResponse] builds for a response. *)
Definition response_frame (response : IRawResponse) : list byte :=
  match response with
  | RawInitialize => serialize (VArr [VNum ResponseType_Initialize]) VUndefined
  | RawPromiseSuccess id data =>
      serialize (VArr [VNum ResponseType_PromiseSuccess; id]) data
  | RawPromiseError id data =>
      serialize (VArr [VNum ResponseType_PromiseError; id]) data
  | RawEventFire id data =>
      serialize (VArr [VNum ResponseType_EventFire; id]) data
  | RawPromiseErrorObj id data =>
      serialize (VArr [VNum ResponseType_PromiseErrorObj; id]) data
  end.

(** The frame of the [Initialize] response. *)
Definition Initialize_frame : list byte := response_frame RawInitialize.

(** A frame whose header starts with the type [ty]. *)
Definition frame_of_type (ty : Z) (buf : list byte) : Prop :=
  exists rest body, buf = serialize (VArr (VNum ty :: rest)) body.

(** A frame of one of the four responses that carry an id. *)
Definition later_response (buf : list byte) : Prop :=
  exists id data,
    buf = response_frame (RawPromiseSuccess id data)
    \/ buf = response_frame (RawPromiseError id data)
    \/ buf = response_frame (RawPromiseErrorObj id data)
    \/ buf = response_frame (RawEventFire id data).

(** A frame that is a terminal response for the request [id]. *)
Definition terminal_for (id : value) (buf : list byte) : Prop :=
  exists data,
    buf = response_frame (RawPromiseSuccess id data)
    \/ buf = response_frame (RawPromiseError id data)
    \/ buf = response_frame (RawPromiseErrorObj id data).

(** The request a frame stands for, as [onRawMessage] reads it. *)
Definition decode_request (message : list byte) : option IRawRequest :=
  match deserialize message with
  | Some (header, body) =>
      match get_index header 0 with
      | Some type => request_of type header body
      | None => None
      end
  | None => None
  end.

(** A frame that answers the call with the id [id]: the response
    that a callback of [onPromise] sends for some settlement. *)
Definition answer_for (id : value) (buf : list byte) : Prop :=
  exists s r, response_of id s = Some r /\ buf = response_frame r.

(** The callbacks of the promise are still to run. *)
Definition is_waiting (p : request_promise) : bool :=
  match p_status p with Waiting => true | _ => false end.

(** The request id with key [k] is in use: a call received under it
    has not completed and was not cancelled. *)
Definition in_use (k : string) (st : ChannelServer) : bool :=
  existsb (fun p => is_waiting p && String.eqb (ToString (p_id p)) k)
    (promises st).

(** A request id identifies at most one outstanding request: a Promise
    or EventListen frame does not reuse the id of a call in progress. *)
Definition fresh_request (st : ChannelServer) (e : event) : bool :=
  match e with
  | Receive m =>
      match decode_request m with
      | Some (RawPromise id _ _ _) | Some (RawEventListen id _ _ _) =>
          negb (in_use (ToString id) st)
      | _ => true
      end
  | _ => true
  end.

(** Along the events [es] no request reuses an id in use. *)
Fixpoint ids_unique (host_error : fault -> JSError) (st : ChannelServer)
  (es : list event) : bool :=
  match es with
  | [] => true
  | e :: es' =>
      fresh_request st e && ids_unique host_error (step host_error st e) es'
  end.

(** The event is the arrival of a Promise request whose id has key
    [k]. *)
Definition requests_promise (k : string) (e : event) : bool :=
  match e with
  | Receive m =>
      match decode_request m with
      | Some (RawPromise id _ _ _) => String.eqb (ToString id) k
      | _ => false
      end
  | _ => false
  end.

(** The data of the PromiseError response for an error. *)
Definition error_data (e : JSError) (st : value) : value :=
  VObj [("message"%string, message e); ("name"%string, name e);
        ("stack"%string, st)].

(** The call [pid] is in progress and carries the id [id]. *)
Definition waiting_at (st : ChannelServer) (pid : nat) (id : value) : Prop :=
  exists p, promises st !! pid = Some p /\ p_status p = Waiting /\ p_id p = id.

(** Where a frame that the step [e] sends from the state [st] comes
    from: an event has emitted, or a call that was in progress is
    answered, or the call that the step receives is. *)
Definition sent_for (st : ChannelServer) (e : event) (buf : list byte)
  : Prop :=
  (exists id data, buf = response_frame (RawEventFire id data))
  \/ (exists id, answer_for id buf /\ exists pid, waiting_at st pid id)
  \/ (exists id,
        answer_for id buf
        /\ exists m c n a,
             e = Receive m /\ decode_request m = Some (RawPromise id c n a)).

(** No call in progress carries an id with key [k]. *)
Definition idle_key (k : string) (st : ChannelServer) : Prop :=
  forall pid id, waiting_at st pid id -> ToString id <> k.

(** While the server listens, every call in progress has its cancel
    handle stored under its id. *)
Definition handles_ok (st : ChannelServer) : Prop :=
  protocolListener st = true ->
  forall pid id, waiting_at st pid id ->
    activeRequests st !! ToString id = Some (CancelPromise pid).

End ServerVocab.

(** ** The channel client *)

Module ClientVocab.
Import Codec Client.

(** The frame [sendRequest] builds for a request. *)
Definition request_frame (request : IRawRequest) : list byte :=
  match request with
  | RawPromise id channelName name arg =>
      serialize (VArr [VNum RequestType_Promise; id; channelName; name]) arg
  | RawEventListen id channelName name arg =>
      serialize (VArr [VNum RequestType_EventListen; id; channelName; name]) arg
  | RawPromiseCancel id =>
      serialize (VArr [VNum RequestType_PromiseCancel; id]) VUndefined
  | RawEventDispose id =>
      serialize (VArr [VNum RequestType_EventDispose; id]) VUndefined
  end.

(** The response a frame stands for, as [onRawMessage] reads it. *)
Definition decode_response (message : list byte) : option IRawResponse :=
  match deserialize message with
  | Some (header, body) =>
      match get_index header 0 with
      | Some type => response_of type header body
      | None => None
      end
  | None => None
  end.

(** The Promise request frames of a sequence of calls, the first of
    which is given the id [next]. *)
Fixpoint call_frames (next : Z) (calls : list (string * string * value))
  : list (list byte) :=
  match calls with
  | [] => []
  | (channelName, name, arg) :: calls' =>
      request_frame (RawPromise (VNum next) (VStr channelName) (VStr name) arg)
        :: call_frames (next + 1) calls'
  end.

(** The event of issuing a call. *)
Definition call_event (c : string * string * value) : event :=
  Call (fst (fst c)) (snd (fst c)) (snd c).

(** The error the caller of a rejected call is given. *)
Definition rejection (x : future) : option JSError :=
  match f_status x with
  | Failed (IsError e) => Some e
  | _ => None
  end.

(** *** A structured error travelling from a server to a client *)

(** The errors of the host in the examples. *)
Definition example_host_error (f : fault) : JSError :=
  {| message := VStr "host error"; name := VStr "TypeError";
     stack := VUndefined |}.

(** A channel whose calls return a pending promise. *)
Definition pending_channel : IChannel :=
  {| call := fun _ _ => CallReturns None; listen := fun _ _ => ListenReturns |}.

(** An error with a stack of two lines. *)
Definition nice_error : JSError :=
  {| message := VStr "nice error";
     name := VStr "Error";
     stack := VStr ("Error: nice error"
                    +:+ String.String JSON.ch_lf "    at marco") |}.

(** The client calls [error] on channel [echo] once it is initialized. *)
Definition calling_client : ChannelClient :=
  run example_host_error new_ChannelClient
    [Receive ServerVocab.Initialize_frame;
     Call "echo" "error" (VStr "nice error")].

(** The server receives the request of that client; the call rejects
    with [nice_error]. *)
Definition rejecting_server : Server.ChannelServer :=
  Server.run example_host_error Server.new_ChannelServer
    (Server.RegisterChannel "echo" pending_channel
       :: map Server.Receive (sent calling_client)
       ++ [Server.Settle 0 (Rejected (IsError nice_error))]).

(** The client receives what that server sent. *)
Definition answered_client : ChannelClient :=
  run example_host_error calling_client
    (map Receive (Server.sent rejecting_server)).

(** The queue entry [bufferRequest] builds for a call. *)
Definition buffered_call (st : ChannelClient) (c : string * string * value)
  : IRequest :=
  {| raw := RawPromise (VNum (lastRequestId st)) (VStr (fst (fst c)))
              (VStr (snd (fst c))) (snd c);
     owner := length (futures st);
     flush := true |}.

(** The frames the flush hooks of a queue send. *)
Definition flush_frames (q : list IRequest) : list (list byte) :=
  flat_map (fun r => if flush r then [request_frame (raw r)] else []) q.

(** The frames the waiting emitters send when the client is
    initialized. *)
Definition listen_frames (raws : list IRawRequest) (ws : list nat)
  : list (list byte) :=
  flat_map
    (fun e => match raws !! e with
              | Some r => [request_frame r]
              | None => []
              end) ws.

End ClientVocab.

(** ** Cancelling a call of the client *)

Module CancelVocab.
Import Codec Client CodecVocab ServerVocab ClientVocab.

(** [r] is the Promise request that [requestPromise] builds with the
    id [i]. *)
Definition promise_request (r : IRawRequest) (i : Z) : Prop :=
  exists channelName name arg,
    r = RawPromise (VNum i) (VStr channelName) (VStr name) arg.

(** A Promise request frame that carries the id [i]. *)
Definition promise_frame (i : Z) (buf : list byte) : Prop :=
  exists channelName name arg,
    buf = request_frame (RawPromise (VNum i) channelName name arg).

(** The request is a Promise request. *)
Definition is_promise_request (r : IRawRequest) : Prop :=
  match r with
  | RawPromise _ _ _ _ => True
  | _ => False
  end.

(** The request is an EventListen request. *)
Definition is_listen_request (r : IRawRequest) : Prop :=
  match r with
  | RawEventListen _ _ _ _ => True
  | _ => False
  end.

(** What holds of every client that was built by [new ChannelClient]
    and driven by its environment. *)
Record well_formed (st : ChannelClient) : Prop := {
  wf_ids : forall h x, futures st !! h = Some x ->
    exists i, promise_request (f_raw x) i /\ i < lastRequestId st;
  wf_distinct : forall h1 h2 x1 x2,
    futures st !! h1 = Some x1 -> futures st !! h2 = Some x2 ->
    request_id (f_raw x1) = request_id (f_raw x2) -> h1 = h2;
  wf_queue : forall q r, bufferedRequests st = Some q -> In r q ->
    exists x, futures st !! owner r = Some x /\ raw r = f_raw x
              /\ flush r = true;
  wf_uninitialized : state st = Uninitialized ->
    (exists q, bufferedRequests st = Some q)
    /\ forall buf, In buf (sent st) ->
         ~ frame_of_type RequestType_Promise buf;
  wf_pending : forall h x, futures st !! h = Some x -> f_status x = Pending ->
    match f_kind x with
    | Buffered false =>
        state st = Uninitialized
        /\ exists q r, bufferedRequests st = Some q /\ In r q /\ owner r = h
    | _ => state st = Idle /\ In (request_frame (f_raw x)) (sent st)
    end;
  wf_emitters : forall e x, emitters st !! e = Some x ->
    is_listen_request (e_raw x)
}.

(** A frame for the call with the id [i]: its Promise request or its
    PromiseCancel request. *)
Definition concerns (i : Z) (buf : list byte) : Prop :=
  promise_frame i buf \/ buf = request_frame (RawPromiseCancel (VNum i)).

(** No frame for the call with the id [i] was sent, its request is not
    queued, its promise is not pending, and the id [i] was given out. *)
Record never_sent (i : Z) (st : ChannelClient) : Prop := {
  ns_sent : forall buf, In buf (sent st) -> ~ concerns i buf;
  ns_queue : forall q r, bufferedRequests st = Some q -> In r q ->
    request_id (raw r) <> VNum i;
  ns_id : i < lastRequestId st;
  ns_settled : forall h x, futures st !! h = Some x ->
    request_id (f_raw x) = VNum i -> f_status x <> Pending
}.

(** The cancel callback of the promise finds its request sent: the
    promise was built by [doRequest], or by [bufferRequest] and its
    request was flushed. *)
Definition request_sent (st : ChannelClient) (x : future) : bool :=
  match f_kind x with
  | Direct => true
  | Buffered flushedRequest =>
      negb (is_Uninitialized (state st)) && flushedRequest
  end.

(** A PromiseCancel request was only sent after a Promise request. *)
Definition cancels_follow (st : ChannelClient) : Prop :=
  (exists buf, In buf (sent st)
               /\ frame_of_type RequestType_PromiseCancel buf) ->
  exists buf, In buf (sent st) /\ frame_of_type RequestType_Promise buf.

(** The request of promise [h] is in the queue. *)
Definition queued (st : ChannelClient) (h : nat) : Prop :=
  exists q r, bufferedRequests st = Some q /\ In r q /\ owner r = h.

(** Two clients with the same promises, queue, state and frames. *)
Definition same_core (a b : ChannelClient) : Prop :=
  futures b = futures a /\ lastRequestId a <= lastRequestId b
  /\ bufferedRequests b = bufferedRequests a /\ state b = state a
  /\ sent b = sent a
  /\ map e_raw (emitters b) = map e_raw (emitters a).

(** The promise [h] stops being pending, and its request leaves the
    queue if it was there; nothing else changes. *)
Definition retires (h : nat) (a b : ChannelClient) : Prop :=
  (forall h', h' <> h -> futures b !! h' = futures a !! h')
  /\ (forall x, futures a !! h = Some x ->
        exists x', futures b !! h = Some x' /\ f_raw x' = f_raw x
                   /\ f_status x' <> Pending)
  /\ (futures a !! h = None -> futures b !! h = None)
  /\ lastRequestId b = lastRequestId a
  /\ state b = state a
  /\ sent b = sent a
  /\ map e_raw (emitters b) = map e_raw (emitters a)
  /\ (forall q, bufferedRequests a = Some q ->
        exists q', bufferedRequests b = Some q'
                   /\ (forall r, In r q' -> In r q)
                   /\ (forall r, In r q -> owner r <> h -> In r q'))
  /\ (bufferedRequests a = None -> bufferedRequests b = None).

(** The request [requestPromise] builds for a call. *)
Definition new_request (st : ChannelClient) (channelName name : string)
  (arg : value) : IRawRequest :=
  RawPromise (VNum (lastRequestId st)) (VStr channelName) (VStr name) arg.

(** The queue holds a request of promise [h] that is to be flushed. *)
Definition flushed (q : list IRequest) (h : nat) : bool :=
  existsb (fun r => flush r && Nat.eqb (owner r) h) q.

End CancelVocab.

(** ** The multi-client server *)

Module IPCVocab.
Import Codec IPC ClientVocab ServerVocab.



End IPCVocab.

(** ** The header JSON of a frame *)

Module FrameVocab.
Import Codec.


(** The header JSON of a frame, as [deserialize] cuts it out: the text
    of [headerBuffer]. *)
Definition header_text (buffer : list byte) : option string :=
  match readUInt32BE buffer with
  | Some headerSize => Some (Buffer_toString (slice buffer 4 (4 + headerSize)))
  | None => None
  end.

(** The value that header JSON stands for. *)
Definition header_value (buffer : list byte) : option value :=
  match header_text buffer with
  | Some s => JSON.parse s
  | None => None
  end.

End FrameVocab.

(** ** Small scenarios *)

Module ExampleVocab.
Import Codec ClientVocab ServerVocab.

(** A call of the command [ping] on the channel [echo] with the id 1. *)
Definition ping_request : IRawRequest :=
  RawPromise (VNum 1) (VStr "echo") (VStr "ping") VUndefined.

(** The cancellation of that call. *)
Definition ping_cancel : IRawRequest := RawPromiseCancel (VNum 1).

(** A server with the channel [echo], which has received
    [ping_request]. *)
Definition ping_received : list Server.event :=
  [Server.RegisterChannel "echo" pending_channel;
   Server.Receive (request_frame ping_request)].

(** A request to listen on a channel that is not registered. *)
Definition stray_listen : IRawRequest :=
  RawEventListen (VNum 2) (VStr "nowhere") (VStr "changed") VUndefined.

(** A call of a channel that is not registered. *)
Definition stray_call : IRawRequest :=
  RawPromise (VNum 2) (VStr "nowhere") (VStr "changed") VUndefined.

(** A frame whose body has the tag 3 and is no JSON text. *)
Definition broken_frame : list byte :=
  writeUInt32BE 9 ++ Buffer_from "[[100],3]" ++ Buffer_from "{".

(** The promise of the first call of a client that is not
    initialized. *)
Definition first_buffered : Client.future :=
  {| Client.f_raw := RawPromise (VNum 0) (VStr "echo") (VStr "ping") VUndefined;
     Client.f_kind := Client.Buffered false;
     Client.f_status := Client.Pending |}.

(** The promise of the call of [calling_client]. *)
Definition first_direct : Client.future :=
  {| Client.f_raw :=
       RawPromise (VNum 0) (VStr "echo") (VStr "error") (VStr "nice error");
     Client.f_kind := Client.Direct;
     Client.f_status := Client.Pending |}.

End ExampleVocab.

(** ** The frames of the two engines *)

Module LayoutVocab.
Import Codec CodecVocab ServerVocab ClientVocab.

(** The header array and the body that [sendRequest] hands to
    [serialize]. *)
Definition request_header (r : IRawRequest) : value :=
  match r with
  | RawPromise id channelName name _ =>
      VArr [VNum RequestType_Promise; id; channelName; name]
  | RawEventListen id channelName name _ =>
      VArr [VNum RequestType_EventListen; id; channelName; name]
  | RawPromiseCancel id => VArr [VNum RequestType_PromiseCancel; id]
  | RawEventDispose id => VArr [VNum RequestType_EventDispose; id]
  end.

Definition request_body (r : IRawRequest) : value :=
  match r with
  | RawPromise _ _ _ arg | RawEventListen _ _ _ arg => arg
  | RawPromiseCancel _ | RawEventDispose _ => VUndefined
  end.

(** A request as the peer reads it: the fields of the header have gone
    through JSON text, the argument through the body of the frame. *)
Definition read_request (r : IRawRequest) : IRawRequest :=
  match r with
  | RawPromise id channelName name arg =>
      RawPromise (JSON.norm id) (JSON.norm channelName) (JSON.norm name)
        (norm_body arg)
  | RawEventListen id channelName name arg =>
      RawEventListen (JSON.norm id) (JSON.norm channelName) (JSON.norm name)
        (norm_body arg)
  | RawPromiseCancel id => RawPromiseCancel (JSON.norm id)
  | RawEventDispose id => RawEventDispose (JSON.norm id)
  end.

(** The header array and the body that [sendResponse] hands to
    [serialize]. *)
Definition response_header (r : IRawResponse) : value :=
  match r with
  | RawInitialize => VArr [VNum ResponseType_Initialize]
  | RawPromiseSuccess id _ => VArr [VNum ResponseType_PromiseSuccess; id]
  | RawPromiseError id _ => VArr [VNum ResponseType_PromiseError; id]
  | RawPromiseErrorObj id _ => VArr [VNum ResponseType_PromiseErrorObj; id]
  | RawEventFire id _ => VArr [VNum ResponseType_EventFire; id]
  end.

Definition response_body (r : IRawResponse) : value :=
  match r with
  | RawInitialize => VUndefined
  | RawPromiseSuccess _ data | RawPromiseError _ data
  | RawPromiseErrorObj _ data | RawEventFire _ data => data
  end.

(** A response as the peer reads it. *)
Definition read_response (r : IRawResponse) : IRawResponse :=
  match r with
  | RawInitialize => RawInitialize
  | RawPromiseSuccess id data => RawPromiseSuccess (JSON.norm id) (norm_body data)
  | RawPromiseError id data => RawPromiseError (JSON.norm id) (norm_body data)
  | RawPromiseErrorObj id data =>
      RawPromiseErrorObj (JSON.norm id) (norm_body data)
  | RawEventFire id data => RawEventFire (JSON.norm id) (norm_body data)
  end.

(** A frame put together by hand: the length of the header JSON [J],
    its text, then the body bytes [b]. *)
Definition raw_frame (J : value) (b : list byte) : list byte :=
  writeUInt32BE (byteLength (Buffer_from (JSON.text_string J)))
    ++ Buffer_from (JSON.text_string J) ++ b.

(** The tags [deserializeBody] has a case for that reads the body
    bytes: String, Buffer and Object. *)
Definition reads_body (bodyType : value) : bool :=
  match bodyType with
  | VNum 1 | VNum 2 | VNum 3 => true
  | _ => false
  end.

(** The line feed as a string, and the strings without one. *)
Definition line_feed : string := String.String JSON.ch_lf EmptyString.

Fixpoint one_line (s : string) : bool :=
  match s with
  | EmptyString => true
  | String.String c s' => negb (Ascii.eqb c JSON.ch_lf) && one_line s'
  end.

End LayoutVocab.

(** ** The ids a client gives out *)

Module ClientEdgeVocab.
Import Codec Client CodecVocab ServerVocab ClientVocab CancelVocab.

(** The ids of the requests a client has built: those of its calls,
    then those of its events. *)
Definition issued (st : ChannelClient) : list value :=
  map (fun x => request_id (f_raw x)) (futures st)
    ++ map (fun x => request_id (e_raw x)) (emitters st).

(** An id that [lastRequestId] has passed. *)
Definition given_out (st : ChannelClient) (id : value) : Prop :=
  exists i, id = VNum i /\ 0 <= i < lastRequestId st.

(** The requests of [b] are those of [a]. *)
Definition keeps_requests (a b : ChannelClient) : Prop :=
  map f_raw (futures b) = map f_raw (futures a)
  /\ map e_raw (emitters b) = map e_raw (emitters a)
  /\ lastRequestId a <= lastRequestId b.

(** [b] has one request more than [a], a call or an event, with the
    id [lastRequestId a]. *)
Definition one_more_request (a b : ChannelClient) : Prop :=
  lastRequestId b = lastRequestId a + 1
  /\ ((exists r, map f_raw (futures b) = map f_raw (futures a) ++ [r]
                 /\ request_id r = VNum (lastRequestId a)
                 /\ map e_raw (emitters b) = map e_raw (emitters a))
      \/ (exists r, map e_raw (emitters b) = map e_raw (emitters a) ++ [r]
                    /\ request_id r = VNum (lastRequestId a)
                    /\ map f_raw (futures b) = map f_raw (futures a))).

(** Once the client is initialized its queue is gone and no emitter
    waits for the initialization. *)
Definition settled_in (st : ChannelClient) : Prop :=
  state st = Idle -> bufferedRequests st = None /\ waiting st = [].

End ClientEdgeVocab.

(** ** The handlers of a client *)

Module HandlerVocab.
Import Codec Client CodecVocab ServerVocab ClientVocab CancelVocab.

(** Every handler of a call is stored under the id of the request of
    its promise. *)
Definition handlers_own (st : ChannelClient) : Prop :=
  forall key h, handlers st !! key = Some (PromiseHandler h) ->
    exists x, futures st !! h = Some x
              /\ ToString (request_id (f_raw x)) = key.

(** The handlers of [b] are among those of [a]. *)
Definition fewer_handlers (a b : ChannelClient) : Prop :=
  forall key hd, handlers b !! key = Some hd -> handlers a !! key = Some hd.

(** The responses that end a call. *)
Definition is_terminal (r : IRawResponse) : bool :=
  match r with
  | RawPromiseSuccess _ _ | RawPromiseError _ _ | RawPromiseErrorObj _ _ => true
  | RawInitialize | RawEventFire _ _ => false
  end.

End HandlerVocab.

(** ** A peer and its connection *)

Module PeerVocab.
Import Codec IPC Peer ServerVocab ClientVocab.

(** The channel client engine of connection [i], if it has one. *)
Definition client_of (this : IPCServer) (i : nat)
  : option Client.ChannelClient :=
  match connections this !! i with
  | Some (Connected _ _ channelClient) => Some channelClient
  | _ => None
  end.

(** The connection [i] is given the frames [ms] in order: the first
    one is its first message. *)
Definition deliver (host_error : fault -> JSError) (this : IPCServer)
  (i : nat) (ms : list (list byte)) : IPCServer :=
  match ms with
  | [] => this
  | rawId :: rest =>
      run host_error this (FirstMessage i rawId :: map (Message i) rest)
  end.

(** Two peers announce the id [twin] one after the other. *)
Definition twins : IPCServer :=
  run example_host_error new_IPCServer
    [ClientConnect; ClientConnect;
     FirstMessage 0 (Buffer_from "twin"); FirstMessage 1 (Buffer_from "twin")].

End PeerVocab.

(** * Properties *)

(** ** [JSON.parse] reads back what [JSON.stringify] prints *)

Module JSONFacts.
Import JSON JSONVocab.

Lemma read_digits_uint d rest :
  num_follow rest -> read_digits (uint_chars d ++ rest) = (d, rest).
Proof.
  intros Hf. induction d; simpl; try (rewrite IHd; reflexivity).
  destruct rest as [|c r]; [reflexivity|].
  simpl. destruct Hf as [-> _]. reflexivity.
Qed.

Lemma to_uint_normal n :
  N.to_uint n = D0 Nil \/
  (N.to_uint n <> Nil /\ forall d, N.to_uint n <> D0 d).
Proof.
  pose proof (Unsigned.to_of (N.to_uint n)) as H.
  rewrite Unsigned.of_to in H.
  unfold unorm in H.
  destruct (nzhead (N.to_uint n)) eqn:E.
  - left. exact H.
  - exfalso. eapply nzhead_nonzero. exact E.
  - right. rewrite H. split; [discriminate|]. intros d; discriminate.
  - right. rewrite H. split; [discriminate|]. intros d; discriminate.
  - right. rewrite H. split; [discriminate|]. intros d; discriminate.
  - right. rewrite H. split; [discriminate|]. intros d; discriminate.
  - right. rewrite H. split; [discriminate|]. intros d; discriminate.
  - right. rewrite H. split; [discriminate|]. intros d; discriminate.
  - right. rewrite H. split; [discriminate|]. intros d; discriminate.
  - right. rewrite H. split; [discriminate|]. intros d; discriminate.
  - right. rewrite H. split; [discriminate|]. intros d; discriminate.
Qed.

Lemma parse_nat_print n rest :
  num_follow rest ->
  parse_nat (uint_chars (N.to_uint n) ++ rest) = Some (n, rest).
Proof.
  intros Hf. unfold parse_nat. rewrite read_digits_uint by assumption.
  assert (Hs : starts_fraction rest = false).
  { destruct rest; [reflexivity|]. apply Hf. }
  destruct (to_uint_normal n) as [E | [Hn Hz]].
  - rewrite E, Hs. f_equal. f_equal.
    rewrite <- E. apply Unsigned.of_to.
  - destruct (N.to_uint n) as [|d|d|d|d|d|d|d|d|d|d] eqn:E;
      try congruence;
      try (rewrite Hs; rewrite <- E, Unsigned.of_to; reflexivity).
    all: exfalso; eapply Hz; reflexivity.
Qed.

Lemma uint_chars_head n :
  exists c t, uint_chars (N.to_uint n) = c :: t /\ digit_of c <> None.
Proof.
  destruct (to_uint_normal n) as [E | [Hn _]].
  - rewrite E. simpl. eexists _, _. split; [reflexivity|]. discriminate.
  - destruct (N.to_uint n); try congruence; simpl;
      eexists _, _; (split; [reflexivity|]); discriminate.
Qed.

Lemma digit_plain c : digit_of c <> None -> plain_start c.
Proof.
  unfold digit_of, plain_start. intros H.
  repeat (destruct (Ascii.eqb c _) eqn:E in H;
          [ apply Ascii.eqb_eq in E; subst c; repeat split; reflexivity
          | clear E ]).
  congruence.
Qed.

Lemma parse_chars_quote c r :
  parse_chars (quote_char c ++ r) =
  match parse_chars r with
  | Some (cs, rest) => Some (c :: cs, rest)
  | None => None
  end.
Proof.
  destruct c as [[] [] [] [] [] [] [] []]; reflexivity.
Qed.

Lemma parse_chars_quoted cs rest :
  parse_chars (flat_map quote_char cs ++ dquote :: rest) = Some (cs, rest).
Proof.
  induction cs as [|c cs IH]; [reflexivity|].
  simpl flat_map. rewrite <- app_assoc, parse_chars_quote, IH. reflexivity.
Qed.

Lemma print_arr xs :
  print (VArr xs) = "["%char :: join ","%char (map print xs) ++ ["]"%char].
Proof. reflexivity. Qed.

Lemma print_obj fs :
  print (VObj fs) =
  "{"%char :: join ","%char (map print_member (members fs)) ++ ["}"%char].
Proof.
  simpl. f_equal. f_equal. f_equal.
  induction fs as [|[k x] fs IH]; [reflexivity|].
  simpl. destruct (is_undefined x); simpl; [exact IH | f_equal; exact IH].
Qed.

Lemma norm_obj fs :
  norm (VObj fs) = VObj (obj_of_members (map norm_member (members fs))).
Proof.
  simpl. f_equal. f_equal.
  induction fs as [|[k x] fs IH]; [reflexivity|].
  simpl. destruct (is_undefined x); simpl; [exact IH | f_equal; exact IH].
Qed.

Lemma weight_obj fs :
  weight (VObj fs)
  = S (list_sum (map (fun kv => S (weight (snd kv))) (members fs))).
Proof.
  simpl. f_equal. f_equal.
  induction fs as [|[k x] fs IH]; [reflexivity|].
  simpl. destruct (is_undefined x); simpl; [exact IH | f_equal; exact IH].
Qed.

Lemma print_start v :
  exists c t, print v = c :: t /\ plain_start c.
Proof.
  destruct v as [| |[]|n|s|b|xs|fs];
    try (eexists _, _; split; [reflexivity | repeat split; reflexivity]).
  unfold print, number_chars. destruct (n <? 0).
  - eexists _, _; split; [reflexivity | repeat split; reflexivity].
  - destruct (uint_chars_head (Z.to_N n)) as (c & t & E & Hd).
    exists c, t. split; [exact E | apply digit_plain, Hd].
Qed.

Lemma skip_ws_print v rest : skip_ws (print v ++ rest) = print v ++ rest.
Proof.
  destruct (print_start v) as (c & t & E & Hws & _).
  rewrite E. simpl. rewrite Hws. reflexivity.
Qed.

Lemma expect_close_print c v rest :
  c = "]"%char \/ c = "}"%char ->
  expect c (skip_ws (print v ++ rest)) = None.
Proof.
  intros Hc. rewrite skip_ws_print.
  destruct (print_start v) as (x & t & E & _ & H1 & H2).
  rewrite E. simpl. destruct Hc; subst c; [rewrite H1 | rewrite H2]; reflexivity.
Qed.

Lemma num_follow_sep c rest :
  c = ","%char \/ c = "]"%char \/ c = "}"%char -> num_follow (c :: rest).
Proof. intros [-> | [-> | ->]]; split; reflexivity. Qed.

Lemma reads_back_number n : reads_back (VNum n).
Proof.
  intros fuel rest Hw Hf. destruct fuel as [|f]; [simpl in Hw; lia|].
  pose proof (skip_ws_print (VNum n) rest) as Hs.
  simpl in Hs |- *. rewrite Hs. unfold number_chars.
  destruct (n <? 0) eqn:En.
  - simpl. rewrite parse_nat_print by assumption.
    do 3 f_equal. apply Z.ltb_lt in En. lia.
  - destruct (uint_chars_head (Z.to_N n)) as (c & t & E & Hd).
    assert (Hc : forall x, digit_of x = None -> Ascii.eqb c x = false).
    { intros x Hx. destruct (Ascii.eqb c x) eqn:Ec; [|reflexivity].
      apply Ascii.eqb_eq in Ec. congruence. }
    pose proof (parse_nat_print (Z.to_N n) rest Hf) as Hp.
    rewrite E in Hp |- *. simpl app in Hp |- *.
    cbv beta iota. rewrite !Hc by reflexivity. rewrite Hp.
    do 3 f_equal. apply Z.ltb_ge in En. lia.
Qed.

Lemma reads_back_string s : reads_back (VStr s).
Proof.
  intros fuel rest Hw Hf. destruct fuel as [|f]; [simpl in Hw; lia|].
  simpl. unfold quote. simpl. rewrite <- app_assoc. simpl.
  rewrite parse_chars_quoted. unfold text_of.
  rewrite string_of_list_ascii_of_string. reflexivity.
Qed.

Lemma parse_elements_print xs :
  Forall reads_back xs -> xs <> [] ->
  forall fuel rest,
    (list_sum (map (fun x => S (weight x)) xs) <= fuel)%nat ->
    parse_elements fuel (join ","%char (map print xs) ++ "]"%char :: rest)
    = Some (map norm xs, rest).
Proof.
  induction 1 as [|x xs Hx Hxs IH]; [congruence|].
  intros _ fuel rest Hw.
  simpl in Hw. destruct fuel as [|f]; [lia|].
  destruct xs as [|y ys].
  - simpl. rewrite Hx by (try lia; apply num_follow_sep; auto).
    reflexivity.
  - change (join ","%char (map print (x :: y :: ys)))
      with (print x ++ ","%char :: join ","%char (map print (y :: ys))).
    rewrite <- app_assoc. simpl app.
    cbn [parse_elements].
    rewrite Hx by (try lia; apply num_follow_sep; auto).
    cbn [skip_ws is_ws Ascii.eqb orb]. simpl.
    rewrite IH by (try discriminate; simpl in *; lia).
    reflexivity.
Qed.

Lemma expect_same c r : expect c (c :: r) = Some r.
Proof. simpl. rewrite Ascii.eqb_refl. reflexivity. Qed.

Lemma parse_members_print ms :
  Forall (fun kv => reads_back (snd kv)) ms -> ms <> [] ->
  forall fuel rest,
    (list_sum (map (fun kv => S (weight (snd kv))) ms) <= fuel)%nat ->
    parse_members fuel
      (join ","%char (map print_member ms) ++ "}"%char :: rest)
    = Some (map norm_member ms, rest).
Proof.
  induction 1 as [|[k x] fs Hx Hfs IH]; [congruence|].
  intros _ fuel rest Hw.
  simpl in Hw, Hx. destruct fuel as [|f]; [lia|].
  assert (Hkey : forall tail,
    parse_members (S f) (print_member (k, x) ++ tail) =
    match parse_value f (print x ++ tail) with
    | Some (v, r3) =>
        match skip_ws r3 with
        | c :: r4 =>
            if Ascii.eqb c ","%char then
              match parse_members f r4 with
              | Some (ms, r5) => Some ((k, v) :: ms, r5)
              | None => None
              end
            else if Ascii.eqb c "}"%char then Some ([(k, v)], r4)
            else None
        | [] => None
        end
    | None => None
    end).
  { intros tail. unfold print_member, quote. simpl app.
    rewrite <- !app_assoc. simpl app.
    cbn [parse_members skip_ws is_ws expect].
    change (is_ws dquote) with false. cbv iota.
    rewrite expect_same, parse_chars_quoted.
    cbn [skip_ws is_ws expect]. simpl.
    unfold text_of. rewrite string_of_list_ascii_of_string. reflexivity. }
  destruct fs as [|[k' y] ys].
  - simpl join. rewrite Hkey.
    rewrite Hx by (try lia; apply num_follow_sep; auto).
    reflexivity.
  - change (join ","%char (map print_member ((k, x) :: (k', y) :: ys)))
      with (print_member (k, x) ++ ","%char ::
            join ","%char (map print_member ((k', y) :: ys))).
    rewrite <- app_assoc. rewrite Hkey. simpl app.
    rewrite Hx by (try lia; apply num_follow_sep; auto).
    cbn [skip_ws is_ws Ascii.eqb orb]. simpl.
    rewrite IH by (try discriminate; simpl in *; lia).
    reflexivity.
Qed.

Lemma join_head sep p ps : exists t, join sep (p :: ps) = p ++ t.
Proof.
  destruct ps; eexists; [rewrite app_nil_r|]; reflexivity.
Qed.

Lemma parse_value_arr f r :
  parse_value (S f) ("["%char :: r) =
  match expect "]"%char (skip_ws r) with
  | Some r' => Some (VArr [], r')
  | None =>
      match parse_elements f r with
      | Some (xs, r') => Some (VArr xs, r')
      | None => None
      end
  end.
Proof. reflexivity. Qed.

Lemma parse_value_obj f r :
  parse_value (S f) ("{"%char :: r) =
  match expect "}"%char (skip_ws r) with
  | Some r' => Some (VObj [], r')
  | None =>
      match parse_members f r with
      | Some (ms, r') => Some (VObj (obj_of_members ms), r')
      | None => None
      end
  end.
Proof. reflexivity. Qed.

(** An array reads back whatever follows it. *)
Lemma reads_back_arr_any xs :
  Forall reads_back xs ->
  forall fuel rest,
    (weight (VArr xs) <= fuel)%nat ->
    parse_value fuel (print (VArr xs) ++ rest) = Some (norm (VArr xs), rest).
Proof.
  intros IH fuel rest Hw. rewrite print_arr.
  cbn [weight] in Hw. destruct fuel as [|f]; [lia|].
  destruct xs as [|x xs']; [reflexivity|].
  rewrite <- app_comm_cons, <- app_assoc, parse_value_arr.
  assert (Hne : expect "]"%char
                  (skip_ws (join ","%char (map print (x :: xs'))
                            ++ ["]"%char] ++ rest)) = None).
  { simpl map.
    destruct (join_head ","%char (print x) (map print xs')) as [t ->].
    rewrite <- app_assoc. apply expect_close_print. auto. }
  rewrite Hne. change (["]"%char] ++ rest) with ("]"%char :: rest).
  rewrite parse_elements_print by (try assumption; try discriminate; lia).
  reflexivity.
Qed.

Lemma reads_back_arr xs : Forall reads_back xs -> reads_back (VArr xs).
Proof. intros IH fuel rest Hw _. apply reads_back_arr_any; assumption. Qed.

Lemma reads_back_obj fs :
  Forall (fun kv => reads_back (snd kv)) fs -> reads_back (VObj fs).
Proof.
  intros IH fuel rest Hw _.
  rewrite print_obj, norm_obj. rewrite weight_obj in Hw.
  destruct fuel as [|f]; [lia|].
  assert (IH' : Forall (fun kv => reads_back (snd kv)) (members fs)).
  { rewrite List.Forall_forall in IH |- *. intros kv Hin.
    apply IH. apply List.filter_In in Hin. apply Hin. }
  destruct (members fs) as [|[k x] ms]; [reflexivity|].
  rewrite <- app_comm_cons, <- app_assoc, parse_value_obj.
  assert (Hne : expect "}"%char
                  (skip_ws (join ","%char (map print_member ((k, x) :: ms))
                            ++ ["}"%char] ++ rest)) = None).
  { simpl map.
    destruct (join_head ","%char (print_member (k, x)) (map print_member ms))
      as [t ->].
    reflexivity. }
  rewrite Hne. change (["}"%char] ++ rest) with ("}"%char :: rest).
  rewrite parse_members_print by (try assumption; try discriminate; lia).
  reflexivity.
Qed.

Lemma print_buffer b : print (VBuf b) = print (json_of_buffer b).
Proof.
  unfold json_of_buffer. rewrite print_obj. cbn [members List.filter snd is_undefined negb].
  unfold print_member at 1. cbn [map fst snd join].
  unfold print_member. cbn [fst snd]. rewrite print_arr, map_map.
  cbn [print]. unfold text_of. cbn [list_ascii_of_string].
  repeat (rewrite <- ?app_assoc, <- ?app_comm_cons). reflexivity.
Qed.

Lemma obj_set_fresh k v fs :
  k ∉ map fst fs -> obj_set k v fs = fs ++ [(k, v)].
Proof.
  induction fs as [|[k' v'] fs IH]; intros Hk; [reflexivity|].
  simpl in *. apply not_elem_of_cons in Hk as [Hne Hk].
  destruct (String.eqb k' k) eqn:E.
  - apply String.eqb_eq in E. congruence.
  - rewrite IH by assumption. reflexivity.
Qed.

Lemma obj_of_members_nodup_gen ms acc :
  NoDup (map fst (acc ++ ms)) ->
  fold_left (fun a kv => obj_set (fst kv) (snd kv) a) ms acc = acc ++ ms.
Proof.
  revert acc. induction ms as [|[k v] ms IH]; intros acc Hnd.
  - simpl. rewrite app_nil_r. reflexivity.
  - simpl. rewrite obj_set_fresh.
    + rewrite IH; rewrite <- app_assoc; [reflexivity | exact Hnd].
    + rewrite map_app in Hnd. apply NoDup_app in Hnd as (_ & Hd & _).
      intros Hin. apply (Hd k Hin). simpl. left.
Qed.

Lemma obj_of_members_nodup ms :
  NoDup (map fst ms) -> obj_of_members ms = ms.
Proof. intros H. apply (obj_of_members_nodup_gen ms []). exact H. Qed.

Lemma reads_back_buffer b : reads_back (VBuf b).
Proof.
  intros fuel rest Hw Hf. rewrite print_buffer.
  assert (Hn : norm (VBuf b) = norm (json_of_buffer b)).
  { unfold json_of_buffer. rewrite norm_obj.
    cbn [members List.filter snd is_undefined negb map].
    unfold norm_member. cbn [fst snd norm]. rewrite map_map. cbn [norm].
    reflexivity. }
  rewrite Hn. apply reads_back_obj; [|cbn [weight] in Hw|exact Hf].
  - repeat constructor; cbn [snd].
    + apply reads_back_string.
    + apply reads_back_arr. apply List.Forall_forall. intros x Hx.
      apply List.in_map_iff in Hx as (y & <- & _). apply reads_back_number.
  - unfold json_of_buffer. rewrite weight_obj.
    cbn [members List.filter snd is_undefined negb map weight list_sum].
    rewrite map_map. cbn [weight].
    assert (list_sum (map (fun _ : byte => 2%nat) b) = (2 * length b)%nat).
    { clear. induction b as [|x b IHb]; [reflexivity|].
      simpl. rewrite IHb. lia. }
    simpl list_sum. simpl list_sum in Hw. lia.
Qed.

Theorem parse_print v : reads_back v.
Proof.
  induction v as [| |b|n|s|b|xs IH|fs IH] using value_ind.
  - intros [|f] rest Hw _; [simpl in Hw; lia | reflexivity].
  - intros [|f] rest Hw _; [simpl in Hw; lia | reflexivity].
  - intros [|f] rest Hw _; [simpl in Hw; lia | destruct b; reflexivity].
  - apply reads_back_number.
  - apply reads_back_string.
  - apply reads_back_buffer.
  - apply reads_back_arr, IH.
  - apply reads_back_obj, IH.
Qed.

Lemma parse_print_arr xs fuel rest :
  (weight (VArr xs) <= fuel)%nat ->
  parse_value fuel (print (VArr xs) ++ rest) = Some (norm (VArr xs), rest).
Proof.
  apply reads_back_arr_any. apply List.Forall_forall. intros x _.
  apply parse_print.
Qed.

Lemma length_join_ge sep parts :
  (list_sum (map (fun p => S (length p)) parts) <= S (length (join sep parts)))%nat.
Proof.
  induction parts as [|p ps IH]; [simpl; lia|].
  destruct ps as [|q qs]; [simpl; lia|].
  change (join sep (p :: q :: qs)) with (p ++ sep :: join sep (q :: qs)).
  rewrite length_app. simpl in *. lia.
Qed.

Lemma list_sum_le {A} (f g : A -> nat) l :
  Forall (fun x => f x <= g x)%nat l ->
  (list_sum (map f l) <= list_sum (map g l))%nat.
Proof. induction 1; simpl; lia. Qed.

Lemma print_nonempty v : (1 <= length (print v))%nat.
Proof.
  destruct (print_start v) as (c & t & E & _). rewrite E. simpl. lia.
Qed.

Lemma weight_le_print v : (weight v <= length (print v))%nat.
Proof.
  induction v as [| |b|n|s|b|xs IH|fs IH] using value_ind;
    try (cbn [weight]; apply print_nonempty).
  - rewrite print_buffer. unfold json_of_buffer. rewrite print_obj.
    cbn [members List.filter snd is_undefined negb map].
    unfold print_member. cbn [fst snd join]. rewrite print_arr.
    cbn [weight]. rewrite map_map.
    pose proof (length_join_ge ","%char
                  (map (fun x => print (VNum (Z.of_N (Byte.to_N x)))) b)) as Hj.
    rewrite map_map in Hj.
    assert (2 * length b
            <= list_sum (map (fun x => S (length (print (VNum (Z.of_N (Byte.to_N x)))))) b))%nat.
    { clear Hj. induction b as [|x b IHb]; [simpl; lia|].
      cbn [map length].
      change (list_sum (?a :: ?l)) with (a + list_sum l)%nat.
      pose proof (print_nonempty (VNum (Z.of_N (Byte.to_N x)))). lia. }
    unfold quote, text_of. cbn [list_ascii_of_string flat_map].
    repeat (rewrite ?length_app; cbn [length]).
    repeat (rewrite ?length_app; cbn [length app]). lia.
  - rewrite print_arr. cbn [weight length].
    rewrite length_app. cbn [length].
    pose proof (length_join_ge ","%char (map print xs)) as Hj.
    rewrite map_map in Hj.
    assert (list_sum (map (fun x => S (weight x)) xs)
            <= list_sum (map (fun x => S (length (print x))) xs))%nat.
    { apply list_sum_le. eapply Forall_impl; [exact IH|].
      simpl. intros; lia. }
    lia.
  - rewrite print_obj, weight_obj. cbn [length].
    rewrite length_app. cbn [length].
    pose proof (length_join_ge ","%char (map print_member (members fs))) as Hj.
    rewrite map_map in Hj.
    assert (list_sum (map (fun kv => S (weight (snd kv))) (members fs))
            <= list_sum (map (fun kv => S (length (print_member kv))) (members fs)))%nat.
    { apply list_sum_le. apply List.Forall_forall. intros kv Hin.
      apply List.filter_In in Hin as [Hin _].
      rewrite List.Forall_forall in IH. specialize (IH kv Hin).
      unfold print_member. rewrite length_app. cbn [length]. lia. }
    lia.
Qed.

(** [JSON.parse] reads the text of any value back as its [norm]. *)
Theorem parse_text v : parse (text_string v) = Some (norm v).
Proof.
  unfold parse, text_string, text_of.
  rewrite list_ascii_of_string_of_list_ascii.
  pose proof (parse_print v (S (length (print v))) []) as Hp.
  rewrite app_nil_r in Hp. rewrite Hp.
  - reflexivity.
  - pose proof (weight_le_print v). lia.
  - exact I.
Qed.

Lemma norm_clean v : clean v = true -> norm v = v.
Proof.
  induction v as [| |b|n|s|b|xs IH|fs IH] using value_ind; intros Hc;
    try discriminate; try reflexivity.
  - cbn [norm clean] in *. f_equal.
    induction IH as [|x xs Hx Hxs IHxs]; [reflexivity|].
    simpl in Hc. apply andb_prop in Hc as [Hcx Hcxs].
    simpl. f_equal; auto.
  - rewrite norm_obj. cbn [clean] in Hc. apply andb_prop in Hc as [Hnd Hc].
    apply bool_decide_eq_true in Hnd.
    assert (Hm : map norm_member (members fs) = fs).
    { clear Hnd. induction IH as [|[k x] fs' Hx Hfs IHfs]; [reflexivity|].
      simpl in Hc. apply andb_prop in Hc as [Hcx Hcfs].
      unfold members. simpl List.filter.
      destruct x; try discriminate; simpl; unfold norm_member at 1; simpl;
        f_equal; try (apply IHfs; assumption);
        try (f_equal; apply (Hx Hcx)). }
    rewrite Hm. rewrite obj_of_members_nodup by assumption. reflexivity.
Qed.

Theorem parse_stringify v s :
  clean v = true -> stringify v = Some s -> parse s = Some v.
Proof.
  intros Hc Hs.
  assert (s = text_string v) as ->.
  { destruct v; try discriminate; injection Hs as <-; reflexivity. }
  rewrite parse_text, norm_clean by assumption. reflexivity.
Qed.

(** A value that reads back as a number is that number. *)
Lemma norm_is_num v n : JSON.norm v = VNum n -> v = VNum n.
Proof. destruct v; simpl; intros H; try discriminate; exact H. Qed.

End JSONFacts.

(** ** [deserialize] reads back what [serialize] builds *)

Module CodecFacts.
Import Codec JSONVocab CodecVocab JSONFacts.

Lemma Z_of_byte_of_Z z : Z_of_byte (byte_of_Z z) = z mod 256.
Proof.
  unfold Z_of_byte, byte_of_Z.
  change 255 with (Z.ones 8). rewrite Z.land_ones by lia.
  change (2 ^ 8) with 256.
  assert (Hr : 0 <= z mod 256 < 256) by (apply Z.mod_pos_bound; lia).
  destruct (Byte.of_N (Z.to_N (z mod 256))) as [b|] eqn:E.
  - apply Byte.to_of_N in E. rewrite E. lia.
  - apply Byte.of_N_None_iff in E. lia.
Qed.

Lemma read_write n rest :
  0 <= n < 2 ^ 32 -> readUInt32BE (writeUInt32BE n ++ rest) = Some n.
Proof.
  intros Hn. cbv [writeUInt32BE readUInt32BE app].
  rewrite !Z_of_byte_of_Z, !Z.shiftr_div_pow2 by lia.
  f_equal.
  change (2 ^ 24) with 16777216. change (2 ^ 16) with 65536.
  change (2 ^ 8) with 256. change (2 ^ 32) with 4294967296 in Hn.
  Z.to_euclidean_division_equations. lia.
Qed.

Lemma length_write n : length (writeUInt32BE n) = 4%nat.
Proof. reflexivity. Qed.

Lemma toString_from s : Buffer_toString (Buffer_from s) = s.
Proof. apply string_of_list_byte_of_string. Qed.

Lemma from_toString b : Buffer_from (Buffer_toString b) = b.
Proof. apply list_byte_of_string_of_list_byte. Qed.

Lemma serialize_parts H V :
  serialize H V =
  writeUInt32BE (byteLength (header_buffer H V))
    ++ header_buffer H V ++ fst (serializeBody V).
Proof.
  unfold serialize, header_buffer, header_json, body_tag.
  destruct (serializeBody V) as [bodyBuffer bodyType]. reflexivity.
Qed.

Lemma deserializeBody_serializeBody V :
  deserializeBody (fst (serializeBody V)) (VNum (body_tag V))
  = Some (norm_body V).
Proof.
  unfold body_tag.
  destruct V; cbn [serializeBody fst snd BodyType_value deserializeBody norm_body];
    rewrite ?toString_from, ?parse_text; reflexivity.
Qed.

Lemma slice_frame (w h b : list byte) :
  length w = 4%nat -> slice (w ++ h ++ b) 4 (4 + Z.of_nat (length h)) = h.
Proof.
  intros Hw. unfold slice.
  replace (Z.to_nat (4 + Z.of_nat (length h) - 4)) with (length h) by lia.
  change (Z.to_nat 4) with 4%nat. rewrite <- Hw.
  rewrite drop_app_length. apply take_app_length.
Qed.

Lemma slice_from_frame (w h b : list byte) :
  length w = 4%nat ->
  slice_from (w ++ h ++ b) (4 + Z.of_nat (length h)) = b.
Proof.
  intros Hw. unfold slice_from.
  replace (Z.to_nat (4 + Z.of_nat (length h))) with (length (w ++ h)).
  - rewrite app_assoc. apply drop_app_length.
  - rewrite length_app, Hw. lia.
Qed.

(** Decoding a frame gives back the header and the body, up to what
    JSON text preserves. *)
Theorem deserialize_serialize H V :
  byteLength (header_buffer H V) < 2 ^ 32 ->
  deserialize (serialize H V) = Some (JSON.norm H, norm_body V).
Proof.
  intros Hfit. rewrite serialize_parts. unfold deserialize.
  assert (Hlen : 0 <= byteLength (header_buffer H V) < 2 ^ 32).
  { unfold byteLength in *. lia. }
  rewrite read_write by exact Hlen.
  unfold byteLength at 2 3.
  rewrite slice_frame, slice_from_frame by apply length_write.
  unfold header_buffer at 1.
  rewrite toString_from, parse_text.
  cbn [JSON.norm header_json map iterate nth].
  rewrite deserializeBody_serializeBody. reflexivity.
Qed.

Lemma header_buffer_chars H V :
  map ascii_of_byte (header_buffer H V) = JSON.print (header_json H V).
Proof.
  unfold header_buffer, Buffer_from, JSON.text_string, list_byte_of_string.
  rewrite list_ascii_of_string_of_list_ascii, map_map.
  rewrite <- (map_id (JSON.print (header_json H V))) at 2.
  apply map_ext. intros a. apply ascii_of_byte_of_ascii.
Qed.

(** Two frames with the same bytes have the same header, up to what
    JSON text preserves, and the same body tag. *)
Lemma serialize_inj H1 V1 H2 V2 :
  serialize H1 V1 = serialize H2 V2 ->
  JSON.norm H1 = JSON.norm H2 /\ body_tag V1 = body_tag V2.
Proof.
  rewrite !serialize_parts. intros E.
  apply app_inj_1 in E as [_ E]; [|reflexivity].
  apply (f_equal (map ascii_of_byte)) in E.
  rewrite !map_app, !header_buffer_chars in E.
  set (fuel := (JSON.weight (header_json H1 V1)
                + JSON.weight (header_json H2 V2))%nat).
  pose proof (parse_print_arr [H1; VNum (body_tag V1)] fuel
                (map ascii_of_byte (fst (serializeBody V1)))) as P1.
  pose proof (parse_print_arr [H2; VNum (body_tag V2)] fuel
                (map ascii_of_byte (fst (serializeBody V2)))) as P2.
  unfold header_json in *.
  rewrite E in P1. rewrite P2 in P1 by (subst fuel; lia).
  specialize (P1 ltac:(subst fuel; lia)).
  cbn [JSON.norm map] in P1. injection P1 as E1 E2 E3.
  split; congruence.
Qed.

End CodecFacts.

(** ** Round trip and header JSON *)

Module FrameFacts.
Import Codec JSONVocab CodecVocab ServerVocab ClientVocab FrameVocab.
Import JSONFacts CodecFacts.

Lemma header_text_serialize H V :
  byteLength (header_buffer H V) < 2 ^ 32 ->
  header_text (serialize H V) = Some (JSON.text_string (header_json H V)).
Proof.
  intros Hfit. rewrite serialize_parts. unfold header_text.
  assert (Hlen : 0 <= byteLength (header_buffer H V) < 2 ^ 32).
  { unfold byteLength in *. lia. }
  rewrite read_write by exact Hlen.
  unfold byteLength.
  rewrite slice_frame by apply length_write.
  unfold header_buffer. rewrite toString_from. reflexivity.
Qed.




(** C2 as stated fails: the header JSON is not one flat array. The
    header JSON of the Initialize frame is the array of the header
    array [[200]] and the body tag 0, that of a Promise request the
    array of [[100, id, channelName, name]] and the body tag. *)
Lemma C2_counterexample :
  header_text Initialize_frame = Some "[[200],0]"%string
  /\ header_value Initialize_frame
     = Some (VArr [VArr [VNum 200]; VNum 0])
  /\ header_value Initialize_frame <> Some (VArr [VNum 200; VNum 0])
  /\ header_value
       (request_frame (RawPromise (VNum 7) (VStr "channel") (VStr "ping")
                         (VStr "arg")))
     = Some (VArr [VArr [VNum 100; VNum 7; VStr "channel"; VStr "ping"];
                   VNum 1])
  /\ header_value
       (request_frame (RawPromise (VNum 7) (VStr "channel") (VStr "ping")
                         (VStr "arg")))
     <> Some (VArr [VNum 100; VNum 7; VStr "channel"; VStr "ping"; VNum 1]).
Proof.
  assert (E1 : header_value Initialize_frame
               = Some (VArr [VArr [VNum 200]; VNum 0]))
    by (vm_compute; reflexivity).
  assert (E2 : header_value
                 (request_frame (RawPromise (VNum 7) (VStr "channel")
                                   (VStr "ping") (VStr "arg")))
               = Some (VArr [VArr [VNum 100; VNum 7; VStr "channel";
                                   VStr "ping"]; VNum 1]))
    by (vm_compute; reflexivity).
  split; [vm_compute; reflexivity|].
  split; [exact E1|]. split; [rewrite E1; discriminate|].
  split; [exact E2|]. rewrite E2. discriminate.
Defined.

(** C2, amended: the header JSON of a frame is an array of two
    elements, the header array and then the body-type tag. A Promise
    request is sent as the frame of the header
    [[100, id, channelName, name]] and its argument, the Initialize
    response as the frame of the header [[200]] and no body, whose tag
    is 0. *)
Theorem C2_header_json_nested (H V : value) :
  byteLength (header_buffer H V) < 2 ^ 32 ->
  header_text (serialize H V)
  = Some (JSON.text_string (VArr [H; VNum (body_tag V)]))
  /\ header_value (serialize H V)
     = Some (VArr [JSON.norm H; VNum (body_tag V)])
  /\ (forall this id channelName name arg,
        Client.sent
          (Client.sendRequest this (RawPromise id channelName name arg))
        = Client.sent this
            ++ [serialize
                  (VArr [VNum RequestType_Promise; id; channelName; name])
                  arg])
  /\ Server.sent Server.new_ChannelServer
     = [serialize (VArr [VNum ResponseType_Initialize]) VUndefined]
  /\ body_tag VUndefined = 0.
Proof.
  intros Hfit.
  pose proof (header_text_serialize H V Hfit) as E.
  split; [exact E|]. split.
  - unfold header_value. rewrite E. apply parse_text.
  - repeat split.
Qed.

(** The Initialize frame. *)
Lemma C2_header_json_nested_witness :
  byteLength (header_buffer (VArr [VNum ResponseType_Initialize]) VUndefined)
  < 2 ^ 32
  /\ header_value (serialize (VArr [VNum ResponseType_Initialize]) VUndefined)
     = Some (VArr [JSON.norm (VArr [VNum ResponseType_Initialize]);
                   VNum (body_tag VUndefined)]).
Proof.
  split; [vm_compute; reflexivity|].
  apply (C2_header_json_nested (VArr [VNum ResponseType_Initialize])
           VUndefined).
  vm_compute. reflexivity.
Defined.

End FrameFacts.

(** ** The channel server *)

Module ServerFacts.
Import Codec Server CodecVocab ServerVocab ClientVocab ExampleVocab.
Import JSONFacts CodecFacts.

Section Facts.
Variable host_error : fault -> JSError.

Lemma sendResponse_frame st r :
  sendResponse st r = sendRawMessage st (response_frame r).
Proof. destruct r; reflexivity. Qed.

Lemma sent_sendResponse st r :
  sent (sendResponse st r) = sent st ++ [response_frame r].
Proof. rewrite sendResponse_frame. reflexivity. Qed.

(** *** What the callbacks of a call do *)

(** The callbacks do nothing, or only mark the call, or mark it, send
    its response and delete the handle of its id. *)
Lemma callbacks_cases st pid after s :
  (promises st !! pid = None /\ callbacks st pid after s = st)
  \/ exists p,
       promises st !! pid = Some p
       /\ ((response_of (p_id p) s = None
            /\ callbacks st pid after s = set_status pid after st)
           \/ exists r,
                response_of (p_id p) s = Some r
                /\ callbacks st pid after s
                   = activeRequests_delete
                       (sendResponse (set_status pid after st) r)
                       (ToString (p_id p))).
Proof.
  unfold callbacks. destruct (promises st !! pid) as [p|]; [|auto].
  right. exists p. split; [reflexivity|].
  destruct (response_of (p_id p) s) as [r|]; eauto.
Qed.

Lemma promises_callbacks st pid after s :
  promises (callbacks st pid after s) = promises (set_status pid after st).
Proof.
  destruct (callbacks_cases st pid after s)
    as [[Hn ->] | (p & Hp & [[_ ->] | (r & _ & ->)])].
  - unfold set_status. cbn [promises set_promises]. rewrite Hn. reflexivity.
  - reflexivity.
  - rewrite sendResponse_frame. reflexivity.
Qed.

Lemma protocolListener_callbacks st pid after s :
  protocolListener (callbacks st pid after s) = protocolListener st.
Proof.
  destruct (callbacks_cases st pid after s)
    as [[_ ->] | (p & _ & [[_ ->] | (r & _ & ->)])];
    rewrite ?sendResponse_frame; reflexivity.
Qed.

Lemma listeners_callbacks st pid after s :
  listeners (callbacks st pid after s) = listeners st.
Proof.
  destruct (callbacks_cases st pid after s)
    as [[_ ->] | (p & _ & [[_ ->] | (r & _ & ->)])];
    rewrite ?sendResponse_frame; reflexivity.
Qed.

Lemma channels_callbacks st pid after s :
  channels (callbacks st pid after s) = channels st.
Proof.
  destruct (callbacks_cases st pid after s)
    as [[_ ->] | (p & _ & [[_ ->] | (r & _ & ->)])];
    rewrite ?sendResponse_frame; reflexivity.
Qed.

(** The handles after the callbacks of a call: those before, but
    possibly for the one of its id. *)
Lemma activeRequests_callbacks st pid after s :
  activeRequests (callbacks st pid after s) = activeRequests st
  \/ exists p,
       promises st !! pid = Some p
       /\ activeRequests (callbacks st pid after s)
          = delete (ToString (p_id p)) (activeRequests st).
Proof.
  destruct (callbacks_cases st pid after s)
    as [[_ ->] | (p & Hp & [[_ ->] | (r & _ & ->)])]; [auto | auto |].
  right. exists p. split; [exact Hp|].
  rewrite sendResponse_frame. reflexivity.
Qed.

(** What the callbacks of a call hand to the transport: nothing, or
    one answer for the id of the call. *)
Lemma sent_callbacks st pid after s :
  sent (callbacks st pid after s) = sent st
  \/ exists p r,
       promises st !! pid = Some p
       /\ response_of (p_id p) s = Some r
       /\ sent (callbacks st pid after s) = sent st ++ [response_frame r].
Proof.
  destruct (callbacks_cases st pid after s)
    as [[_ ->] | (p & Hp & [[_ ->] | (r & Hr & ->)])]; [auto | auto |].
  right. exists p, r. split; [exact Hp|]. split; [exact Hr|].
  cbn [sent activeRequests_delete set_keys_created set_activeRequests].
  rewrite sent_sendResponse. reflexivity.
Qed.

Lemma answer_later id buf : answer_for id buf -> later_response buf.
Proof.
  intros (s & r & Hr & ->). unfold response_of in Hr.
  destruct s as [data|[e|data]].
  - injection Hr as <-. exists id, data. auto.
  - destruct (stack_lines (stack e)); [|discriminate].
    injection Hr as <-. eexists id, _. auto.
  - injection Hr as <-. exists id, data. auto.
Qed.

(** An answer that is a terminal response for a number is an answer
    for the id that is this number. *)
Lemma answer_terminal id n buf :
  answer_for id buf -> terminal_for (VNum n) buf -> id = VNum n.
Proof.
  intros (s & r & Hr & ->) (data' & Ht).
  assert (Hid : exists data,
             r = RawPromiseSuccess id data
             \/ r = RawPromiseError id data
             \/ r = RawPromiseErrorObj id data).
  { unfold response_of in Hr. destruct s as [data|[e|data]].
    - injection Hr as <-. eauto.
    - destruct (stack_lines (stack e)); [|discriminate].
      injection Hr as <-. eauto.
    - injection Hr as <-. eauto. }
  destruct Hid as (data & Hr').
  assert (JSON.norm id = VNum n) as Hn.
  { destruct Hr' as [-> | [-> | ->]];
      destruct Ht as [Ht | [Ht | Ht]];
      cbn [response_frame] in Ht;
      apply serialize_inj in Ht as [Ht _];
      cbn [JSON.norm map] in Ht; congruence. }
  apply norm_is_num in Hn. exact Hn.
Qed.

Lemma fired_not_terminal id data n :
  ~ terminal_for (VNum n) (response_frame (RawEventFire id data)).
Proof.
  intros (data' & Ht).
  destruct Ht as [Ht | [Ht | Ht]];
    cbn [response_frame] in Ht;
    apply serialize_inj in Ht as [Ht _];
    cbn [JSON.norm map] in Ht; discriminate.
Qed.

Lemma later_not_Initialize buf :
  later_response buf -> ~ frame_of_type ResponseType_Initialize buf.
Proof.
  intros (id & data & H) (rest & body & E).
  destruct H as [H | [H | [H | H]]]; rewrite H in E; simpl in E;
    apply serialize_inj in E as [E _]; simpl in E; discriminate.
Qed.

Lemma request_decoded st m r :
  decode_request m = Some r ->
  onRawMessage host_error st m = onRequest host_error st r.
Proof.
  unfold decode_request, onRawMessage.
  destruct (deserialize m) as [[header body]|]; [|discriminate].
  destruct (get_index header 0) as [type|]; [|discriminate].
  intros ->. reflexivity.
Qed.

Lemma request_undecoded st m :
  decode_request m = None ->
  state_of (onRawMessage host_error st m) = st.
Proof.
  unfold decode_request, onRawMessage.
  destruct (deserialize m) as [[header body]|]; [|reflexivity].
  destruct (get_index header 0) as [type|]; [|reflexivity].
  intros ->. reflexivity.
Qed.

(** *** Promises in progress *)

Lemma waiting_promises a b pid id :
  promises a = promises b -> waiting_at a pid id -> waiting_at b pid id.
Proof. intros E (p & Hl & H). exists p. rewrite <- E. auto. Qed.

Lemma waiting_set_status st pid s pid' id :
  s <> Waiting ->
  waiting_at (set_status pid s st) pid' id ->
  waiting_at st pid' id /\ pid' <> pid.
Proof.
  intros Hs (p' & Hl & Hw & Hid). unfold set_status in Hl.
  cbn [promises set_promises] in Hl.
  destruct (promises st !! pid) as [p|] eqn:Ep.
  - destruct (decide (pid' = pid)) as [->|Hne].
    + rewrite list_lookup_insert_eq in Hl by (eapply lookup_lt_Some; eauto).
      injection Hl as <-. simpl in Hw. congruence.
    + rewrite list_lookup_insert_ne in Hl by congruence.
      split; [exists p'; auto | exact Hne].
  - split; [exists p'; auto|]. intros ->. congruence.
Qed.

Lemma waiting_callbacks st pid after s pid' id :
  after <> Waiting ->
  waiting_at (callbacks st pid after s) pid' id ->
  waiting_at st pid' id /\ pid' <> pid.
Proof.
  intros Ha H. apply (waiting_set_status st pid after); [exact Ha|].
  eapply waiting_promises; [|exact H]. apply promises_callbacks.
Qed.

Lemma waiting_dispose_handle st d pid id :
  waiting_at (dispose_handle host_error st d) pid id ->
  waiting_at st pid id /\ d <> CancelPromise pid.
Proof.
  destruct d as [pid0|sid]; cbn [dispose_handle].
  - destruct (promises st !! pid0) as [p|] eqn:Ep.
    + destruct (p_status p) eqn:Es.
      * intros H. apply waiting_callbacks in H as [H Hne]; [|discriminate].
        split; [exact H | congruence].
      * intros H. split; [exact H|]. intros [= ->].
        destruct H as (p' & Hl & Hw & _). congruence.
      * intros H. split; [exact H|]. intros [= ->].
        destruct H as (p' & Hl & Hw & _). congruence.
    + intros H. split; [exact H|]. intros [= ->].
      destruct H as (p' & Hl & _). congruence.
  - intros H. split; [exact H | discriminate].
Qed.

Lemma waiting_disposeActiveRequest st id0 pid id :
  waiting_at (disposeActiveRequest host_error st id0) pid id ->
  waiting_at st pid id.
Proof.
  unfold disposeActiveRequest.
  destruct (activeRequests st !! ToString id0) as [d|]; [|auto].
  intros H. eapply (waiting_dispose_handle st d).
  eapply waiting_promises; [|exact H]. reflexivity.
Qed.

(** The handles of the keys [ks], disposed one after the other. *)
Lemma waiting_fold_dispose ks st pid id :
  waiting_at
    (fold_left
       (fun acc key =>
          match activeRequests acc !! key with
          | Some disposable => dispose_handle host_error acc disposable
          | None => acc
          end) ks st) pid id ->
  waiting_at st pid id.
Proof.
  revert st. induction ks as [|k ks IH]; intros st H; [exact H|].
  cbn [fold_left] in H. apply IH in H.
  destruct (activeRequests st !! k) as [d|]; [|exact H].
  apply waiting_dispose_handle in H. apply H.
Qed.

(** A promise in progress after a step was in progress before it, or
    the step is the arrival of the Promise request that started it. *)
Lemma waiting_step st e pid id :
  waiting_at (step host_error st e) pid id ->
  waiting_at st pid id
  \/ (exists m c n a,
        e = Receive m /\ protocolListener st = true
        /\ decode_request m = Some (RawPromise id c n a)
        /\ pid = length (promises st)).
Proof.
  destruct e as [m|pid0 s|sid data|c ch|]; cbn [step].
  - destruct (protocolListener st) eqn:El; [|auto].
    destruct (decode_request m) as [r|] eqn:Ed.
    + rewrite (request_decoded st m r Ed).
      destruct r as [id0 c n a|id0|id0 c n a|id0]; cbn [onRequest state_of].
      * intros H. unfold onPromise, promise_then in H.
        set (fate := match channels st !! ToString c with
                     | Some channel =>
                         match call channel n a with
                         | CallThrows err => Some (Rejected err)
                         | CallReturns fate => fate
                         end
                     | None => _
                     end) in H.
        set (st1 := set_promises _ st) in H.
        assert (H1 : waiting_at st1 pid id).
        { destruct fate as [s|].
          - eapply waiting_promises in H; [|reflexivity].
            apply waiting_callbacks in H; [apply H | discriminate].
          - eapply waiting_promises; [|exact H]. reflexivity. }
        destruct H1 as (p & Hl & Hw & Hid).
        unfold st1 in Hl. cbn [promises set_promises] in Hl.
        apply lookup_app_Some in Hl as [Hl | [Hge Hl]].
        -- left. exists p. auto.
        -- right. destruct (pid - length (promises st))%nat eqn:En;
             [|destruct n0; discriminate].
           injection Hl as <-. simpl in Hid. subst id0.
           exists m, c, n, a. repeat split; auto. lia.
      * intros H. left. eapply waiting_disposeActiveRequest, H.
      * unfold onEventListen.
        destruct (channels st !! ToString c) as [ch|]; [|auto].
        destruct (listen ch n a); auto.
      * intros H. left. eapply waiting_disposeActiveRequest, H.
    + rewrite request_undecoded by exact Ed. auto.
  - unfold settle. destruct (promises st !! pid0) as [p|] eqn:Ep; [|auto].
    destruct (p_status p); auto.
    intros H. left. apply waiting_callbacks in H; [apply H | discriminate].
  - unfold fire. destruct (listeners st !! sid) as [l|]; [|auto].
    destruct (l_live l); [|auto].
    rewrite sendResponse_frame. auto.
  - auto.
  - unfold dispose. intros H. left.
    eapply waiting_promises in H; [|reflexivity].
    apply waiting_fold_dispose in H. exact H.
Qed.

Lemma in_use_false k st : in_use k st = false <-> idle_key k st.
Proof.
  unfold in_use, idle_key. split.
  - intros H pid id (p & Hl & Hw & Hid) Hk.
    apply not_true_iff_false in H. apply H.
    apply existsb_exists. exists p. split.
    + apply list_elem_of_In. eapply list_elem_of_lookup_2. exact Hl.
    + unfold is_waiting. rewrite Hw, Hid. simpl. apply String.eqb_eq, Hk.
  - intros H. apply not_true_iff_false. intros Hex.
    apply existsb_exists in Hex as (p & Hin & Hp).
    apply andb_prop in Hp as [Hw Hk]. apply String.eqb_eq in Hk.
    apply list_elem_of_In, list_elem_of_lookup in Hin as [pid Hl].
    apply (H pid (p_id p)); [|exact Hk].
    exists p. unfold is_waiting in Hw. destruct (p_status p); try discriminate.
    auto.
Qed.

Lemma idle_key_step k st e :
  requests_promise k e = false ->
  idle_key k st -> idle_key k (step host_error st e).
Proof.
  intros Hr Hidle pid id H.
  apply waiting_step in H as [H | (m & c & n & a & -> & _ & Hd & _)].
  - eapply Hidle. exact H.
  - simpl in Hr. rewrite Hd in Hr. intros Hk.
    apply String.eqb_neq in Hr. contradiction.
Qed.

(** *** The cancel handles of the calls in progress *)

Lemma handles_ok_new : handles_ok new_ChannelServer.
Proof. intros _ pid id (p & Hl & _). discriminate. Qed.

(** The callbacks of a call in progress keep the handles of the other
    calls in progress. *)
Lemma handles_ok_callbacks st pid after s :
  after <> Waiting ->
  (exists id, waiting_at st pid id) ->
  handles_ok st -> handles_ok (callbacks st pid after s).
Proof.
  intros Ha (id0 & Hw0) H Hl pid' id Hw.
  rewrite protocolListener_callbacks in Hl.
  apply waiting_callbacks in Hw as [Hw Hne]; [|exact Ha].
  pose proof (H Hl pid' id Hw) as Hh.
  destruct (activeRequests_callbacks st pid after s)
    as [-> | (p & Hp & ->)]; [exact Hh|].
  destruct Hw0 as (p0 & Hp0 & Hs0 & Hid0).
  assert (p0 = p) as -> by congruence.
  assert (Hw0 : waiting_at st pid (p_id p)) by (exists p; auto).
  pose proof (H Hl pid (p_id p) Hw0) as Hh0.
  rewrite lookup_delete_ne; [exact Hh|].
  intros Ek. rewrite Ek in Hh0. congruence.
Qed.

Lemma handles_ok_disposeActiveRequest st id0 :
  handles_ok st -> handles_ok (disposeActiveRequest host_error st id0).
Proof.
  intros H. unfold disposeActiveRequest.
  destruct (activeRequests st !! ToString id0) as [d|] eqn:Ed; [|exact H].
  assert (Hd : handles_ok (dispose_handle host_error st d)).
  { destruct d as [pid0|sid]; cbn [dispose_handle]; [|exact H].
    destruct (promises st !! pid0) as [p|] eqn:Ep; [|exact H].
    destruct (p_status p) eqn:Es; try exact H.
    apply handles_ok_callbacks; [discriminate | | exact H].
    exists (p_id p), p. auto. }
  intros Hl pid id Hw.
  eapply waiting_promises in Hw; [|reflexivity].
  change (protocolListener (dispose_handle host_error st d) = true) in Hl.
  pose proof (Hd Hl pid id Hw) as Ha.
  cbn [activeRequests activeRequests_delete set_keys_created
       set_activeRequests].
  destruct (decide (ToString id0 = ToString id)) as [Ek|Ek].
  - exfalso. apply waiting_dispose_handle in Hw as [Hw Hne].
    assert (Hl' : protocolListener st = true).
    { destruct d as [pid0|sid]; cbn [dispose_handle] in Hl; [|exact Hl].
      destruct (promises st !! pid0) as [p|]; [|exact Hl].
      destruct (p_status p); try exact Hl.
      rewrite protocolListener_callbacks in Hl. exact Hl. }
    pose proof (H Hl' pid id Hw) as Hh. rewrite <- Ek in Hh. congruence.
  - rewrite lookup_delete_ne by exact Ek. exact Ha.
Qed.

(** After the cancel handle of an id was disposed, no call in progress
    carries that id. *)
Lemma idle_key_disposeActiveRequest st id0 :
  protocolListener st = true -> handles_ok st ->
  idle_key (ToString id0) (disposeActiveRequest host_error st id0).
Proof.
  intros Hl H pid id Hw Hk. unfold disposeActiveRequest in Hw.
  destruct (activeRequests st !! ToString id0) as [d|] eqn:Ed.
  - eapply waiting_promises in Hw; [|reflexivity].
    apply waiting_dispose_handle in Hw as [Hw Hne].
    pose proof (H Hl pid id Hw) as Ha. rewrite Hk in Ha. congruence.
  - pose proof (H Hl pid id Hw) as Ha. rewrite Hk in Ha. congruence.
Qed.

Lemma handles_ok_step st e :
  fresh_request st e = true ->
  handles_ok st -> handles_ok (step host_error st e).
Proof.
  intros Hf H.
  destruct e as [m|pid0 s|sid data|c ch|]; cbn [step].
  - destruct (protocolListener st) eqn:El; [|exact H].
    destruct (decode_request m) as [r|] eqn:Ed.
    + rewrite (request_decoded st m r Ed).
      cbn [fresh_request] in Hf. rewrite Ed in Hf.
      destruct r as [id0 c n a|id0|id0 c n a|id0]; cbn [onRequest state_of].
      * apply negb_true_iff, in_use_false in Hf.
        intros _ pid id Hw.
        pose proof (waiting_step st (Receive m) pid id) as Hs.
        cbn [step] in Hs. rewrite El, (request_decoded st m _ Ed) in Hs.
        specialize (Hs Hw).
        unfold onPromise, promise_then.
        cbn [activeRequests activeRequests_set set_keys_created
             set_activeRequests].
        destruct Hs as [Hold | (m' & c' & n' & a' & Em & _ & Ed' & ->)].
        -- assert (Hk : ToString id <> ToString id0) by (apply (Hf pid id Hold)).
           rewrite lookup_insert_ne by congruence.
           pose proof (H El pid id Hold) as Hh.
           match goal with
           | |- activeRequests ?x !! _ = _ =>
               assert (Ex : activeRequests x = activeRequests st
                            \/ activeRequests x
                               = delete (ToString id0) (activeRequests st))
           end.
           { destruct (match channels st !! ToString c with
                       | Some channel =>
                           match call channel n a with
                           | CallThrows err => Some (Rejected err)
                           | CallReturns fate => fate
                           end
                       | None => _
                       end) as [s|]; [|left; reflexivity].
             match goal with
             | |- activeRequests (callbacks ?y ?q ?f ?t) = _ \/ _ =>
                 destruct (activeRequests_callbacks y q f t)
                   as [E | (p & Hp & E)]
             end.
             - left. exact E.
             - right. rewrite E.
               cbn [promises set_promises] in Hp.
               rewrite lookup_app_r in Hp by lia.
               rewrite Nat.sub_diag in Hp. injection Hp as <-.
               reflexivity. }
           destruct Ex as [-> | ->]; [exact Hh|].
           rewrite lookup_delete_ne by congruence. exact Hh.
        -- injection Em as <-. rewrite Ed in Ed'. injection Ed' as -> _ _ _.
           apply lookup_insert_eq.
      * apply handles_ok_disposeActiveRequest, H.
      * apply negb_true_iff, in_use_false in Hf.
        unfold onEventListen.
        destruct (channels st !! ToString c) as [ch|]; [|exact H].
        destruct (listen ch n a); [exact H|].
        cbn [state_of]. intros _ pid id Hw.
        eapply waiting_promises in Hw; [|reflexivity].
        cbn [activeRequests activeRequests_set set_keys_created
             set_activeRequests set_listeners].
        rewrite lookup_insert_ne.
        -- apply H; auto.
        -- intros Ek. apply (Hf pid id Hw). congruence.
      * apply handles_ok_disposeActiveRequest, H.
    + rewrite request_undecoded by exact Ed. exact H.
  - unfold settle. destruct (promises st !! pid0) as [p|] eqn:Ep; [|exact H].
    destruct (p_status p) eqn:Es; try exact H.
    apply handles_ok_callbacks; [discriminate | | exact H].
    exists (p_id p), p. auto.
  - unfold fire. destruct (listeners st !! sid) as [l|]; [|exact H].
    destruct (l_live l); [|exact H].
    rewrite sendResponse_frame. exact H.
  - exact H.
  - intros Hl. exfalso. unfold dispose in Hl.
    cbn [protocolListener set_keys_created set_activeRequests] in Hl.
    assert (forall ks x,
               protocolListener
                 (fold_left
                    (fun acc key =>
                       match activeRequests acc !! key with
                       | Some disposable =>
                           dispose_handle host_error acc disposable
                       | None => acc
                       end) ks x)
               = protocolListener x) as Hfold.
    { induction ks as [|k ks IH]; intros x; [reflexivity|].
      cbn [fold_left]. rewrite IH.
      destruct (activeRequests x !! k) as [d|]; [|reflexivity].
      destruct d as [pid0|sid]; cbn [dispose_handle]; [|reflexivity].
      destruct (promises x !! pid0) as [p|]; [|reflexivity].
      destruct (p_status p); try reflexivity.
      apply protocolListener_callbacks. }
    rewrite Hfold in Hl. discriminate.
Qed.

Lemma handles_ok_run es st :
  ids_unique host_error st es = true ->
  handles_ok st -> handles_ok (run host_error st es).
Proof.
  revert st. induction es as [|e es IH]; intros st Hu H; [exact H|].
  simpl in Hu. apply andb_prop in Hu as [Hf Hu].
  simpl. apply IH; [exact Hu|]. apply handles_ok_step; assumption.
Qed.

(** *** Where the frames of a step come from *)

Lemma from_nothing st e : exists out, sent st = sent st ++ out
                                      /\ Forall (sent_for st e) out.
Proof. exists []. rewrite app_nil_r. split; [reflexivity | constructor]. Qed.

Lemma sent_for_callbacks st e pid after s :
  (exists id, waiting_at st pid id) ->
  exists out,
    sent (callbacks st pid after s) = sent st ++ out
    /\ Forall (sent_for st e) out.
Proof.
  intros (id & Hw).
  destruct (sent_callbacks st pid after s) as [-> | (p & r & Hp & Hr & ->)];
    [apply from_nothing|].
  eexists. split; [reflexivity|]. constructor; [|constructor].
  right. left. exists (p_id p). split.
  - exists s, r. auto.
  - destruct Hw as (p' & Hp' & Hs' & _).
    assert (p' = p) as -> by congruence.
    exists pid, p. auto.
Qed.

Lemma sent_for_dispose_handle st e d :
  exists out,
    sent (dispose_handle host_error st d) = sent st ++ out
    /\ Forall (sent_for st e) out.
Proof.
  destruct d as [pid|sid]; cbn [dispose_handle];
    [|exact (from_nothing st e)].
  destruct (promises st !! pid) as [p|] eqn:Ep; [|apply from_nothing].
  destruct (p_status p) eqn:Es; try apply from_nothing.
  apply sent_for_callbacks. exists (p_id p), p. auto.
Qed.

(** A frame that comes from a call in progress after some handles were
    disposed comes from a call that was in progress before. *)
Lemma sent_for_earlier a b e buf :
  (forall pid id, waiting_at b pid id -> waiting_at a pid id) ->
  sent_for b e buf -> sent_for a e buf.
Proof.
  intros Hw [H | [(id & Ha & (pid & Hp)) | H]].
  - left. exact H.
  - right. left. exists id. split; [exact Ha|]. exists pid. apply Hw, Hp.
  - right. right. exact H.
Qed.

Lemma sent_for_fold_dispose e ks st :
  exists out,
    sent
      (fold_left
         (fun acc key =>
            match activeRequests acc !! key with
            | Some disposable => dispose_handle host_error acc disposable
            | None => acc
            end) ks st)
    = sent st ++ out
    /\ Forall (sent_for st e) out.
Proof.
  revert st. induction ks as [|k ks IH]; intros st; [apply from_nothing|].
  cbn [fold_left].
  destruct (activeRequests st !! k) as [d|]; [|apply IH].
  destruct (IH (dispose_handle host_error st d)) as (out2 & E2 & F2).
  destruct (sent_for_dispose_handle st e d) as (out1 & E1 & F1).
  exists (out1 ++ out2). rewrite E2, E1, app_assoc. split; [reflexivity|].
  apply Forall_app. split; [exact F1|].
  eapply Forall_impl; [exact F2|]. intros buf.
  apply sent_for_earlier. intros pid id H.
  apply waiting_dispose_handle in H. apply H.
Qed.

(** What a step hands to the transport: frames of events, answers for
    calls that were in progress, and the answer for the call that the
    step receives. *)
Lemma sent_step st e :
  exists out, sent (step host_error st e) = sent st ++ out
              /\ Forall (sent_for st e) out.
Proof.
  destruct e as [m|pid s|sid data|c ch|]; cbn [step].
  - destruct (protocolListener st); [|exact (from_nothing st _)].
    destruct (decode_request m) as [r|] eqn:Ed.
    + rewrite (request_decoded st m r Ed).
      destruct r as [id0 c n a|id0|id0 c n a|id0]; cbn [onRequest state_of].
      * unfold onPromise, promise_then.
        cbn [sent activeRequests_set set_keys_created set_activeRequests].
        destruct (match channels st !! ToString c with
                  | Some channel =>
                      match call channel n a with
                      | CallThrows err => Some (Rejected err)
                      | CallReturns fate => fate
                      end
                  | None => _
                  end) as [s|]; [|exact (from_nothing st _)].
        match goal with
        | |- exists out, sent (callbacks ?y ?q ?f ?t) = _ /\ _ =>
            destruct (sent_callbacks y q f t) as [-> | (p & r & Hp & Hr & ->)]
        end; [exact (from_nothing st _)|].
        cbn [promises set_promises] in Hp.
        rewrite lookup_app_r in Hp by lia.
        rewrite Nat.sub_diag in Hp. injection Hp as <-.
        cbn [p_id] in Hr.
        eexists. split; [reflexivity|]. constructor; [|constructor].
        right. right. exists id0. split; [exists s, r; auto|].
        exists m, c, n, a. auto.
      * unfold disposeActiveRequest.
        destruct (activeRequests st !! ToString id0) as [d|];
          [|exact (from_nothing st _)].
        exact (sent_for_dispose_handle st (Receive m) d).
      * unfold onEventListen.
        destruct (channels st !! ToString c) as [ch|]; [|exact (from_nothing st _)].
        destruct (listen ch n a); exact (from_nothing st _).
      * unfold disposeActiveRequest.
        destruct (activeRequests st !! ToString id0) as [d|];
          [|exact (from_nothing st _)].
        exact (sent_for_dispose_handle st (Receive m) d).
    + rewrite request_undecoded by exact Ed. exact (from_nothing st _).
  - unfold settle.
    destruct (promises st !! pid) as [p|] eqn:Ep; [|exact (from_nothing st _)].
    destruct (p_status p) eqn:Es; try exact (from_nothing st _).
    apply sent_for_callbacks. exists (p_id p), p. auto.
  - unfold fire.
    destruct (listeners st !! sid) as [l|]; [|exact (from_nothing st _)].
    destruct (l_live l); [|exact (from_nothing st _)].
    exists [response_frame (RawEventFire (l_id l) data)]. split.
    + apply sent_sendResponse.
    + constructor; [|constructor]. left. exists (l_id l), data. reflexivity.
  - exact (from_nothing st _).
  - unfold dispose.
    cbn [sent set_keys_created set_activeRequests].
    destruct (sent_for_fold_dispose Dispose
                (Object_keys (keys_created (set_protocolListener false st)))
                (set_protocolListener false st)) as (out & E & F).
    exists out. split; [exact E|].
    eapply Forall_impl; [exact F|]. intros buf.
    apply sent_for_earlier. intros pid id H. exact H.
Qed.

Lemma sent_for_later st e buf : sent_for st e buf -> later_response buf.
Proof.
  intros [(id & data & ->) | [(id & Ha & _) | (id & Ha & _)]].
  - exists id, data. auto.
  - eapply answer_later, Ha.
  - eapply answer_later, Ha.
Qed.

Lemma sent_run es st :
  exists out, sent (run host_error st es) = sent st ++ out
              /\ Forall later_response out.
Proof.
  revert st. induction es as [|e es IH]; intros st.
  - exists []. rewrite app_nil_r. split; [reflexivity | constructor].
  - simpl. destruct (IH (step host_error st e)) as (out2 & E2 & F2).
    destruct (sent_step st e) as (out1 & E1 & F1).
    exists (out1 ++ out2). rewrite E2, E1, app_assoc. split; [reflexivity|].
    apply Forall_app. split; [|assumption].
    eapply Forall_impl; [exact F1|]. intros buf. apply sent_for_later.
Qed.

(** What a step hands to the transport, for an id that no call in
    progress carries and that the step does not request: no terminal
    response for that id. *)
Lemma quiet_step n st e :
  requests_promise (ToString (VNum n)) e = false ->
  idle_key (ToString (VNum n)) st ->
  exists out, sent (step host_error st e) = sent st ++ out
              /\ Forall (fun buf => ~ terminal_for (VNum n) buf) out.
Proof.
  intros Hr Hidle. destruct (sent_step st e) as (out & E & F).
  exists out. split; [exact E|].
  eapply Forall_impl; [exact F|]. intros buf Hs Ht.
  destruct Hs as [(id & data & ->) | [(id & Ha & (pid & Hw))
                                     | (id & Ha & (m & c & nm & a & -> & Hd))]].
  - eapply fired_not_terminal, Ht.
  - apply (answer_terminal _ _ _ Ha) in Ht. subst id.
    apply (Hidle pid (VNum n) Hw). reflexivity.
  - apply (answer_terminal _ _ _ Ha) in Ht. subst id.
    cbn [requests_promise] in Hr. rewrite Hd in Hr.
    rewrite String.eqb_refl in Hr. discriminate.
Qed.

Lemma quiet_run n es st :
  forallb (fun e => negb (requests_promise (ToString (VNum n)) e)) es = true ->
  idle_key (ToString (VNum n)) st ->
  exists out, sent (run host_error st es) = sent st ++ out
              /\ Forall (fun buf => ~ terminal_for (VNum n) buf) out.
Proof.
  revert st. induction es as [|e es IH]; intros st Hno Hidle.
  - exists []. rewrite app_nil_r. split; [reflexivity | constructor].
  - simpl in Hno. apply andb_prop in Hno as [He Hno].
    apply negb_true_iff in He.
    destruct (quiet_step n st e He Hidle) as (out1 & E1 & F1).
    destruct (IH (step host_error st e) Hno) as (out2 & E2 & F2).
    { apply idle_key_step; assumption. }
    exists (out1 ++ out2). simpl. rewrite E2, E1, app_assoc.
    split; [reflexivity | apply Forall_app; auto].
Qed.

(** What [onPromise] keeps of a call: its promise, and the cancel
    handle under its id. *)
Lemma onPromise_kept st id c n a :
  exists p,
    promises (onPromise host_error st id c n a) = promises st ++ [p]
    /\ p_id p = id
    /\ p_fate p
       = match channels st !! ToString c with
         | None =>
             Some (Rejected
                     (IsError (host_error (PropertyOfUndefined "call"))))
         | Some channel =>
             match call channel n a with
             | CallThrows err => Some (Rejected err)
             | CallReturns fate => fate
             end
         end
    /\ activeRequests (onPromise host_error st id c n a) !! ToString id
       = Some (CancelPromise (length (promises st))).
Proof.
  unfold onPromise, promise_then.
  set (fate := match channels st !! ToString c with
               | Some channel => _
               | None => _
               end).
  cbn [promises activeRequests activeRequests_set set_keys_created
       set_activeRequests].
  rewrite lookup_insert_eq.
  exists {| p_id := id; p_fate := fate;
            p_status := match fate with
                        | Some _ => Completed
                        | None => Waiting
                        end |}.
  split; [|auto].
  destruct fate as [s|].
  - rewrite promises_callbacks. unfold set_status.
    cbn [promises set_promises].
    rewrite lookup_app_r by lia. rewrite Nat.sub_diag. cbn [lookup list_lookup].
    replace (length (promises st)) with (length (promises st) + 0)%nat at 1
      by lia.
    rewrite insert_app_r. reflexivity.
  - reflexivity.
Qed.

(** A request whose promise is already rejected with an [Error] when
    [call] has returned, or whose [call] has thrown one, is answered
    before [onPromise] returns. *)
Lemma sent_onPromise_rejected st id c n a e lines :
  match channels st !! ToString c with
  | None => Some (Rejected (IsError (host_error (PropertyOfUndefined "call"))))
  | Some channel =>
      match call channel n a with
      | CallThrows err => Some (Rejected err)
      | CallReturns fate => fate
      end
  end = Some (Rejected (IsError e)) ->
  stack_lines (stack e) = Some lines ->
  sent (onPromise host_error st id c n a)
  = sent st ++ [response_frame (RawPromiseError id (error_data e lines))].
Proof.
  intros Hf Hl. unfold onPromise, promise_then. rewrite Hf.
  cbn [sent activeRequests_set set_keys_created set_activeRequests].
  unfold callbacks. cbn [promises set_promises].
  rewrite lookup_app_r by lia. rewrite Nat.sub_diag.
  cbn [lookup list_lookup p_id response_of]. rewrite Hl.
  cbn [sent activeRequests_delete set_keys_created set_activeRequests].
  rewrite sent_sendResponse. reflexivity.
Qed.

(** The cancel handle of a call in progress, disposed: the error
    callback sends the PromiseError of the cancellation. *)
Lemma sent_cancel_waiting st pid id lines :
  waiting_at st pid id ->
  activeRequests st !! ToString id = Some (CancelPromise pid) ->
  stack_lines (stack (canceled host_error)) = Some lines ->
  sent (disposeActiveRequest host_error st id)
  = sent st
      ++ [response_frame
            (RawPromiseError id (error_data (canceled host_error) lines))].
Proof.
  intros (p & Hp & Hs & Hid) Hh Hl. unfold disposeActiveRequest.
  rewrite Hh. cbn [dispose_handle]. rewrite Hp, Hs.
  unfold callbacks. rewrite Hp. cbn [response_of]. rewrite Hl, Hid.
  cbn [sent activeRequests_delete set_keys_created set_activeRequests].
  rewrite sent_sendResponse. reflexivity.
Qed.

End Facts.

(** C3: on every connection the channel server sends exactly one
    Initialize frame, and it sends it before any other response: the
    first frame handed to the transport is the Initialize frame, and
    every later one is a PromiseSuccess, PromiseError, PromiseErrorObj or
    EventFire frame, none of which has the type of Initialize. *)
Theorem C3_initialize_once_and_first host_error es :
  exists rest,
    sent (run host_error new_ChannelServer es) = Initialize_frame :: rest
    /\ Forall (fun buf =>
                 later_response buf
                 /\ ~ frame_of_type ResponseType_Initialize buf) rest.
Proof.
  destruct (sent_run host_error es new_ChannelServer) as (out & E & F).
  exists out. split; [exact E|].
  eapply Forall_impl; [exact F|].
  intros buf H. split; [exact H | apply later_not_Initialize, H].
Qed.

(** C5 as stated fails: the cancel handle rejects the promise of the
    call with the cancellation error, and the error callback of
    [onPromise] answers it. The call [ping_request] is in progress when
    its PromiseCancel arrives; the server then sends a terminal
    response for its id. *)
Lemma C5_counterexample :
  exists buf,
    Server.sent
      (Server.run example_host_error Server.new_ChannelServer
         (ping_received ++ [Server.Receive (request_frame ping_cancel)]))
    = Server.sent
        (Server.run example_host_error Server.new_ChannelServer ping_received)
      ++ [buf]
    /\ buf
       = response_frame
           (RawPromiseError (VNum 1)
              (error_data (Server.canceled example_host_error) VUndefined))
    /\ terminal_for (VNum 1) buf.
Proof.
  exists (response_frame
            (RawPromiseError (VNum 1)
               (error_data (Server.canceled example_host_error) VUndefined))).
  split; [vm_compute; reflexivity|]. split; [reflexivity|].
  eexists. right. left. reflexivity.
Defined.

(** C5, amended: when a PromiseCancel arrives for the id of a call in
    progress, the server sends exactly one terminal response for that
    id, the PromiseError of the cancellation, whose message and name
    are [Canceled]; after it the server emits no terminal response
    (PromiseSuccess, PromiseError, PromiseErrorObj) for that id any
    more, whatever the underlying call does later. The ids are those of
    a well-formed peer: numbers, a request does not reuse the id of a
    call in progress, and the cancelled id is not used for a new call
    afterwards. *)
Theorem C5_cancel_answers_once host_error es1 cancel n pid lines es2 :
  ids_unique host_error new_ChannelServer es1 = true ->
  protocolListener (run host_error new_ChannelServer es1) = true ->
  waiting_at (run host_error new_ChannelServer es1) pid (VNum n) ->
  stack_lines (stack (canceled host_error)) = Some lines ->
  decode_request cancel = Some (RawPromiseCancel (VNum n)) ->
  forallb (fun e => negb (requests_promise (ToString (VNum n)) e)) es2 = true ->
  exists out,
    sent (run host_error new_ChannelServer (es1 ++ Receive cancel :: es2))
    = sent (run host_error new_ChannelServer es1)
        ++ response_frame
             (RawPromiseError (VNum n)
                (VObj [("message", VStr "Canceled"); ("name", VStr "Canceled");
                       ("stack", lines)]))
        :: out
    /\ Forall (fun buf => ~ terminal_for (VNum n) buf) out.
Proof.
  intros Hu Hl Hw Hlines Hd Hno.
  unfold run at 1. rewrite fold_left_app. fold (run host_error new_ChannelServer es1).
  set (st := run host_error new_ChannelServer es1) in *.
  cbn [fold_left]. fold (run host_error (step host_error st (Receive cancel)) es2).
  assert (Hok : handles_ok st).
  { apply handles_ok_run; [exact Hu | apply handles_ok_new]. }
  assert (Hstep : step host_error st (Receive cancel)
                  = disposeActiveRequest host_error st (VNum n)).
  { cbn [step]. rewrite Hl, (request_decoded host_error st cancel _ Hd).
    reflexivity. }
  destruct (quiet_run host_error n es2 (step host_error st (Receive cancel)) Hno)
    as (out & E & F).
  { rewrite Hstep. apply idle_key_disposeActiveRequest; assumption. }
  exists out. split; [|exact F].
  rewrite E, Hstep.
  rewrite (sent_cancel_waiting host_error st pid (VNum n) lines Hw
             (Hok Hl pid (VNum n) Hw) Hlines).
  rewrite <- app_assoc. reflexivity.
Qed.

(** The call [ping_request] is cancelled and completes afterwards. *)
Lemma C5_cancel_answers_once_witness :
  exists out,
    Server.sent
      (Server.run example_host_error Server.new_ChannelServer
         (ping_received
            ++ Server.Receive (request_frame ping_cancel)
            :: [Server.Settle 0 (Fulfilled (VStr "late"))]))
    = Server.sent
        (Server.run example_host_error Server.new_ChannelServer
           ping_received)
        ++ response_frame
             (RawPromiseError (VNum 1)
                (VObj [("message", VStr "Canceled"); ("name", VStr "Canceled");
                       ("stack", VUndefined)]))
        :: out
    /\ Forall (fun buf => ~ terminal_for (VNum 1) buf) out.
Proof.
  apply (C5_cancel_answers_once example_host_error ping_received
           (request_frame ping_cancel) 1 0%nat VUndefined
           [Server.Settle 0 (Fulfilled (VStr "late"))]).
  - vm_compute. reflexivity.
  - vm_compute. reflexivity.
  - eexists. vm_compute. split; [reflexivity|]. split; reflexivity.
  - vm_compute. reflexivity.
  - vm_compute. reflexivity.
  - vm_compute. reflexivity.
Defined.

End ServerFacts.

(** ** The channel client *)

Module ClientFacts.
Import Codec Client CodecVocab ServerVocab ClientVocab ExampleVocab.
Import CodecFacts.

Section Facts.
Variable host_error : fault -> JSError.

Lemma sendRequest_frame st r :
  sendRequest st r = sendRawMessage st (request_frame r).
Proof. destruct r; reflexivity. Qed.

Lemma sent_sendRequest st r :
  sent (sendRequest st r) = sent st ++ [request_frame r].
Proof. rewrite sendRequest_frame. reflexivity. Qed.

Lemma onRawMessage_decode st m r :
  decode_response m = Some r ->
  onRawMessage host_error st m = onResponse host_error st r.
Proof.
  unfold decode_response, onRawMessage.
  destruct (deserialize m) as [[header body]|]; [|discriminate].
  destruct (get_index header 0) as [type|]; [|discriminate].
  intros ->. reflexivity.
Qed.

Lemma onRawMessage_undecoded st m :
  decode_response m = None ->
  state_of (onRawMessage host_error st m) = st.
Proof.
  unfold decode_response, onRawMessage.
  destruct (deserialize m) as [[header body]|]; [|reflexivity].
  destruct (get_index header 0) as [type|]; [|reflexivity].
  intros ->. reflexivity.
Qed.

(** *** Calls issued before the Initialize response *)

Lemma call_uninitialized st c q :
  state st = Uninitialized -> bufferedRequests st = Some q ->
  let st' := step host_error st (call_event c) in
  state st' = Uninitialized
  /\ bufferedRequests st' = Some (q ++ [buffered_call st c])
  /\ lastRequestId st' = lastRequestId st + 1
  /\ sent st' = sent st
  /\ emitters st' = emitters st
  /\ waiting st' = waiting st
  /\ protocolListener st' = protocolListener st.
Proof.
  intros Hs Hq. destruct c as [[ch name] arg].
  unfold call_event, step, requestPromise. cbn [fst snd].
  cbn [state set_lastRequestId]. rewrite Hs. cbn [is_Uninitialized].
  unfold bufferRequest.
  cbn [state bufferedRequests lastRequestId sent emitters waiting
       protocolListener set_activeRequests set_bufferedRequests set_futures
       set_lastRequestId futures].
  rewrite Hq. repeat split; first [reflexivity | exact Hs].
Qed.

Lemma raws_set_emitter st e f :
  (forall x, e_raw (f x) = e_raw x) ->
  map e_raw (emitters (set_emitter e f st)) = map e_raw (emitters st).
Proof.
  intros Hf. unfold set_emitter. cbn [emitters set_emitters].
  destruct (emitters st !! e) as [x|] eqn:Ex; [|reflexivity].
  rewrite list_fmap_insert. fold (map e_raw (emitters st)).
  rewrite Hf. apply list_insert_id.
  change (map e_raw (emitters st)) with (e_raw <$> emitters st).
  rewrite list_lookup_fmap, Ex. reflexivity.
Qed.

Lemma sent_initialized st e :
  sent (initialized st e)
  = sent st ++ listen_frames (map e_raw (emitters st)) [e]
  /\ map e_raw (emitters (initialized st e)) = map e_raw (emitters st).
Proof.
  unfold initialized, listen_frames. cbn [flat_map].
  change (map e_raw (emitters st)) with (e_raw <$> emitters st) at 1.
  rewrite list_lookup_fmap.
  destruct (emitters st !! e) as [x|] eqn:Ex; cbn [fmap option_fmap option_map].
  - rewrite sent_sendRequest. split; [reflexivity|].
    rewrite sendRequest_frame. cbn [emitters sendRawMessage set_sent].
    apply (raws_set_emitter st e (with_uninitialized false)). reflexivity.
  - rewrite !app_nil_r. split; reflexivity.
Qed.

Lemma sent_fold_initialized ws st :
  sent (fold_left initialized ws st)
  = sent st ++ listen_frames (map e_raw (emitters st)) ws.
Proof.
  revert st. induction ws as [|e ws IH]; intros st.
  - unfold listen_frames. simpl. rewrite app_nil_r. reflexivity.
  - cbn [fold_left]. rewrite IH.
    destruct (sent_initialized st e) as [Es Er]. rewrite Es, Er.
    rewrite <- app_assoc. f_equal.
    unfold listen_frames. cbn [flat_map]. rewrite app_nil_r. reflexivity.
Qed.

Lemma sent_flush_request st r :
  sent (flush_request st r)
  = sent st ++ (if flush r then [request_frame (raw r)] else []).
Proof.
  unfold flush_request. destruct (flush r); [|rewrite app_nil_r; reflexivity].
  unfold set_future, doRequest. cbn [sent set_futures].
  rewrite sent_sendRequest. reflexivity.
Qed.

Lemma sent_fold_flush q st :
  sent (fold_left flush_request q st) = sent st ++ flush_frames q.
Proof.
  revert st. induction q as [|r q IH]; intros st.
  - simpl. rewrite app_nil_r. reflexivity.
  - cbn [fold_left]. rewrite IH, sent_flush_request.
    unfold flush_frames. cbn [flat_map]. rewrite <- app_assoc. reflexivity.
Qed.

(** What the client sends when the Initialize response arrives. *)
Lemma sent_Initialize st q :
  bufferedRequests st = Some q ->
  sent (state_of (onResponse host_error st RawInitialize))
  = sent st ++ listen_frames (map e_raw (emitters st)) (waiting st)
      ++ flush_frames q.
Proof.
  intros Hq. unfold onResponse.
  cbn [bufferedRequests set_waiting].
  assert (Hb : forall ws x,
             bufferedRequests (fold_left initialized ws x) = bufferedRequests x).
  { induction ws as [|e ws IH]; intros x; [reflexivity|].
    cbn [fold_left]. rewrite IH. unfold initialized.
    destruct (emitters x !! e); [|reflexivity].
    rewrite sendRequest_frame. reflexivity. }
  rewrite Hb. cbn [bufferedRequests set_state]. rewrite Hq.
  cbn [state_of sent set_bufferedRequests].
  rewrite sent_fold_flush. cbn [sent set_waiting].
  rewrite sent_fold_initialized. cbn [sent set_state emitters waiting].
  rewrite <- app_assoc. reflexivity.
Qed.

Lemma run_calls calls st q :
  state st = Uninitialized -> bufferedRequests st = Some q ->
  let st' := run host_error st (map call_event calls) in
  sent st' = sent st
  /\ emitters st' = emitters st
  /\ waiting st' = waiting st
  /\ protocolListener st' = protocolListener st
  /\ exists q',
       bufferedRequests st' = Some (q ++ q')
       /\ flush_frames q' = call_frames (lastRequestId st) calls.
Proof.
  revert st q. induction calls as [|c calls IH]; intros st q Hs Hq.
  - cbn. repeat split; try reflexivity.
    exists []. rewrite app_nil_r. split; [exact Hq | reflexivity].
  - cbn [map run fold_left].
    destruct (call_uninitialized st c q Hs Hq)
      as (Hs' & Hq' & Hid & Hsent & Hem & Hw & Hl).
    destruct (IH _ _ Hs' Hq') as (E1 & E2 & E3 & E4 & q' & E5 & E6).
    unfold run in *. rewrite E1, E2, E3, E4.
    repeat split; try assumption.
    exists (buffered_call st c :: q'). split.
    + rewrite E5, <- app_assoc. reflexivity.
    + unfold flush_frames in *. cbn [flat_map buffered_call flush raw app].
      rewrite E6, Hid. destruct c as [[ch name] arg]. reflexivity.
Qed.

End Facts.

(** C8 as stated fails: a stack that was transmitted as an array of
    lines reaches the caller as that array, not as one string. The
    server splits the stack of [nice_error] into its two lines, and the
    client assigns what it received to [error.stack]. *)
Lemma C8_counterexample :
  exists x e,
    futures answered_client !! 0%nat = Some x
    /\ rejection x = Some e
    /\ message e = VStr "nice error"
    /\ name e = VStr "Error"
    /\ stack e = VArr [VStr "Error: nice error"; VStr "    at marco"]
    /\ stack e <> stack nice_error.
Proof.
  eexists _, _. split; [vm_compute; reflexivity|].
  split; [reflexivity|]. repeat split. discriminate.
Defined.

(** C8, amended: the rejection delivered for a PromiseError response is
    an error whose message and name are the transmitted ones and whose
    stack is the transmitted stack as it is: an array of lines stays an
    array of lines. *)
Theorem C8_error_materialized host_error this h x id data
  (m n : string) (st : value) :
  futures this !! h = Some x -> f_status x = Pending ->
  get data "message" = Some (VStr m) ->
  get data "name" = Some (VStr n) ->
  get data "stack" = Some st ->
  exists this' x',
    handle host_error this (PromiseHandler h) (RawPromiseError id data)
    = Returned this'
    /\ futures this' !! h = Some x'
    /\ rejection x'
       = Some {| message := VStr m; name := VStr n; stack := st |}.
Proof.
  intros Hx Hp Hm Hn Hs.
  unfold handle. rewrite Hx, Hm, Hn, Hs.
  eexists _, _. split; [reflexivity|].
  unfold settle_future.
  cbn [futures set_handlers]. rewrite Hx, Hp.
  cbn [futures set_activeRequests set_future set_futures set_handlers].
  rewrite Hx. split.
  - apply list_lookup_insert_eq. eapply lookup_lt_Some. exact Hx.
  - reflexivity.
Qed.

(** The client [calling_client] receives the error of its call. *)
Lemma C8_error_materialized_witness :
  Client.futures calling_client !! 0%nat = Some first_direct
  /\ exists this' x',
       Client.handle example_host_error calling_client
         (Client.PromiseHandler 0) 
         (RawPromiseError (VNum 0)
            (error_data nice_error
               (VArr [VStr "Error: nice error"; VStr "    at marco"])))
       = Returned this'
       /\ Client.futures this' !! 0%nat = Some x'
       /\ rejection x'
          = Some {| message := VStr "nice error"; name := VStr "Error";
                    stack := VArr [VStr "Error: nice error";
                                   VStr "    at marco"] |}.
Proof.
  split; [vm_compute; reflexivity|].
  apply (C8_error_materialized example_host_error calling_client 0%nat
           first_direct (VNum 0)
           (error_data nice_error
              (VArr [VStr "Error: nice error"; VStr "    at marco"]))
           "nice error" "Error");
    vm_compute; reflexivity.
Defined.

(** C7: a frame that cannot be decoded has no effect on either engine.
    [deserialize] is the first thing [onRawMessage] does and nothing
    guards it, so its exception leaves [onRawMessage] before any field
    was touched: no handler runs, no promise settles, no emitter fires
    and nothing is sent; the frames that follow are processed as if the
    frame had never arrived. *)
Theorem C7_undecodable_frame host_error m
  (s : Server.ChannelServer) (ss : list Server.event)
  (c : ChannelClient) (cs : list event) :
  deserialize m = None ->
  Server.onRawMessage host_error s m
    = Threw s (IsError (host_error DecodeFault))
  /\ onRawMessage host_error c m = Threw c (IsError (host_error DecodeFault))
  /\ Server.run host_error s (Server.Receive m :: ss)
     = Server.run host_error s ss
  /\ run host_error c (Receive m :: cs) = run host_error c cs.
Proof.
  intros Hd.
  assert (Hs : Server.onRawMessage host_error s m
               = Threw s (IsError (host_error DecodeFault))).
  { unfold Server.onRawMessage. rewrite Hd. reflexivity. }
  assert (Hc : onRawMessage host_error c m
               = Threw c (IsError (host_error DecodeFault))).
  { unfold onRawMessage. rewrite Hd. reflexivity. }
  repeat split; try assumption.
  - unfold Server.run. cbn [fold_left Server.step]. rewrite Hs.
    destruct (Server.protocolListener s); reflexivity.
  - unfold run. cbn [fold_left step]. rewrite Hc.
    destruct (protocolListener c); reflexivity.
Qed.

(** [broken_frame] arrives before a request. *)
Lemma C7_undecodable_frame_witness :
  deserialize broken_frame = None
  /\ Server.run example_host_error Server.new_ChannelServer
       [Server.Receive broken_frame;
        Server.Receive (request_frame ping_request)]
     = Server.run example_host_error Server.new_ChannelServer
         [Server.Receive (request_frame ping_request)].
Proof.
  split; [vm_compute; reflexivity|].
  apply (C7_undecodable_frame example_host_error broken_frame
           Server.new_ChannelServer
           [Server.Receive (request_frame ping_request)]
           Client.new_ChannelClient []).
  vm_compute. reflexivity.
Defined.

(** C4: the calls issued on a client that is not yet initialized send
    nothing, and when the Initialize response arrives the client sends
    one Promise request frame for each of them, in the order in which
    they were issued, after whatever it would have sent without them
    (for a new client: nothing). *)
Theorem C4_buffered_calls_flush_in_order host_error st0 q calls init :
  state st0 = Uninitialized ->
  protocolListener st0 = true ->
  bufferedRequests st0 = Some q ->
  decode_response init = Some RawInitialize ->
  sent (run host_error st0 (map call_event calls)) = sent st0
  /\ sent (run host_error st0 (map call_event calls ++ [Receive init]))
     = sent (run host_error st0 [Receive init])
       ++ call_frames (lastRequestId st0) calls
  /\ length (call_frames (lastRequestId st0) calls) = length calls.
Proof.
  intros Hs Hl Hq Hd.
  destruct (run_calls host_error calls st0 q Hs Hq)
    as (E1 & E2 & E3 & E4 & q' & E5 & E6).
  split; [exact E1|]. split.
  - unfold run at 1. rewrite fold_left_app.
    fold (run host_error st0 (map call_event calls)).
    cbn [run fold_left step]. rewrite E4, Hl.
    rewrite !(onRawMessage_decode host_error _ init _ Hd).
    rewrite (sent_Initialize host_error _ _ E5).
    rewrite (sent_Initialize host_error _ _ Hq).
    rewrite E1, E2, E3. unfold flush_frames in *.
    rewrite flat_map_app, E6, <- !app_assoc. reflexivity.
  - clear. generalize (lastRequestId st0).
    induction calls as [|[[ch name] arg] calls IH]; intros z; [reflexivity|].
    cbn [call_frames length]. rewrite IH. reflexivity.
Qed.

(** Two calls on a new client. *)
Lemma C4_buffered_calls_flush_in_order_witness :
  Client.state Client.new_ChannelClient = Client.Uninitialized
  /\ decode_response Initialize_frame = Some RawInitialize
  /\ Client.sent
       (Client.run example_host_error Client.new_ChannelClient
          (map call_event
             [("echo", "ping", VNum 1); ("files", "stat", VStr "a")]
             ++ [Client.Receive Initialize_frame]))
     = Client.sent
         (Client.run example_host_error Client.new_ChannelClient
            [Client.Receive Initialize_frame])
         ++ call_frames (Client.lastRequestId Client.new_ChannelClient)
              [("echo", "ping", VNum 1); ("files", "stat", VStr "a")].
Proof.
  split; [reflexivity|]. split; [vm_compute; reflexivity|].
  apply (C4_buffered_calls_flush_in_order example_host_error
           Client.new_ChannelClient []
           [("echo"%string, "ping"%string, VNum 1);
            ("files"%string, "stat"%string, VStr "a")]
           Initialize_frame);
    vm_compute; reflexivity.
Defined.

End ClientFacts.

(** ** Cancelling a call of the client *)

Module CancelFacts.
Import Codec Client CodecVocab ServerVocab ClientVocab CancelVocab ExampleVocab.
Import JSONFacts CodecFacts ClientFacts.

Lemma request_frame_type r :
  frame_of_type RequestType_Promise (request_frame r) -> is_promise_request r.
Proof.
  intros (rest & body & E).
  destruct r; cbn [request_frame] in E;
    apply serialize_inj in E as [E _]; cbn [JSON.norm map] in E;
    try discriminate; exact I.
Qed.

Lemma promise_frame_type i buf :
  promise_frame i buf -> frame_of_type RequestType_Promise buf.
Proof. intros (c & n & a & ->). eexists _, _. reflexivity. Qed.

Lemma request_frame_promise i r :
  promise_frame i (request_frame r) ->
  is_promise_request r /\ request_id r = VNum i.
Proof.
  intros (c & n & a & E).
  destruct r; cbn [request_frame] in E;
    apply serialize_inj in E as [E _]; cbn [JSON.norm map] in E;
    try discriminate.
  split; [exact I|]. cbn [request_id]. apply norm_is_num. congruence.
Qed.

Lemma request_frame_concerns i r :
  concerns i (request_frame r) ->
  (is_promise_request r \/ exists id, r = RawPromiseCancel id)
  /\ request_id r = VNum i.
Proof.
  intros [Hp | E].
  - apply request_frame_promise in Hp as [Hp Hid]. auto.
  - destruct r; cbn [request_frame] in E;
      apply serialize_inj in E as [E _]; cbn [JSON.norm map] in E;
      try discriminate.
    split; [right; eauto|]. cbn [request_id]. apply norm_is_num. congruence.
Qed.

Lemma request_frame_cancel_type r :
  frame_of_type RequestType_PromiseCancel (request_frame r) ->
  exists id, r = RawPromiseCancel id.
Proof.
  intros (rest & body & E).
  destruct r; cbn [request_frame] in E;
    apply serialize_inj in E as [E _]; cbn [JSON.norm map] in E;
    try discriminate; eauto.
Qed.

Section Facts.
Variable host_error : fault -> JSError.

Lemma emitters_raw (a b : ChannelClient) :
  map e_raw (emitters b) = map e_raw (emitters a) ->
  (forall e x, emitters a !! e = Some x -> is_listen_request (e_raw x)) ->
  forall e x, emitters b !! e = Some x -> is_listen_request (e_raw x).
Proof.
  intros Hm Ha e x Hx.
  assert (Hr : (e_raw <$> emitters b) !! e = Some (e_raw x)).
  { rewrite list_lookup_fmap, Hx. reflexivity. }
  change (e_raw <$> emitters b) with (map e_raw (emitters b)) in Hr.
  rewrite Hm in Hr. change (map e_raw (emitters a)) with (e_raw <$> emitters a) in Hr.
  rewrite list_lookup_fmap in Hr.
  destruct (emitters a !! e) as [y|] eqn:Ey; [|discriminate].
  injection Hr as Hr. rewrite <- Hr. eapply Ha. exact Ey.
Qed.

Lemma well_formed_same a b : same_core a b -> well_formed a -> well_formed b.
Proof.
  intros (Hf & Hi & Hq & Hs & Hw & He) [W1 W2 W3 W4 W5 W6].
  constructor; rewrite ?Hf, ?Hq, ?Hs, ?Hw; auto.
  - intros h x Hx. destruct (W1 h x Hx) as (i & Hp & Hlt).
    exists i. split; [exact Hp | lia].
  - eapply emitters_raw; eauto.
Qed.

Lemma never_sent_same i a b : same_core a b -> never_sent i a -> never_sent i b.
Proof.
  intros (Hf & Hi & Hq & Hs & Hw & He) [N1 N2 N3 N4].
  constructor; rewrite ?Hq, ?Hw, ?Hf; auto. lia.
Qed.

(** Sending a request. *)
Lemma well_formed_sendRequest st r :
  (state st = Uninitialized -> ~ is_promise_request r) ->
  well_formed st -> well_formed (sendRequest st r).
Proof.
  intros Hr [W1 W2 W3 W4 W5 W6]. rewrite sendRequest_frame.
  constructor; cbn [sendRawMessage set_sent futures lastRequestId
                    bufferedRequests state sent emitters]; auto.
  - intros Hu. destruct (W4 Hu) as [Hq Hs]. split; [exact Hq|].
    intros buf Hin. apply in_app_or in Hin as [Hin | [<- | []]].
    + apply Hs, Hin.
    + intros Ht. apply request_frame_type in Ht. apply (Hr Hu Ht).
  - intros h x Hx Hp. specialize (W5 h x Hx Hp).
    destruct (f_kind x) as [|[]]; auto;
      destruct W5 as [Hi Hin]; (split; [exact Hi | apply in_or_app; auto]).
Qed.

Lemma never_sent_sendRequest i st r :
  (is_promise_request r \/ (exists id, r = RawPromiseCancel id) ->
   request_id r <> VNum i) ->
  never_sent i st -> never_sent i (sendRequest st r).
Proof.
  intros Hr [N1 N2 N3 N4]. rewrite sendRequest_frame.
  constructor; cbn [sendRawMessage set_sent lastRequestId bufferedRequests
                    sent futures]; auto.
  intros buf Hin. apply in_app_or in Hin as [Hin | [<- | []]].
  - apply N1, Hin.
  - intros Hp. apply request_frame_concerns in Hp as [Hp Hid].
    apply (Hr Hp Hid).
Qed.

Lemma lookup_set_future st h f h' :
  futures (set_future h f st) !! h'
  = if decide (h' = h) then f <$> futures st !! h else futures st !! h'.
Proof.
  unfold set_future. cbn [futures set_futures].
  destruct (futures st !! h) as [x|] eqn:Ex.
  - destruct (decide (h' = h)) as [->|Hne].
    + rewrite list_lookup_insert_eq by (eapply lookup_lt_Some; eauto).
      reflexivity.
    + rewrite list_lookup_insert_ne by congruence. reflexivity.
  - destruct (decide (h' = h)) as [->|Hne]; [exact Ex | reflexivity].
Qed.

Lemma retires_lookup h a b h' x' :
  retires h a b -> futures b !! h' = Some x' ->
  exists x, futures a !! h' = Some x /\ f_raw x' = f_raw x
            /\ (f_status x' = Pending -> h' <> h /\ x' = x).
Proof.
  intros (Ho & Hh & Hn & _) Hx'.
  destruct (decide (h' = h)) as [->|Hne].
  - destruct (futures a !! h) as [x|] eqn:Ex.
    + destruct (Hh x eq_refl) as (y & Hy & Hr & Hs).
      rewrite Hx' in Hy. injection Hy as <-.
      exists x. split; [reflexivity|]. split; [exact Hr|].
      intros Hp. contradiction.
    + rewrite (Hn eq_refl) in Hx'. discriminate.
  - rewrite (Ho h' Hne) in Hx'. exists x'. auto.
Qed.

Lemma retires_lookup_back h a b h' x :
  retires h a b -> futures a !! h' = Some x ->
  exists x', futures b !! h' = Some x' /\ f_raw x' = f_raw x.
Proof.
  intros (Ho & Hh & Hn & _) Hx.
  destruct (decide (h' = h)) as [->|Hne].
  - destruct (Hh x Hx) as (x' & Hx' & Hr & _). eauto.
  - rewrite <- (Ho h' Hne) in Hx. eauto.
Qed.

Lemma well_formed_retires h a b :
  retires h a b -> well_formed a -> well_formed b.
Proof.
  intros R [W1 W2 W3 W4 W5 W6].
  pose proof R as (Ho & Hh & Hn & Hi & Hs & Hw & He & Hq & Hqn).
  constructor.
  - intros h' x' Hx'.
    destruct (retires_lookup _ _ _ _ _ R Hx') as (x & Hx & Hr & _).
    rewrite Hr, Hi. eapply W1. exact Hx.
  - intros h1 h2 x1 x2 H1 H2 Hid.
    destruct (retires_lookup _ _ _ _ _ R H1) as (y1 & Hy1 & Hr1 & _).
    destruct (retires_lookup _ _ _ _ _ R H2) as (y2 & Hy2 & Hr2 & _).
    rewrite Hr1, Hr2 in Hid. eapply W2; eauto.
  - intros q' r Hq' Hin.
    destruct (bufferedRequests a) as [q|] eqn:Eq.
    + destruct (Hq q eq_refl) as (q'' & Hq'' & Hsub & _).
      rewrite Hq' in Hq''. injection Hq'' as <-.
      destruct (W3 q r eq_refl (Hsub r Hin)) as (x & Hx & Hr & Hf).
      destruct (retires_lookup_back _ _ _ _ _ R Hx) as (x' & Hx' & Hr').
      exists x'. split; [exact Hx'|]. split; [congruence | exact Hf].
    + rewrite (Hqn eq_refl) in Hq'. discriminate.
  - rewrite Hs, Hw. intros Hu. destruct (W4 Hu) as [[q Eq] Hsent].
    split; [|exact Hsent].
    destruct (Hq q Eq) as (q' & Hq' & _). eauto.
  - intros h' x' Hx' Hp.
    destruct (retires_lookup _ _ _ _ _ R Hx') as (x & Hx & Hr & Hpend).
    destruct (Hpend Hp) as [Hne ->].
    specialize (W5 h' x Hx Hp). rewrite Hs, Hw.
    destruct (f_kind x) as [|[]]; auto.
    destruct W5 as [Hu (q & r & Eq & Hin & Ho')]. split; [exact Hu|].
    destruct (Hq q Eq) as (q' & Hq' & _ & Hkeep).
    exists q', r. split; [exact Hq'|]. split; [|exact Ho'].
    apply Hkeep; [exact Hin | congruence].
  - eapply emitters_raw; eauto.
Qed.

Lemma never_sent_retires i h a b :
  retires h a b -> never_sent i a -> never_sent i b.
Proof.
  intros R [N1 N2 N3 N4].
  pose proof R as (Ho & Hh & Hn & Hi & Hs & Hw & He & Hq & Hqn).
  constructor; rewrite ?Hw, ?Hi; auto.
  - intros q' r Hq' Hin.
    destruct (bufferedRequests a) as [q|] eqn:Eq.
    + destruct (Hq q eq_refl) as (q'' & Hq'' & Hsub & _).
      rewrite Hq' in Hq''. injection Hq'' as <-.
      eapply N2; [reflexivity | apply Hsub, Hin].
    + rewrite (Hqn eq_refl) in Hq'. discriminate.
  - intros h' x' Hx' Hid Hp.
    destruct (retires_lookup _ _ _ _ _ R Hx') as (x & Hx & Hr & Hpend).
    destruct (Hpend Hp) as [_ ->]. eapply N4; eauto.
Qed.

Lemma retires_refl_settled h st :
  (forall x, futures st !! h = Some x -> f_status x <> Pending) ->
  retires h st st.
Proof.
  intros Hs. repeat split; auto.
  - intros x Hx. exists x. auto.
  - intros q Hq. exists q. auto.
Qed.

Lemma retires_settle_future h s st :
  s <> Pending -> retires h st (settle_future h s st).
Proof.
  intros Hs. unfold settle_future.
  destruct (futures st !! h) as [x|] eqn:Ex.
  - destruct (f_status x) eqn:Es;
      try (apply retires_refl_settled; intros y Hy; congruence).
    repeat split; cbn [set_activeRequests futures lastRequestId state sent
                       emitters bufferedRequests]; auto.
    + intros h' Hne. rewrite lookup_set_future.
      destruct (decide (h' = h)); [contradiction | reflexivity].
    + intros y Hy. rewrite lookup_set_future.
      destruct (decide (h = h)); [|contradiction].
      rewrite Hy. eexists. split; [reflexivity|]. split; [reflexivity|].
      exact Hs.
    + intros Hn. congruence.
    + intros q Hq. exists q. auto.
  - apply retires_refl_settled. intros y Hy. congruence.
Qed.

Lemma cancel_settled st h :
  (forall x, futures st !! h = Some x -> f_status x <> Pending) ->
  cancel st h = st.
Proof.
  intros Hs. unfold cancel. destruct (futures st !! h) as [x|]; [|reflexivity].
  specialize (Hs x eq_refl). destruct (f_status x); congruence.
Qed.

Lemma settle_after st1 st h x s :
  futures st1 !! h = Some x -> f_status x = Pending -> s <> Pending ->
  (forall h', h' <> h -> futures st1 !! h' = futures st !! h') ->
  (forall y, futures st !! h = Some y -> f_raw x = f_raw y) ->
  futures st !! h <> None ->
  lastRequestId st1 = lastRequestId st -> state st1 = state st ->
  sent st1 = sent st -> map e_raw (emitters st1) = map e_raw (emitters st) ->
  (forall q, bufferedRequests st = Some q ->
     exists q', bufferedRequests st1 = Some q'
                /\ (forall r, In r q' -> In r q)
                /\ (forall r, In r q -> owner r <> h -> In r q')) ->
  (bufferedRequests st = None -> bufferedRequests st1 = None) ->
  retires h st (settle_future h s st1)
  /\ exists x', futures (settle_future h s st1) !! h = Some x'
                /\ f_status x' = s.
Proof.
  intros Hx Hp Hs Ho Hr Hsome Hi Hst Hw He Hq Hqn.
  unfold settle_future. rewrite Hx, Hp.
  assert (Hl : futures (set_future h (with_status s) st1) !! h
               = Some (with_status s x)).
  { rewrite lookup_set_future. destruct (decide (h = h)); [|contradiction].
    rewrite Hx. reflexivity. }
  split; [|eexists; split; [exact Hl | reflexivity]].
  repeat split; cbn [set_activeRequests futures lastRequestId state sent
                     emitters bufferedRequests]; auto.
  - intros h' Hne. rewrite lookup_set_future.
    destruct (decide (h' = h)); [contradiction | auto].
  - intros y Hy. rewrite Hl. eexists. split; [reflexivity|].
    split; [apply Hr, Hy | exact Hs].
  - intros Hn. contradiction.
Qed.

(** Cancelling a pending promise: the PromiseCancel request is sent
    exactly when [request_sent] holds, and the promise is retired. *)
Lemma cancel_pending st h x :
  futures st !! h = Some x -> f_status x = Pending ->
  retires h
    (if request_sent st x
     then sendRequest st (RawPromiseCancel (request_id (f_raw x)))
     else st)
    (cancel st h)
  /\ exists x', futures (cancel st h) !! h = Some x' /\ f_status x' = Canceled.
Proof.
  intros Hx Hp. unfold cancel, request_sent. rewrite Hx, Hp.
  assert (Hsome : futures st !! h <> None) by congruence.
  destruct (f_kind x) as [|[]] eqn:Ek; cbn [andb negb].
  - rewrite sendRequest_frame.
    apply (settle_after _ _ h x Canceled); cbn [sendRawMessage set_sent futures];
      auto; try discriminate.
    + intros y Hy. congruence.
    + intros q Hq. exists q. auto.
  - destruct (is_Uninitialized (state st)) eqn:Eu; cbn [negb andb].
    + apply (settle_after _ _ h x Canceled);
        cbn [set_bufferedRequests futures lastRequestId state sent emitters
             bufferedRequests]; auto; try discriminate.
      * intros y Hy. congruence.
      * intros q Hq. rewrite Hq. cbn [option_map]. eexists. split; [reflexivity|].
        split; intros r Hin.
        -- apply List.filter_In in Hin. apply Hin.
        -- intros Hne. apply List.filter_In. split; [exact Hin|].
           apply negb_true_iff, Nat.eqb_neq, Hne.
      * intros Hq. rewrite Hq. reflexivity.
    + rewrite sendRequest_frame.
      apply (settle_after _ _ h (with_kind (Buffered false) x) Canceled);
        cbn [sendRawMessage set_sent futures lastRequestId state sent emitters
             bufferedRequests set_future set_futures]; auto; try discriminate.
      * rewrite Hx. apply list_lookup_insert_eq. eapply lookup_lt_Some; eauto.
      * intros h' Hne. rewrite Hx. apply list_lookup_insert_ne. congruence.
      * intros y Hy. rewrite Hx in Hy. injection Hy as <-. reflexivity.
      * intros q Hq. exists q. auto.
  - destruct (is_Uninitialized (state st)) eqn:Eu; cbn [negb andb].
    + apply (settle_after _ _ h x Canceled);
        cbn [set_bufferedRequests futures lastRequestId state sent emitters
             bufferedRequests]; auto; try discriminate.
      * intros y Hy. congruence.
      * intros q Hq. rewrite Hq. cbn [option_map]. eexists. split; [reflexivity|].
        split; intros r Hin.
        -- apply List.filter_In in Hin. apply Hin.
        -- intros Hne. apply List.filter_In. split; [exact Hin|].
           apply negb_true_iff, Nat.eqb_neq, Hne.
      * intros Hq. rewrite Hq. reflexivity.
    + apply (settle_after _ _ h x Canceled); auto; try discriminate.
      * intros y Hy. congruence.
      * intros q Hq. exists q. auto.
Qed.

Lemma well_formed_cancel st h : well_formed st -> well_formed (cancel st h).
Proof.
  intros W. destruct (futures st !! h) as [x|] eqn:Ex.
  - destruct (f_status x) eqn:Es;
      try (rewrite cancel_settled; [exact W | intros y Hy; congruence]).
    destruct (cancel_pending st h x Ex Es) as [R _].
    eapply well_formed_retires; [exact R|].
    destruct (request_sent st x); [|exact W].
    apply well_formed_sendRequest; [|exact W]. intros _ [].
  - rewrite cancel_settled; [exact W | intros y Hy; congruence].
Qed.

Lemma never_sent_cancel i st h : never_sent i st -> never_sent i (cancel st h).
Proof.
  intros N. destruct (futures st !! h) as [x|] eqn:Ex.
  - destruct (f_status x) eqn:Es;
      try (rewrite cancel_settled; [exact N | intros y Hy; congruence]).
    destruct (cancel_pending st h x Ex Es) as [R _].
    eapply never_sent_retires; [exact R|].
    destruct (request_sent st x); [|exact N].
    apply never_sent_sendRequest; [|exact N].
    intros _ Hid. cbn [request_id] in Hid.
    apply (ns_settled i st N h x Ex Hid Es).
  - rewrite cancel_settled; [exact N | intros y Hy; congruence].
Qed.

(** *** [requestPromise] *)

Lemma requestPromise_fields st ch name arg :
  let st' := fst (requestPromise st ch name arg) in
  let u := is_Uninitialized (state st) in
  let R := new_request st ch name arg in
  futures st'
  = futures st ++ [{| f_raw := R;
                      f_kind := if u then Buffered false else Direct;
                      f_status := Pending |}]
  /\ lastRequestId st' = lastRequestId st + 1
  /\ state st' = state st
  /\ emitters st' = emitters st
  /\ bufferedRequests st'
     = (if u
        then option_map
               (fun l => l ++ [{| raw := R; owner := length (futures st);
                                  flush := true |}])
               (bufferedRequests st)
        else bufferedRequests st)
  /\ sent st' = sent st ++ (if u then [] else [request_frame R]).
Proof.
  unfold requestPromise, new_request. cbn [fst state set_lastRequestId].
  destruct (is_Uninitialized (state st)); cbn; rewrite ?app_nil_r;
    repeat split; reflexivity.
Qed.

Lemma well_formed_requestPromise st ch name arg :
  well_formed st -> well_formed (fst (requestPromise st ch name arg)).
Proof.
  intros [W1 W2 W3 W4 W5 W6].
  destruct (requestPromise_fields st ch name arg)
    as (Hf & Hi & Hs & He & Hq & Hw).
  set (st' := fst (requestPromise st ch name arg)) in *.
  set (R := new_request st ch name arg) in *.
  assert (HR : promise_request R (lastRequestId st)).
  { unfold R, new_request. eexists _, _, _. reflexivity. }
  assert (Hold : forall h x, futures st !! h = Some x ->
                   request_id (f_raw x) <> request_id R).
  { intros h x Hx E. destruct (W1 h x Hx) as (i & (c & n & a & Hr) & Hlt).
    rewrite Hr in E. unfold R, new_request in E. cbn in E.
    injection E as E. lia. }
  constructor.
  - intros h x Hx. rewrite Hf in Hx. rewrite Hi.
    apply lookup_app_Some in Hx as [Hx | [_ Hx]].
    + destruct (W1 h x Hx) as (i & Hp & Hlt). exists i. split; [exact Hp | lia].
    + destruct (h - length (futures st))%nat; [|destruct n; discriminate].
      injection Hx as <-. exists (lastRequestId st). split; [exact HR | lia].
  - intros h1 h2 x1 x2 H1 H2 E. rewrite Hf in H1, H2.
    apply lookup_app_Some in H1 as [H1 | [G1 H1]];
      apply lookup_app_Some in H2 as [H2 | [G2 H2]].
    + eapply W2; eauto.
    + destruct (h2 - length (futures st))%nat; [|destruct n; discriminate].
      injection H2 as <-. cbn in E. exfalso. eapply Hold; eauto.
    + destruct (h1 - length (futures st))%nat; [|destruct n; discriminate].
      injection H1 as <-. cbn in E. exfalso. eapply Hold; eauto.
    + destruct (h1 - length (futures st))%nat eqn:E1;
        [|destruct n; discriminate].
      destruct (h2 - length (futures st))%nat eqn:E2;
        [|destruct n; discriminate].
      lia.
  - intros q' r Hq' Hin. rewrite Hq in Hq'. rewrite Hf.
    destruct (is_Uninitialized (state st)).
    + destruct (bufferedRequests st) as [q|] eqn:Eq; [|discriminate].
      injection Hq' as <-. apply in_app_or in Hin as [Hin | [<- | []]].
      * destruct (W3 q r eq_refl Hin) as (x & Hx & Hr & Hfl).
        exists x. split; [|auto]. apply lookup_app_l_Some, Hx.
      * cbn [owner raw flush]. eexists. split.
        -- rewrite lookup_app_r by lia. rewrite Nat.sub_diag. reflexivity.
        -- split; reflexivity.
    + destruct (W3 q' r Hq' Hin) as (x & Hx & Hr & Hfl).
      exists x. split; [|auto]. apply lookup_app_l_Some, Hx.
  - rewrite Hs, Hq, Hw. intros Hu. destruct (W4 Hu) as [[q Eq] Hsent].
    rewrite Hu. cbn [is_Uninitialized]. rewrite Eq, app_nil_r.
    split; [eexists; reflexivity | exact Hsent].
  - intros h x Hx Hp. rewrite Hf in Hx. rewrite Hs, Hq, Hw.
    apply lookup_app_Some in Hx as [Hx | [Hge Hx]].
    + specialize (W5 h x Hx Hp).
      destruct (f_kind x) as [|[]].
      * destruct W5 as [Hidle Hin]. split; [exact Hidle|].
        apply in_or_app. auto.
      * destruct W5 as [Hidle Hin]. split; [exact Hidle|].
        apply in_or_app. auto.
      * destruct W5 as [Hu (q & r & Eq & Hin & Ho)]. split; [exact Hu|].
        rewrite Hu. cbn [is_Uninitialized]. rewrite Eq.
        eexists _, r. split; [reflexivity|]. split; [|exact Ho].
        apply in_or_app. auto.
    + destruct (h - length (futures st))%nat eqn:En;
        [|destruct n; discriminate].
      injection Hx as <-. cbn [f_kind f_raw].
      destruct (is_Uninitialized (state st)) eqn:Eu.
      * assert (Est : state st = Uninitialized)
          by (destruct (state st); [reflexivity | discriminate]).
        split; [exact Est|]. destruct (W4 Est) as [[q Eq] _]. rewrite Eq.
        eexists _, _. split; [reflexivity|]. split.
        -- apply in_or_app. right. left. reflexivity.
        -- cbn [owner]. lia.
      * split; [destruct (state st); [discriminate | reflexivity]|].
        apply in_or_app. right. left. reflexivity.
  - rewrite He. exact W6.
Qed.

Lemma never_sent_requestPromise i st ch name arg :
  never_sent i st -> never_sent i (fst (requestPromise st ch name arg)).
Proof.
  intros [N1 N2 N3 N4].
  destruct (requestPromise_fields st ch name arg)
    as (Hf & Hi & Hs & He & Hq & Hw).
  constructor.
  - rewrite Hw. intros buf Hin. apply in_app_or in Hin as [Hin | Hin].
    + apply N1, Hin.
    + destruct (is_Uninitialized (state st)); [destruct Hin|].
      destruct Hin as [<- | []]. intros Hp.
      apply request_frame_concerns in Hp as [_ Hid].
      unfold new_request in Hid. cbn in Hid. injection Hid as Hid. lia.
  - rewrite Hq. intros q' r Hq' Hin.
    destruct (is_Uninitialized (state st)); [|eapply N2; eauto].
    destruct (bufferedRequests st) as [q|] eqn:Eq; [|discriminate].
    injection Hq' as <-. apply in_app_or in Hin as [Hin | [<- | []]].
    + eapply N2; eauto.
    + unfold new_request. cbn. intros [= E]. lia.
  - rewrite Hi. lia.
  - rewrite Hf. intros h x Hx Hid.
    apply lookup_app_Some in Hx as [Hx | [_ Hx]]; [eapply N4; eauto|].
    destruct (h - length (futures st))%nat; [|destruct n; discriminate].
    injection Hx as <-. unfold new_request in Hid. cbn in Hid.
    injection Hid as Hid. lia.
Qed.

(** *** [requestEvent], [subscribe], [unsubscribe] *)

Lemma requestEvent_fields st ch name arg :
  let st' := fst (requestEvent st ch name arg) in
  futures st' = futures st
  /\ lastRequestId st' = lastRequestId st + 1
  /\ state st' = state st
  /\ bufferedRequests st' = bufferedRequests st
  /\ sent st' = sent st
  /\ emitters st'
     = emitters st
       ++ [{| e_raw := RawEventListen (VNum (lastRequestId st)) (VStr ch)
                         (VStr name) arg;
              e_subscribers := 0; e_uninitialized := false; e_fired := [] |}].
Proof. repeat split; reflexivity. Qed.

Lemma well_formed_requestEvent st ch name arg :
  well_formed st -> well_formed (fst (requestEvent st ch name arg)).
Proof.
  intros [W1 W2 W3 W4 W5 W6].
  destruct (requestEvent_fields st ch name arg)
    as (Hf & Hi & Hs & Hq & Hw & He).
  constructor; rewrite ?Hf, ?Hq, ?Hs, ?Hw; auto.
  - intros h x Hx. destruct (W1 h x Hx) as (i & Hp & Hlt).
    exists i. split; [exact Hp | lia].
  - intros e x Hx. rewrite He in Hx.
    apply lookup_app_Some in Hx as [Hx | [_ Hx]]; [eapply W6; eauto|].
    destruct (e - length (emitters st))%nat; [|destruct n; discriminate].
    injection Hx as <-. exact I.
Qed.

Lemma never_sent_requestEvent i st ch name arg :
  never_sent i st -> never_sent i (fst (requestEvent st ch name arg)).
Proof.
  intros [N1 N2 N3 N4].
  destruct (requestEvent_fields st ch name arg)
    as (Hf & Hi & Hs & Hq & Hw & He).
  constructor; rewrite ?Hq, ?Hw, ?Hf; auto. lia.
Qed.

Lemma same_core_set_emitter st e f :
  (forall x, e_raw (f x) = e_raw x) -> same_core st (set_emitter e f st).
Proof.
  intros Hf. repeat split; try reflexivity; try lia.
  apply raws_set_emitter, Hf.
Qed.

Lemma same_core_trans a b c : same_core a b -> same_core b c -> same_core a c.
Proof.
  intros (A1 & A2 & A3 & A4 & A5 & A6) (B1 & B2 & B3 & B4 & B5 & B6).
  repeat split; try congruence. lia.
Qed.

Lemma same_core_refl a : same_core a a.
Proof. repeat split; first [reflexivity | lia]. Qed.

(** [subscribe] and [unsubscribe] leave the core alone, or send one
    request that is not a Promise request. *)
Lemma subscribe_cases st e :
  well_formed st ->
  same_core st (subscribe st e)
  \/ exists mid r,
       same_core st mid /\ is_listen_request r
       /\ state st <> Uninitialized
       /\ subscribe st e = sendRequest mid r.
Proof.
  intros W. unfold subscribe.
  destruct (emitters st !! e) as [x|] eqn:Ex; [|left; apply same_core_refl].
  destruct (e_subscribers x).
  - destruct (is_Uninitialized (state (set_emitter e (with_subscribers 1) st)))
      eqn:Eu.
    + left. eapply same_core_trans;
        [apply (same_core_set_emitter st e (with_subscribers 1)); reflexivity|].
      eapply same_core_trans;
        [apply (same_core_set_emitter _ e (with_uninitialized true));
         reflexivity|].
      repeat split; first [reflexivity | lia].
    + right. eexists _, _. split;
        [apply (same_core_set_emitter st e (with_subscribers 1)); reflexivity|].
      split; [|split; [|reflexivity]].
      * apply (wf_emitters st W e x Ex).
      * cbn [state set_emitter set_emitters] in Eu. intros Hu.
        rewrite Hu in Eu. discriminate.
  - left. apply same_core_set_emitter. reflexivity.
Qed.

Lemma unsubscribe_cases st e :
  same_core st (unsubscribe st e)
  \/ exists mid r,
       same_core st mid /\ (exists id, r = RawEventDispose id)
       /\ unsubscribe st e = sendRequest mid r.
Proof.
  unfold unsubscribe.
  destruct (emitters st !! e) as [x|] eqn:Ex; [|left; apply same_core_refl].
  destruct (e_subscribers x) as [|[|n]].
  - left. apply same_core_refl.
  - destruct (e_uninitialized x).
    + left. eapply same_core_trans;
        [apply (same_core_set_emitter st e (with_subscribers 0)); reflexivity|].
      eapply same_core_trans;
        [apply (same_core_set_emitter _ e (with_uninitialized false));
         reflexivity|].
      repeat split; first [reflexivity | lia].
    + right. eexists _, _. split;
        [apply (same_core_set_emitter st e (with_subscribers 0)); reflexivity|].
      split; [eexists; reflexivity | reflexivity].
  - left. apply same_core_set_emitter. reflexivity.
Qed.

(** *** The handlers *)

Lemma handle_cases st hd response :
  same_core st (state_of (handle host_error st hd response))
  \/ exists h, retires h st (state_of (handle host_error st hd response)).
Proof.
  destruct hd as [h|e]; cbn [handle].
  - destruct (futures st !! h) as [x|]; [|left; apply same_core_refl].
    set (un := set_handlers _ st).
    assert (Hret : forall s, s <> Pending ->
              retires h st (settle_future h s un)).
    { intros s Hs. apply (retires_settle_future h s un Hs). }
    destruct response as [|id data|id data|id data|id data]; cbn [state_of].
    + left. apply same_core_refl.
    + right. exists h. apply Hret. discriminate.
    + destruct (get data "message"), (get data "stack"), (get data "name");
        cbn [state_of];
        try (left; repeat split; first [reflexivity | lia]).
      right. exists h. apply Hret. discriminate.
    + right. exists h. apply Hret. discriminate.
    + left. apply same_core_refl.
  - destruct response as [|id data|id data|id data|id data]; cbn [state_of];
      try (left; apply same_core_refl);
      (destruct (emitters st !! e) as [x|]; [|left; apply same_core_refl]);
      (destruct (e_subscribers x); [left; apply same_core_refl|]);
      left; apply same_core_set_emitter; reflexivity.
Qed.

(** *** The Initialize response *)

Lemma initialized_fields ws st :
  let st' := fold_left initialized ws st in
  futures st' = futures st /\ lastRequestId st' = lastRequestId st
  /\ bufferedRequests st' = bufferedRequests st /\ state st' = state st
  /\ map e_raw (emitters st') = map e_raw (emitters st).
Proof.
  revert st. induction ws as [|e ws IH]; intros st; [repeat split|].
  cbn [fold_left]. destruct (IH (initialized st e)) as (A & B & C & D & E).
  cbv zeta. rewrite A, B, C, D, E. unfold initialized.
  destruct (emitters st !! e) as [x|] eqn:Ex; [|repeat split].
  rewrite sendRequest_frame.
  cbn [sendRawMessage set_sent futures lastRequestId bufferedRequests state
       emitters].
  repeat split; try reflexivity.
  apply (raws_set_emitter st e (with_uninitialized false)). reflexivity.
Qed.

Lemma flush_fields q st :
  let st' := fold_left flush_request q st in
  lastRequestId st' = lastRequestId st
  /\ bufferedRequests st' = bufferedRequests st /\ state st' = state st
  /\ emitters st' = emitters st
  /\ forall h,
       futures st' !! h
       = if flushed q h then with_kind (Buffered true) <$> futures st !! h
         else futures st !! h.
Proof.
  revert st. induction q as [|r q IH]; intros st; [repeat split|].
  cbn [fold_left]. destruct (IH (flush_request st r)) as (A & B & C & D & E).
  cbv zeta. rewrite A, B, C, D.
  assert (Hr : lastRequestId (flush_request st r) = lastRequestId st
               /\ bufferedRequests (flush_request st r) = bufferedRequests st
               /\ state (flush_request st r) = state st
               /\ emitters (flush_request st r) = emitters st
               /\ forall h,
                    futures (flush_request st r) !! h
                    = if flush r && Nat.eqb (owner r) h
                      then with_kind (Buffered true) <$> futures st !! h
                      else futures st !! h).
  { unfold flush_request. destruct (flush r); [|repeat split].
    unfold doRequest. rewrite sendRequest_frame.
    repeat split. intros h. rewrite lookup_set_future.
    cbn [futures sendRawMessage set_sent set_handlers andb].
    destruct (decide (h = owner r)) as [->|Hne].
    - rewrite Nat.eqb_refl. reflexivity.
    - destruct (Nat.eqb_spec (owner r) h); [congruence | reflexivity]. }
  destruct Hr as (A' & B' & C' & D' & E').
  repeat split; auto. intros h. rewrite E, E'. cbn [flushed existsb].
  fold (flushed q h).
  destruct (flush r && Nat.eqb (owner r) h), (flushed q h); cbn [orb];
    try reflexivity.
  destruct (futures st !! h); reflexivity.
Qed.

Lemma in_listen_frames st ws buf :
  (forall e x, emitters st !! e = Some x -> is_listen_request (e_raw x)) ->
  In buf (listen_frames (map e_raw (emitters st)) ws) ->
  exists r, buf = request_frame r /\ is_listen_request r.
Proof.
  intros W Hin. unfold listen_frames in Hin.
  apply in_flat_map in Hin as (e & _ & Hin).
  change (map e_raw (emitters st)) with (e_raw <$> emitters st) in Hin.
  rewrite list_lookup_fmap in Hin.
  destruct (emitters st !! e) as [x|] eqn:Ex; [|destruct Hin].
  destruct Hin as [<- | []]. exists (e_raw x). split; [reflexivity|].
  eapply W. exact Ex.
Qed.

Lemma in_flush_frames q buf :
  In buf (flush_frames q) <->
  exists r, In r q /\ flush r = true /\ buf = request_frame (raw r).
Proof.
  unfold flush_frames. rewrite in_flat_map. split.
  - intros (r & Hin & Hb). exists r. destruct (flush r); [|destruct Hb].
    destruct Hb as [<- | []]. auto.
  - intros (r & Hin & Hf & ->). exists r. split; [exact Hin|].
    rewrite Hf. left. reflexivity.
Qed.

(** The client after the Initialize response. *)
Lemma Initialize_fields st :
  let st' := state_of (onResponse host_error st RawInitialize) in
  state st' = Idle
  /\ lastRequestId st' = lastRequestId st
  /\ bufferedRequests st' = None
  /\ map e_raw (emitters st') = map e_raw (emitters st)
  /\ sent st'
     = sent st ++ listen_frames (map e_raw (emitters st)) (waiting st)
         ++ match bufferedRequests st with
            | Some q => flush_frames q
            | None => []
            end
  /\ forall h,
       futures st' !! h
       = match bufferedRequests st with
         | Some q =>
             if flushed q h then with_kind (Buffered true) <$> futures st !! h
             else futures st !! h
         | None => futures st !! h
         end.
Proof.
  cbv zeta.
  destruct (bufferedRequests st) as [q|] eqn:Eq.
  - rewrite (sent_Initialize host_error st q Eq).
    unfold onResponse.
    destruct (initialized_fields (waiting (set_state Idle st)) (set_state Idle st))
      as (A & B & C & D & E).
    cbn [bufferedRequests set_waiting]. cbv zeta in C. rewrite C.
    cbn [bufferedRequests set_state]. rewrite Eq. cbn [state_of].
    set (st2 := set_waiting _ _).
    destruct (flush_fields q st2) as (A2 & B2 & C2 & D2 & E2).
    cbn [state lastRequestId bufferedRequests emitters futures
         set_bufferedRequests].
    cbv zeta in A2, C2, D2, E2. rewrite A2, C2, D2.
    subst st2. cbn [state lastRequestId emitters set_waiting].
    cbv zeta in A, B, D, E. rewrite B, D, E.
    repeat split. intros h. rewrite E2. cbn [futures set_waiting].
    rewrite A. reflexivity.
  - unfold onResponse.
    destruct (initialized_fields (waiting (set_state Idle st)) (set_state Idle st))
      as (A & B & C & D & E).
    cbn [bufferedRequests set_waiting]. cbv zeta in C. rewrite C.
    cbn [bufferedRequests set_state]. rewrite Eq. cbn [state_of].
    cbn [state lastRequestId bufferedRequests emitters futures sent
         set_waiting].
    cbv zeta in A, B, D, E. rewrite A, B, D, E, C, sent_fold_initialized.
    rewrite app_nil_r. repeat split. exact Eq.
Qed.

Lemma well_formed_Initialize st :
  well_formed st ->
  well_formed (state_of (onResponse host_error st RawInitialize)).
Proof.
  intros [W1 W2 W3 W4 W5 W6].
  destruct (Initialize_fields st) as (Hs & Hi & Hq & He & Hw & Hf).
  set (st' := state_of (onResponse host_error st RawInitialize)) in *.
  assert (Hback : forall h x', futures st' !! h = Some x' ->
            exists x, futures st !! h = Some x /\ f_raw x' = f_raw x
                      /\ f_status x' = f_status x).
  { intros h x' Hx'. rewrite Hf in Hx'.
    destruct (bufferedRequests st) as [q|]; [|eauto].
    destruct (flushed q h); [|eauto].
    destruct (futures st !! h) as [x|]; [|discriminate].
    injection Hx' as <-. eauto. }
  constructor.
  - intros h x' Hx'. destruct (Hback h x' Hx') as (x & Hx & Hr & _).
    rewrite Hr, Hi. eapply W1; eauto.
  - intros h1 h2 x1 x2 H1 H2 E.
    destruct (Hback h1 x1 H1) as (y1 & Hy1 & Hr1 & _).
    destruct (Hback h2 x2 H2) as (y2 & Hy2 & Hr2 & _).
    rewrite Hr1, Hr2 in E. eapply W2; eauto.
  - intros q r Eq. rewrite Hq in Eq. discriminate.
  - intros Hu. rewrite Hs in Hu. discriminate.
  - intros h x' Hx' Hp. split_and?.
    destruct (Hback h x' Hx') as (x & Hx & Hr & Hst).
    rewrite Hst in Hp. specialize (W5 h x Hx Hp).
    rewrite Hf, Hx in Hx'. rewrite Hr, Hs, Hw.
    destruct (bufferedRequests st) as [q|] eqn:Eq.
    + destruct (flushed q h) eqn:Efl.
      * injection Hx' as <-. cbn [with_kind f_kind].
        split; [reflexivity|].
        apply existsb_exists in Efl as (r & Hin & Hr').
        apply andb_prop in Hr' as [Hfl Ho]. apply Nat.eqb_eq in Ho.
        destruct (W3 q r eq_refl Hin) as (y & Hy & Hraw & _).
        rewrite Ho, Hx in Hy. injection Hy as <-.
        apply in_or_app. right. apply in_or_app. right.
        apply in_flush_frames. exists r. rewrite Hraw. auto.
      * injection Hx' as <-.
        destruct (f_kind x) as [|[]].
        -- destruct W5 as [_ Hin]. split; [reflexivity|].
           apply in_or_app. auto.
        -- destruct W5 as [_ Hin]. split; [reflexivity|].
           apply in_or_app. auto.
        -- exfalso. destruct W5 as [_ (q0 & r & Eq0 & Hin & Ho)].
           injection Eq0 as <-.
           destruct (W3 q r eq_refl Hin) as (y & _ & _ & Hfl).
           apply not_true_iff_false in Efl. apply Efl.
           apply existsb_exists. exists r. split; [exact Hin|].
           rewrite Hfl, Ho, Nat.eqb_refl. reflexivity.
    + injection Hx' as <-.
      destruct (f_kind x) as [|[]].
      * destruct W5 as [_ Hin]. split; [reflexivity|]. apply in_or_app. auto.
      * destruct W5 as [_ Hin]. split; [reflexivity|]. apply in_or_app. auto.
      * exfalso. destruct W5 as [Hu _]. destruct (W4 Hu) as [[q0 Eq0] _].
        discriminate.
  - eapply emitters_raw; eauto.
Qed.

Lemma never_sent_Initialize i st :
  well_formed st -> never_sent i st ->
  never_sent i (state_of (onResponse host_error st RawInitialize)).
Proof.
  intros W [N1 N2 N3 N4].
  destruct (Initialize_fields st) as (Hs & Hi & Hq & He & Hw & Hf).
  constructor.
  - rewrite Hw. intros buf Hin Hp.
    apply in_app_or in Hin as [Hin | Hin]; [eapply N1; eauto|].
    apply in_app_or in Hin as [Hin | Hin].
    + apply (in_listen_frames st) in Hin as (r & -> & Hl);
        [|apply (wf_emitters st W)].
      apply request_frame_concerns in Hp as [Hp _].
      destruct r; destruct Hl; destruct Hp as [[] | [id' [=]]].
    + destruct (bufferedRequests st) as [q|] eqn:Eq; [|destruct Hin].
      apply in_flush_frames in Hin as (r & Hin & _ & ->).
      apply request_frame_concerns in Hp as [_ Hid].
      eapply N2; eauto.
  - intros q r Eq. rewrite Hq in Eq. discriminate.
  - rewrite Hi. exact N3.
  - intros h x' Hx' Hid Hp. rewrite Hf in Hx'.
    assert (exists x, futures st !! h = Some x /\ f_raw x' = f_raw x
                      /\ f_status x' = f_status x) as (x & Hx & Hr & Hst).
    { destruct (bufferedRequests st) as [q|]; [|eauto].
      destruct (flushed q h); [|eauto].
      destruct (futures st !! h) as [x|]; [|discriminate].
      injection Hx' as <-. eauto. }
    rewrite Hr in Hid. rewrite Hst in Hp. eapply N4; eauto.
Qed.

(** *** Every step *)

Lemma Initialize_or_not response :
  response = RawInitialize \/ response <> RawInitialize.
Proof. destruct response; auto; right; discriminate. Qed.

Lemma onResponse_cases st response :
  response <> RawInitialize ->
  same_core st (state_of (onResponse host_error st response))
  \/ exists h, retires h st (state_of (onResponse host_error st response)).
Proof.
  intros Hne. unfold onResponse.
  destruct response; try congruence;
    (destruct (handlers st !! _); [apply handle_cases | left; apply same_core_refl]).
Qed.

Lemma well_formed_step st ev :
  well_formed st -> well_formed (step host_error st ev).
Proof.
  intros W. destruct ev as [ch name arg|h|ch name arg|e|e|m|]; cbn [step].
  - apply well_formed_requestPromise, W.
  - apply well_formed_cancel, W.
  - apply well_formed_requestEvent, W.
  - destruct (subscribe_cases st e W) as [Hc | (mid & r & Hc & Hr & Hu & ->)].
    + eapply well_formed_same; eauto.
    + apply well_formed_sendRequest.
      * intros Hu'. destruct Hc as (_ & _ & _ & Hst & _). congruence.
      * eapply well_formed_same; eauto.
  - destruct (unsubscribe_cases st e) as [Hc | (mid & r & Hc & [id ->] & ->)].
    + eapply well_formed_same; eauto.
    + apply well_formed_sendRequest; [intros _ [] |].
      eapply well_formed_same; eauto.
  - destruct (protocolListener st); [|exact W].
    destruct (decode_response m) as [response|] eqn:Ed.
    + rewrite (onRawMessage_decode host_error st m response Ed).
      destruct (Initialize_or_not response) as [->|Hne].
      * apply well_formed_Initialize, W.
      * destruct (onResponse_cases st response Hne) as [Hc | [h R]].
        -- eapply well_formed_same; eauto.
        -- eapply well_formed_retires; eauto.
    + rewrite onRawMessage_undecoded by exact Ed. exact W.
  - unfold dispose.
    assert (Hfold : forall hs x, well_formed x ->
                      well_formed (fold_left cancel hs x)).
    { induction hs as [|h hs IH]; intros x Hx; [exact Hx|].
      cbn [fold_left]. apply IH, well_formed_cancel, Hx. }
    eapply well_formed_same; [|apply Hfold].
    + repeat split; first [reflexivity | lia].
    + eapply well_formed_same; [|exact W].
      repeat split; first [reflexivity | lia].
Qed.

Lemma never_sent_step i st ev :
  well_formed st -> never_sent i st -> never_sent i (step host_error st ev).
Proof.
  intros W N. destruct ev as [ch name arg|h|ch name arg|e|e|m|]; cbn [step].
  - apply never_sent_requestPromise, N.
  - apply never_sent_cancel, N.
  - apply never_sent_requestEvent, N.
  - destruct (subscribe_cases st e W) as [Hc | (mid & r & Hc & Hr & Hu & ->)].
    + eapply never_sent_same; eauto.
    + apply never_sent_sendRequest; [|eapply never_sent_same; eauto].
      destruct r; destruct Hr; intros [[] | [id' [=]]].
  - destruct (unsubscribe_cases st e) as [Hc | (mid & r & Hc & [id ->] & ->)].
    + eapply never_sent_same; eauto.
    + apply never_sent_sendRequest; [|eapply never_sent_same; eauto].
      intros [[] | [id' [=]]].
  - destruct (protocolListener st); [|exact N].
    destruct (decode_response m) as [response|] eqn:Ed.
    + rewrite (onRawMessage_decode host_error st m response Ed).
      destruct (Initialize_or_not response) as [->|Hne].
      * apply never_sent_Initialize; assumption.
      * destruct (onResponse_cases st response Hne) as [Hc | [h R]].
        -- eapply never_sent_same; eauto.
        -- eapply never_sent_retires; eauto.
    + rewrite onRawMessage_undecoded by exact Ed. exact N.
  - unfold dispose.
    assert (Hfold : forall hs x, never_sent i x ->
                      never_sent i (fold_left cancel hs x)).
    { induction hs as [|h hs IH]; intros x Hx; [exact Hx|].
      cbn [fold_left]. apply IH, never_sent_cancel, Hx. }
    eapply never_sent_same; [|apply Hfold].
    + repeat split; first [reflexivity | lia].
    + eapply never_sent_same; [|exact N].
      repeat split; first [reflexivity | lia].
Qed.

Lemma well_formed_new : well_formed new_ChannelClient.
Proof.
  constructor; try (intros; discriminate).
  - intros q r [= <-] [].
  - intros _. split; [eexists; reflexivity | intros buf []].
Qed.

Lemma well_formed_run es st :
  well_formed st -> well_formed (run host_error st es).
Proof.
  revert st. induction es as [|e es IH]; intros st W; [exact W|].
  cbn [run fold_left]. apply IH, well_formed_step, W.
Qed.

Lemma never_sent_run i es st :
  well_formed st -> never_sent i st -> never_sent i (run host_error st es).
Proof.
  revert st. induction es as [|e es IH]; intros st W N; [exact N|].
  cbn [run fold_left].
  apply IH; [apply well_formed_step, W | apply never_sent_step; assumption].
Qed.

(** *** PromiseCancel requests follow Promise requests *)

Lemma cancels_follow_grow a b new :
  sent b = sent a ++ new ->
  (forall buf, In buf new -> frame_of_type RequestType_PromiseCancel buf ->
     exists buf', In buf' (sent a) /\ frame_of_type RequestType_Promise buf') ->
  cancels_follow a -> cancels_follow b.
Proof.
  intros Hs Hn C (buf & Hin & Ht). rewrite Hs in Hin. rewrite Hs.
  assert (exists buf', In buf' (sent a)
                       /\ frame_of_type RequestType_Promise buf')
    as (buf' & Hin' & Ht').
  { apply in_app_or in Hin as [Hin | Hin]; [apply C|]; eauto. }
  exists buf'. split; [apply in_or_app; left|]; assumption.
Qed.

Lemma cancels_follow_same a b :
  sent b = sent a -> cancels_follow a -> cancels_follow b.
Proof.
  intros Hs. apply (cancels_follow_grow a b []).
  - rewrite app_nil_r. exact Hs.
  - intros buf [].
Qed.

Lemma cancels_follow_sendRequest st r :
  ((exists id, r = RawPromiseCancel id) ->
   exists buf, In buf (sent st) /\ frame_of_type RequestType_Promise buf) ->
  cancels_follow st -> cancels_follow (sendRequest st r).
Proof.
  intros Hr. apply (cancels_follow_grow _ _ [request_frame r]).
  - apply sent_sendRequest.
  - intros buf [<- | []] Ht. apply Hr, request_frame_cancel_type, Ht.
Qed.

Lemma cancels_follow_cancel st h :
  well_formed st -> cancels_follow st -> cancels_follow (cancel st h).
Proof.
  intros W C. destruct (futures st !! h) as [x|] eqn:Ex.
  - destruct (f_status x) eqn:Es;
      try (rewrite cancel_settled; [exact C | intros y Hy; congruence]).
    destruct (cancel_pending st h x Ex Es) as [R _].
    destruct R as (_ & _ & _ & _ & _ & Hw & _).
    apply (cancels_follow_same _ _ Hw).
    pose proof (wf_pending st W h x Ex Es) as Hp.
    destruct (wf_ids st W h x Ex) as (i & (c & n & a & Hraw) & _).
    unfold request_sent. destruct (f_kind x) as [|[]]; cbn [andb negb].
    + apply cancels_follow_sendRequest; [|exact C]. intros _.
      destruct Hp as [_ Hin]. eexists. split; [exact Hin|].
      rewrite Hraw. eexists _, _. reflexivity.
    + destruct (is_Uninitialized (state st)); cbn [andb negb]; [exact C|].
      apply cancels_follow_sendRequest; [|exact C]. intros _.
      destruct Hp as [_ Hin]. eexists. split; [exact Hin|].
      rewrite Hraw. eexists _, _. reflexivity.
    + rewrite andb_false_r. exact C.
  - rewrite cancel_settled; [exact C | intros y Hy; congruence].
Qed.

Lemma cancels_follow_step st ev :
  well_formed st -> cancels_follow st -> cancels_follow (step host_error st ev).
Proof.
  intros W C. destruct ev as [ch name arg|h|ch name arg|e|e|m|]; cbn [step].
  - destruct (requestPromise_fields st ch name arg)
      as (_ & _ & _ & _ & _ & Hw).
    eapply cancels_follow_grow; [exact Hw | | exact C].
    intros buf Hin Ht. exfalso.
    destruct (is_Uninitialized (state st)); [destruct Hin|].
    destruct Hin as [<- | []].
    apply request_frame_cancel_type in Ht as [id Ht]. discriminate.
  - apply cancels_follow_cancel; assumption.
  - destruct (requestEvent_fields st ch name arg)
      as (_ & _ & _ & _ & Hw & _).
    apply (cancels_follow_same _ _ Hw), C.
  - destruct (subscribe_cases st e W) as [Hc | (mid & r & Hc & Hr & Hu & ->)].
    + destruct Hc as (_ & _ & _ & _ & Hw & _).
      apply (cancels_follow_same _ _ Hw), C.
    + destruct Hc as (_ & _ & _ & _ & Hw & _).
      apply cancels_follow_sendRequest;
        [|apply (cancels_follow_same _ _ Hw), C].
      intros [id ->]. destruct Hr.
  - destruct (unsubscribe_cases st e) as [Hc | (mid & r & Hc & [id ->] & ->)].
    + destruct Hc as (_ & _ & _ & _ & Hw & _).
      apply (cancels_follow_same _ _ Hw), C.
    + destruct Hc as (_ & _ & _ & _ & Hw & _).
      apply cancels_follow_sendRequest;
        [|apply (cancels_follow_same _ _ Hw), C].
      intros [id' [=]].
  - destruct (protocolListener st); [|exact C].
    destruct (decode_response m) as [response|] eqn:Ed.
    + rewrite (onRawMessage_decode host_error st m response Ed).
      destruct (Initialize_or_not response) as [->|Hne].
      * destruct (Initialize_fields st) as (_ & _ & _ & _ & Hw & _).
        eapply cancels_follow_grow; [exact Hw | | exact C].
        intros buf Hin Ht. exfalso.
        apply in_app_or in Hin as [Hin | Hin].
        -- apply (in_listen_frames st) in Hin as (r & -> & Hl);
             [|apply (wf_emitters st W)].
           apply request_frame_cancel_type in Ht as [id ->]. destruct Hl.
        -- destruct (bufferedRequests st) as [q|] eqn:Eq; [|destruct Hin].
           apply in_flush_frames in Hin as (r & Hin & _ & ->).
           destruct (wf_queue st W q r Eq Hin) as (x & Hx & Hraw & _).
           destruct (wf_ids st W _ x Hx) as (i & (c & n & a & Hraw') & _).
           apply request_frame_cancel_type in Ht as [id Ht]. congruence.
      * destruct (onResponse_cases st response Hne) as [Hc | [h R]].
        -- destruct Hc as (_ & _ & _ & _ & Hw & _).
           apply (cancels_follow_same _ _ Hw), C.
        -- destruct R as (_ & _ & _ & _ & _ & Hw & _).
           apply (cancels_follow_same _ _ Hw), C.
    + rewrite onRawMessage_undecoded by exact Ed. exact C.
  - unfold dispose.
    assert (Hfold : forall hs x, well_formed x -> cancels_follow x ->
                      cancels_follow (fold_left cancel hs x)).
    { induction hs as [|h hs IH]; intros x Wx Hx; [exact Hx|].
      cbn [fold_left].
      apply IH; [apply well_formed_cancel | apply cancels_follow_cancel];
        assumption. }
    eapply cancels_follow_same; [|apply Hfold].
    + reflexivity.
    + eapply well_formed_same; [|exact W].
      repeat split; first [reflexivity | lia].
    + exact C.
Qed.

Lemma cancels_follow_run es st :
  well_formed st -> cancels_follow st ->
  cancels_follow (run host_error st es).
Proof.
  revert st. induction es as [|e es IH]; intros st W C; [exact C|].
  cbn [run fold_left].
  apply IH; [apply well_formed_step, W | apply cancels_follow_step; assumption].
Qed.

Lemma cancels_follow_new : cancels_follow new_ChannelClient.
Proof. intros (buf & [] & _). Qed.

(** *** The queue after a cancel *)

Lemma bufferedRequests_settle_future h s st :
  bufferedRequests (settle_future h s st) = bufferedRequests st.
Proof.
  unfold settle_future. destruct (futures st !! h) as [x|]; [|reflexivity].
  destruct (f_status x); reflexivity.
Qed.

Lemma cancel_queue st h x :
  futures st !! h = Some x -> f_status x = Pending ->
  f_kind x = Buffered false -> state st = Uninitialized ->
  bufferedRequests (cancel st h)
  = option_map (List.filter (fun r => negb (Nat.eqb (owner r) h)))
      (bufferedRequests st).
Proof.
  intros Hx Hp Hk Hu. unfold cancel. rewrite Hx, Hp, Hk, Hu.
  cbn [is_Uninitialized negb]. rewrite bufferedRequests_settle_future.
  reflexivity.
Qed.

End Facts.

(** The client that [new ChannelClient] built, after the events
    [es]. *)
Lemma reached_well_formed host_error es :
  well_formed (run host_error new_ChannelClient es).
Proof. apply well_formed_run, well_formed_new. Qed.

(** C6: cancelling a pending call of a client sends a PromiseCancel
    request exactly when the Promise request of the call had been sent.
    When it had not (the client is not initialized), the request leaves
    the queue, nothing is sent, and no frame for the call is sent at
    any later time. In both cases the promise of the caller settles as
    cancelled. *)
Theorem C6_cancel_sends_iff_sent host_error es h x :
  futures (run host_error new_ChannelClient es) !! h = Some x ->
  f_status x = Pending ->
  exists i,
    request_id (f_raw x) = VNum i
    /\ (exists x', futures (cancel (run host_error new_ChannelClient es) h) !! h
                   = Some x'
                   /\ f_status x' = Canceled)
    /\ ((In (request_frame (f_raw x))
           (sent (run host_error new_ChannelClient es))
         /\ sent (cancel (run host_error new_ChannelClient es) h)
            = sent (run host_error new_ChannelClient es)
                ++ [request_frame (RawPromiseCancel (VNum i))])
        \/ (~ In (request_frame (f_raw x))
               (sent (run host_error new_ChannelClient es))
            /\ queued (run host_error new_ChannelClient es) h
            /\ ~ queued (cancel (run host_error new_ChannelClient es) h) h
            /\ sent (cancel (run host_error new_ChannelClient es) h)
               = sent (run host_error new_ChannelClient es)
            /\ forall es' buf,
                 In buf (sent (run host_error
                                 (cancel (run host_error new_ChannelClient es) h)
                                 es')) ->
                 ~ concerns i buf)).
Proof.
  set (st := run host_error new_ChannelClient es). intros Hx Hp.
  pose proof (reached_well_formed host_error es) as W. fold st in W.
  assert (C : cancels_follow st).
  { apply cancels_follow_run; [apply well_formed_new | apply cancels_follow_new]. }
  destruct (wf_ids st W h x Hx) as (i & (c & n & a & Hraw) & Hlt).
  exists i. split; [rewrite Hraw; reflexivity|].
  destruct (cancel_pending st h x Hx Hp) as [R Hc].
  split; [exact Hc|].
  pose proof (wf_pending st W h x Hx Hp) as Hk.
  assert (Hid : request_id (f_raw x) = VNum i) by (rewrite Hraw; reflexivity).
  destruct (f_kind x) as [|[]] eqn:Ek.
  - left. destruct Hk as [Hst Hin]. split; [exact Hin|].
    destruct R as (_ & _ & _ & _ & _ & Hw & _). rewrite Hw.
    unfold request_sent. rewrite Ek, Hid. apply sent_sendRequest.
  - left. destruct Hk as [Hst Hin]. split; [exact Hin|].
    destruct R as (_ & _ & _ & _ & _ & Hw & _). rewrite Hw.
    unfold request_sent. rewrite Ek, Hst, Hid. apply sent_sendRequest.
  - right. destruct Hk as [Hst Hq].
    destruct (wf_uninitialized st W Hst) as [[q Eq] Hnone].
    assert (Hrs : request_sent st x = false).
    { unfold request_sent. rewrite Ek, Hst. reflexivity. }
    rewrite Hrs in R.
    assert (Hquiet : forall buf, In buf (sent st) -> ~ concerns i buf).
    { intros buf Hin [Hpf | ->].
      - apply (Hnone buf Hin), (promise_frame_type i), Hpf.
      - destruct C as (buf' & Hin' & Ht').
        + eexists. split; [exact Hin|]. eexists _, _. reflexivity.
        + apply (Hnone buf' Hin' Ht'). }
    assert (Hnq : ~ queued (cancel st h) h).
    { intros (q' & r & Eq' & Hin & Ho).
      rewrite (cancel_queue st h x Hx Hp Ek Hst), Eq in Eq'.
      injection Eq' as <-. apply filter_In in Hin as [_ Hf].
      rewrite Ho, Nat.eqb_refl in Hf. discriminate. }
    split; [|split; [exact Hq|split; [exact Hnq|]]].
    { intros Hin. apply (Hquiet _ Hin). left. rewrite Hraw.
      eexists _, _, _. reflexivity. }
    pose proof R as (Ho & Hh & _ & Hi & _ & Hw & _ & Hbq & _).
    split; [exact Hw|].
    intros es' buf Hin.
    assert (N : never_sent i (cancel st h)).
    { constructor.
      - rewrite Hw. exact Hquiet.
      - intros q' r Eq' Hin' Hidr.
        destruct (Hbq q Eq) as (q'' & Eq'' & Hsub & _).
        rewrite Eq' in Eq''. injection Eq'' as <-.
        destruct (wf_queue st W q r Eq (Hsub r Hin')) as (y & Hy & Hry & _).
        assert (owner r = h).
        { apply (wf_distinct st W _ _ y x Hy Hx). congruence. }
        apply Hnq. exists q', r. auto.
      - rewrite Hi. exact Hlt.
      - intros h' x' Hx' Hidx' Hpx'.
        destruct (retires_lookup _ _ _ _ _ R Hx') as (y & Hy & Hry & Hpend).
        destruct (Hpend Hpx') as [Hne ->].
        apply Hne, (wf_distinct st W _ _ y x Hy Hx). congruence. }
    apply (ns_sent i _ (never_sent_run host_error i es' _ (well_formed_cancel st h W) N)),
      Hin.
Qed.

(** The first call of a new client is cancelled before the client is
    initialized. *)
Lemma C6_cancel_sends_iff_sent_witness :
  Client.futures
    (Client.run example_host_error Client.new_ChannelClient
       [Client.Call "echo" "ping" VUndefined]) !! 0%nat
  = Some first_buffered
  /\ exists x',
       Client.futures
         (Client.cancel
            (Client.run example_host_error Client.new_ChannelClient
               [Client.Call "echo" "ping" VUndefined]) 0) !! 0%nat
       = Some x'
       /\ Client.f_status x' = Client.Canceled.
Proof.
  split; [vm_compute; reflexivity|].
  destruct (C6_cancel_sends_iff_sent example_host_error
              [Client.Call "echo" "ping" VUndefined] 0%nat first_buffered)
    as (i & _ & Hx & _); [vm_compute; reflexivity | reflexivity | exact Hx].
Defined.

End CancelFacts.

(** ** The multi-client server *)

Module IPCFacts.
Import Codec IPC ServerVocab ClientVocab IPCVocab.






End IPCFacts.

(** ** What one engine sends, the other reads *)

Module LayoutFacts.
Import Codec CodecVocab ServerVocab ClientVocab LayoutVocab.
Import JSONVocab JSONFacts CodecFacts.

Lemma request_frame_parts r :
  request_frame r = serialize (request_header r) (request_body r).
Proof. destruct r; reflexivity. Qed.

Lemma response_frame_parts r :
  response_frame r = serialize (response_header r) (response_body r).
Proof. destruct r; reflexivity. Qed.

Lemma decode_request_frame r :
  byteLength (header_buffer (request_header r) (request_body r)) < 2 ^ 32 ->
  decode_request (request_frame r) = Some (read_request r).
Proof.
  intros Hfit. unfold decode_request.
  rewrite request_frame_parts, deserialize_serialize by exact Hfit.
  destruct r; reflexivity.
Qed.

Lemma decode_response_frame r :
  byteLength (header_buffer (response_header r) (response_body r)) < 2 ^ 32 ->
  decode_response (response_frame r) = Some (read_response r).
Proof.
  intros Hfit. unfold decode_response.
  rewrite response_frame_parts, deserialize_serialize by exact Hfit.
  destruct r; reflexivity.
Qed.

(** The server reads every frame that [sendRequest] of a client builds
    as the request it was built from: [onRawMessage] finds the type,
    the id, the channel name and the name at the positions where
    [sendRequest] put them, and dispatches that request. *)
Theorem request_read_back host_error (c : Client.ChannelClient)
  (s : Server.ChannelServer) (r : IRawRequest) :
  byteLength (header_buffer (request_header r) (request_body r)) < 2 ^ 32 ->
  exists buf,
    Client.sent (Client.sendRequest c r) = Client.sent c ++ [buf]
    /\ Server.onRawMessage host_error s buf
       = Server.onRequest host_error s (read_request r).
Proof.
  intros Hfit. exists (request_frame r). split.
  - apply ClientFacts.sent_sendRequest.
  - apply ServerFacts.request_decoded, decode_request_frame, Hfit.
Qed.

(** A call of [ping] on [echo] with a structured argument. *)
Lemma request_read_back_witness :
  exists buf,
    Client.sent
      (Client.sendRequest Client.new_ChannelClient
         (RawPromise (VNum 3) (VStr "echo") (VStr "ping")
            (VArr [VNum 1; VStr "two"])))
    = Client.sent Client.new_ChannelClient ++ [buf]
    /\ Server.onRawMessage example_host_error Server.new_ChannelServer buf
       = Server.onRequest example_host_error Server.new_ChannelServer
           (RawPromise (VNum 3) (VStr "echo") (VStr "ping")
              (VArr [VNum 1; VStr "two"])).
Proof.
  apply (request_read_back example_host_error Client.new_ChannelClient
           Server.new_ChannelServer
           (RawPromise (VNum 3) (VStr "echo") (VStr "ping")
              (VArr [VNum 1; VStr "two"]))).
  vm_compute. reflexivity.
Defined.

(** The client reads every frame that [sendResponse] of a server builds
    as the response it was built from, and hands that response to
    [onResponse]. *)
Theorem response_read_back host_error (s : Server.ChannelServer)
  (c : Client.ChannelClient) (r : IRawResponse) :
  byteLength (header_buffer (response_header r) (response_body r)) < 2 ^ 32 ->
  exists buf,
    Server.sent (Server.sendResponse s r) = Server.sent s ++ [buf]
    /\ Client.onRawMessage host_error c buf
       = Client.onResponse host_error c (read_response r).
Proof.
  intros Hfit. exists (response_frame r). split.
  - destruct r; reflexivity.
  - apply ClientFacts.onRawMessage_decode, decode_response_frame, Hfit.
Qed.

(** The answer [polo] to the request 3. *)
Lemma response_read_back_witness :
  exists buf,
    Server.sent
      (Server.sendResponse Server.new_ChannelServer
         (RawPromiseSuccess (VNum 3) (VStr "polo")))
    = Server.sent Server.new_ChannelServer ++ [buf]
    /\ Client.onRawMessage example_host_error Client.new_ChannelClient buf
       = Client.onResponse example_host_error Client.new_ChannelClient
           (RawPromiseSuccess (VNum 3) (VStr "polo")).
Proof.
  apply (response_read_back example_host_error Server.new_ChannelServer
           Client.new_ChannelClient (RawPromiseSuccess (VNum 3) (VStr "polo"))).
  vm_compute. reflexivity.
Defined.

Lemma request_type_no_response type header body r :
  Server.request_of type header body = Some r ->
  Client.response_of type header body = None.
Proof.
  unfold Server.request_of, Client.response_of. intros H.
  destruct type as [| | |n| | | |]; try discriminate.
  destruct n as [|p|p]; try discriminate.
  repeat (match goal with
          | q : positive |- _ =>
              destruct q; try discriminate H; try reflexivity
          end).
Qed.

Lemma response_type_no_request type header body r :
  Client.response_of type header body = Some r ->
  Server.request_of type header body = None.
Proof.
  intros H. destruct (Server.request_of type header body) as [q|] eqn:E;
    [|reflexivity].
  apply request_type_no_response in E. congruence.
Qed.

Lemma request_ignored_by_client host_error (c : Client.ChannelClient)
  (m : list byte) r :
  decode_request m = Some r ->
  Client.onRawMessage host_error c m = Returned c.
Proof.
  intros Hd. unfold decode_request in Hd. unfold Client.onRawMessage.
  destruct (deserialize m) as [[header body]|]; [|discriminate].
  destruct (get_index header 0) as [type|]; [|discriminate].
  rewrite (request_type_no_response _ _ _ _ Hd). reflexivity.
Qed.

Lemma response_ignored_by_server host_error (s : Server.ChannelServer)
  (m : list byte) r :
  decode_response m = Some r ->
  Server.onRawMessage host_error s m = Returned s.
Proof.
  intros Hd. unfold decode_response in Hd. unfold Server.onRawMessage.
  destruct (deserialize m) as [[header body]|]; [|discriminate].
  destruct (get_index header 0) as [type|]; [|discriminate].
  rewrite (response_type_no_request _ _ _ _ Hd). reflexivity.
Qed.

(** Of a channel server and a channel client that listen on the same
    protocol, as in [IPCClient] and in a connection of [IPCServer], at
    most one acts on a frame: a frame that the server dispatches as a
    request returns from the [onRawMessage] of the client with the
    client as it was, and a frame that the client dispatches as a
    response leaves the server as it was. *)
Theorem one_engine_per_frame host_error (s : Server.ChannelServer)
  (c : Client.ChannelClient) (m : list byte) :
  (forall r, decode_request m = Some r ->
             Client.onRawMessage host_error c m = Returned c)
  /\ (forall r, decode_response m = Some r ->
                Server.onRawMessage host_error s m = Returned s).
Proof.
  split; intros r Hd.
  - eapply request_ignored_by_client, Hd.
  - eapply response_ignored_by_server, Hd.
Qed.

Lemma deserialize_raw_frame hs b :
  byteLength (Buffer_from (JSON.text_string (VArr hs))) < 2 ^ 32 ->
  deserialize (raw_frame (VArr hs) b)
  = match deserializeBody b (nth 1 (map JSON.norm hs) VUndefined) with
    | Some body => Some (nth 0 (map JSON.norm hs) VUndefined, body)
    | None => None
    end.
Proof.
  intros Hfit. unfold raw_frame, deserialize.
  assert (Hlen : 0 <= byteLength (Buffer_from (JSON.text_string (VArr hs)))
                 < 2 ^ 32).
  { unfold byteLength in *. lia. }
  rewrite read_write by exact Hlen.
  unfold byteLength.
  rewrite slice_frame, slice_from_frame by apply length_write.
  rewrite toString_from, parse_text.
  cbn [JSON.norm iterate]. reflexivity.
Qed.

Lemma deserializeBody_other_tag b T :
  reads_body T = false -> deserializeBody b (JSON.norm T) = Some VUndefined.
Proof.
  intros H. destruct T as [| | |n| | | |]; try reflexivity.
  cbn [JSON.norm]. unfold reads_body in H. unfold deserializeBody.
  destruct n as [|p|p]; try reflexivity.
  repeat (match goal with
          | q : positive |- _ =>
              destruct q; try discriminate H; try reflexivity
          end).
Qed.

(** A frame whose header JSON has no body-type tag, or a tag other than
    1, 2 and 3, decodes with an [undefined] body, whatever bytes follow
    the header: the [switch] of [deserializeBody] has no default
    case. *)
Theorem body_dropped_without_tag (hs : list value) (b : list byte) :
  byteLength (Buffer_from (JSON.text_string (VArr hs))) < 2 ^ 32 ->
  reads_body (nth 1 hs VUndefined) = false ->
  deserialize (raw_frame (VArr hs) b)
  = Some (nth 0 (map JSON.norm hs) VUndefined, VUndefined).
Proof.
  intros Hfit Ht. rewrite deserialize_raw_frame by exact Hfit.
  assert (E : deserializeBody b (nth 1 (map JSON.norm hs) VUndefined)
              = Some VUndefined).
  { destruct hs as [|h [|T hs]]; try reflexivity.
    cbn [map nth] in *. apply deserializeBody_other_tag, Ht. }
  rewrite E. reflexivity.
Qed.

(** A header with the tag 7, and a header with no tag, before three
    bytes. *)
Lemma body_dropped_without_tag_witness :
  deserialize
    (raw_frame (VArr [VArr [VNum 201; VNum 4]; VNum 7]) (Buffer_from "abc"))
  = Some (VArr [VNum 201; VNum 4], VUndefined)
  /\ deserialize (raw_frame (VArr [VArr [VNum 200]]) (Buffer_from "abc"))
     = Some (VArr [VNum 200], VUndefined).
Proof.
  split.
  - apply (body_dropped_without_tag [VArr [VNum 201; VNum 4]; VNum 7]
             (Buffer_from "abc")); vm_compute; reflexivity.
  - apply (body_dropped_without_tag [VArr [VNum 200]] (Buffer_from "abc"));
      vm_compute; reflexivity.
Defined.

(** *** A second trip through the codec *)

Lemma obj_set_keys k v fs :
  NoDup (map fst fs) -> NoDup (map fst (JSON.obj_set k v fs)).
Proof.
  induction fs as [|[k' v'] fs IH]; intros Hnd.
  - cbn. apply NoDup_singleton.
  - cbn [JSON.obj_set]. destruct (String.eqb k' k) eqn:E.
    + apply String.eqb_eq in E. subst k'. exact Hnd.
    + cbn [map fst] in *. apply NoDup_cons in Hnd as [Hk Hnd].
      apply NoDup_cons. split; [|apply IH, Hnd].
      intros Hin. apply Hk. clear IH Hnd Hk.
      induction fs as [|[k2 v2] fs IH]; cbn [JSON.obj_set map fst] in Hin.
      * apply list_elem_of_singleton in Hin. subst k'.
        rewrite String.eqb_refl in E. discriminate.
      * destruct (String.eqb k2 k) eqn:E2.
        -- apply String.eqb_eq in E2. subst k2. exact Hin.
        -- cbn [map fst] in *. apply elem_of_cons in Hin as [-> | Hin];
             [left | right; apply IH, Hin].
Qed.

Lemma obj_set_values (P : value -> Prop) k v fs :
  P v -> Forall (fun kv => P (snd kv)) fs ->
  Forall (fun kv => P (snd kv)) (JSON.obj_set k v fs).
Proof.
  intros Hv. induction 1 as [|[k' v'] fs Hx Hfs IH]; cbn [JSON.obj_set].
  - repeat constructor. exact Hv.
  - destruct (String.eqb k' k); constructor; assumption.
Qed.

Lemma obj_of_members_clean ms :
  Forall (fun kv => JSON.clean (snd kv) = true) ms ->
  JSON.clean (VObj (JSON.obj_of_members ms)) = true.
Proof.
  intros Hms. unfold JSON.obj_of_members.
  assert (G : forall acc,
            NoDup (map fst acc) ->
            Forall (fun kv => JSON.clean (snd kv) = true) acc ->
            let r := fold_left
                       (fun a kv => JSON.obj_set (fst kv) (snd kv) a) ms acc in
            NoDup (map fst r)
            /\ Forall (fun kv => JSON.clean (snd kv) = true) r).
  { induction Hms as [|[k v] ms Hv Hms IH]; intros acc Hnd Hacc; [auto|].
    cbn [fold_left fst snd]. apply IH.
    - apply obj_set_keys, Hnd.
    - apply (obj_set_values (fun x => JSON.clean x = true)); assumption. }
  destruct (G [] NoDup_nil_2 (Forall_nil_2 _)) as [Hnd Hc].
  cbn [JSON.clean]. apply andb_true_intro. split.
  - apply bool_decide_eq_true. exact Hnd.
  - apply forallb_forall. intros kv Hin.
    rewrite Forall_forall in Hc. apply Hc. apply list_elem_of_In, Hin.
Qed.

Lemma clean_norm v : JSON.clean (JSON.norm v) = true.
Proof.
  induction v as [| |b|n|s|b|xs IH|fs IH] using value_ind; try reflexivity.
  - cbn [JSON.norm JSON.json_of_buffer JSON.clean map fst snd forallb].
    apply andb_true_intro. split; [apply bool_decide_eq_true|].
    + apply NoDup_cons. split; [|apply NoDup_singleton].
      intros Hin. apply list_elem_of_singleton in Hin. discriminate.
    + rewrite !andb_true_r. apply forallb_forall. intros x Hin.
      apply in_map_iff in Hin as (y & <- & _). reflexivity.
  - cbn [JSON.norm JSON.clean]. apply forallb_forall. intros x Hin.
    apply in_map_iff in Hin as (y & <- & Hy).
    rewrite List.Forall_forall in IH. apply IH, Hy.
  - rewrite norm_obj. apply obj_of_members_clean.
    apply Forall_forall. intros kv Hin.
    apply list_elem_of_In, in_map_iff in Hin as ([k x] & <- & Hy).
    apply List.filter_In in Hy as [Hy _].
    rewrite List.Forall_forall in IH. apply (IH _ Hy).
Qed.

Lemma norm_norm v : JSON.norm (JSON.norm v) = JSON.norm v.
Proof. apply norm_clean, clean_norm. Qed.

Lemma norm_body_norm_body V : norm_body (norm_body V) = norm_body V.
Proof. destruct V; try reflexivity; apply norm_norm. Qed.

(** What [deserialize] gives for a frame of [serialize] goes through
    the codec unchanged: building a frame from the decoded header and
    body and decoding it gives that header and that body again. *)
Theorem second_trip_is_exact (H V H' V' : value) :
  byteLength (header_buffer H V) < 2 ^ 32 ->
  byteLength (header_buffer H' V') < 2 ^ 32 ->
  deserialize (serialize H V) = Some (H', V') ->
  deserialize (serialize H' V') = Some (H', V').
Proof.
  intros Hfit Hfit' E.
  rewrite deserialize_serialize in E by exact Hfit.
  injection E as <- <-.
  rewrite deserialize_serialize by exact Hfit'.
  rewrite norm_norm, norm_body_norm_body. reflexivity.
Qed.

(** A header with an [undefined] element and a body with a Buffer
    inside: the first trip turns them into [null] and into the object
    of [toJSON], the second keeps them. *)
Lemma second_trip_is_exact_witness :
  deserialize
    (serialize (VArr [VNum 100; VUndefined])
       (VObj [("blob", VBuf (Buffer_from "hi"))]))
  = Some (VArr [VNum 100; VNull],
          VObj [("blob", JSON.json_of_buffer (Buffer_from "hi"))])
  /\ deserialize
       (serialize (VArr [VNum 100; VNull])
          (VObj [("blob", JSON.json_of_buffer (Buffer_from "hi"))]))
     = Some (VArr [VNum 100; VNull],
             VObj [("blob", JSON.json_of_buffer (Buffer_from "hi"))]).
Proof.
  split; [vm_compute; reflexivity|].
  apply (second_trip_is_exact (VArr [VNum 100; VUndefined])
           (VObj [("blob", VBuf (Buffer_from "hi"))]));
    vm_compute; reflexivity.
Defined.

End LayoutFacts.

(** ** The channel server: cancellation, calls, events and stacks *)

Module ServerEdgeFacts.
Import Codec Server CodecVocab ServerVocab ClientVocab LayoutVocab.

(** A PromiseCancel or EventDispose request for an id under which no
    handle is stored leaves the server as it is, and after any such
    request no handle is stored under its id: a repeated cancellation
    changes nothing. *)
Theorem cancellation_is_idempotent host_error (st : ChannelServer)
  (m : list byte) (id : value) :
  decode_request m = Some (RawPromiseCancel id)
  \/ decode_request m = Some (RawEventDispose id) ->
  exists st1,
    onRawMessage host_error st m = Returned st1
    /\ activeRequests st1 !! ToString id = None
    /\ onRawMessage host_error st1 m = Returned st1
    /\ (activeRequests st !! ToString id = None -> st1 = st).
Proof.
  intros Hd.
  assert (E : forall s, onRawMessage host_error s m
                        = Returned (disposeActiveRequest host_error s id)).
  { intros s. destruct Hd as [Hd | Hd];
      rewrite (ServerFacts.request_decoded host_error s m _ Hd); reflexivity. }
  exists (disposeActiveRequest host_error st id). rewrite !E.
  assert (Hnone : activeRequests (disposeActiveRequest host_error st id)
                    !! ToString id
                  = None).
  { unfold disposeActiveRequest.
    destruct (activeRequests st !! ToString id) eqn:Ek; [|exact Ek].
    cbn [activeRequests activeRequests_delete set_keys_created
         set_activeRequests].
    apply lookup_delete_eq. }
  split; [reflexivity|]. split; [exact Hnone|]. split.
  - f_equal. unfold disposeActiveRequest at 1. rewrite Hnone. reflexivity.
  - intros Hk. unfold disposeActiveRequest. rewrite Hk. reflexivity.
Qed.

(** The cancellation of the call 1 reaches a server that has received
    the call. *)
Lemma cancellation_is_idempotent_witness :
  exists st1,
    onRawMessage example_host_error
      (run example_host_error new_ChannelServer ExampleVocab.ping_received)
      (request_frame ExampleVocab.ping_cancel)
    = Returned st1
    /\ activeRequests st1 !! ToString (VNum 1) = None
    /\ onRawMessage example_host_error st1
         (request_frame ExampleVocab.ping_cancel)
       = Returned st1
    /\ (activeRequests
          (run example_host_error new_ChannelServer ExampleVocab.ping_received)
          !! ToString (VNum 1) = None ->
        st1 = run example_host_error new_ChannelServer
                ExampleVocab.ping_received).
Proof.
  apply (cancellation_is_idempotent example_host_error
           (run example_host_error new_ChannelServer ExampleVocab.ping_received)
           (request_frame ExampleVocab.ping_cancel) (VNum 1)).
  left. vm_compute. reflexivity.
Defined.

(** *** A request for a channel that is not registered *)

(** C10: an EventListen frame for a channel that is not registered
    makes the handler throw, [channel.listen] being reached with no
    guard: the engine is left as it was, so no response frame is sent
    and no cancel handle is registered. A Promise frame for such a
    channel is caught instead: [onRawMessage] returns, and before it
    does the request is answered with a PromiseError response for its
    id, which carries the [TypeError] of the host; the cancel handle is
    stored under the id. *)
Theorem C10_unknown_channel host_error (st : ChannelServer)
  (channelName : string) (id name arg lines : value) :
  channels st !! channelName = None ->
  stack_lines (stack (host_error (PropertyOfUndefined "call"))) = Some lines ->
  byteLength
    (header_buffer
       (request_header (RawEventListen id (VStr channelName) name arg)) arg)
  < 2 ^ 32 ->
  byteLength
    (header_buffer
       (request_header (RawPromise id (VStr channelName) name arg)) arg)
  < 2 ^ 32 ->
  onRawMessage host_error st
    (request_frame (RawEventListen id (VStr channelName) name arg))
  = Threw st (IsError (host_error (PropertyOfUndefined "listen")))
  /\ exists st',
       onRawMessage host_error st
         (request_frame (RawPromise id (VStr channelName) name arg))
       = Returned st'
       /\ sent st'
          = sent st
              ++ [response_frame
                    (RawPromiseError (JSON.norm id)
                       (error_data (host_error (PropertyOfUndefined "call"))
                          lines))]
       /\ activeRequests st' !! ToString (JSON.norm id)
          = Some (CancelPromise (length (promises st))).
Proof.
  intros Hch Hl Hfit1 Hfit2. split.
  - rewrite (ServerFacts.request_decoded host_error _ _ _
               (LayoutFacts.decode_request_frame _ Hfit1)).
    cbn [read_request JSON.norm onRequest]. unfold onEventListen.
    cbn [ToString]. rewrite Hch. reflexivity.
  - rewrite (ServerFacts.request_decoded host_error _ _ _
               (LayoutFacts.decode_request_frame _ Hfit2)).
    cbn [read_request JSON.norm onRequest]. eexists.
    split; [reflexivity|]. split.
    + apply ServerFacts.sent_onPromise_rejected; [|exact Hl].
      cbn [ToString]. rewrite Hch. reflexivity.
    + destruct (ServerFacts.onPromise_kept host_error st (JSON.norm id)
                  (VStr channelName) (JSON.norm name) (norm_body arg))
        as (p & _ & _ & _ & Hh).
      exact Hh.
Qed.

(** A new server has no channel [nowhere]: it throws at the request to
    listen to it and answers the call of it. *)
Lemma C10_unknown_channel_witness :
  onRawMessage example_host_error new_ChannelServer
    (request_frame ExampleVocab.stray_listen)
  = Threw new_ChannelServer
      (IsError (example_host_error (PropertyOfUndefined "listen")))
  /\ exists st',
       onRawMessage example_host_error new_ChannelServer
         (request_frame ExampleVocab.stray_call)
       = Returned st'
       /\ sent st'
          = sent new_ChannelServer
              ++ [response_frame
                    (RawPromiseError (VNum 2)
                       (error_data
                          (example_host_error (PropertyOfUndefined "call"))
                          VUndefined))]
       /\ activeRequests st' !! ToString (VNum 2) = Some (CancelPromise 0).
Proof.
  apply (C10_unknown_channel example_host_error new_ChannelServer "nowhere"
           (VNum 2) (VStr "changed") VUndefined VUndefined);
    vm_compute; reflexivity.
Defined.

(** *** A call of a registered channel *)

(** After [registerChannel(channelName, channel)] a Promise request for
    that channel name reaches [channel.call] with the name and the
    argument of the request as they read back. The promise it returns,
    or the rejection that stands for what it throws, is kept with the
    id of the request, and its cancel handle is stored under that
    id. *)
Theorem registered_channel_is_called host_error (st : ChannelServer)
  (channelName : string) (channel : IChannel) (id name arg : value) :
  byteLength
    (header_buffer
       (request_header (RawPromise id (VStr channelName) name arg)) arg)
  < 2 ^ 32 ->
  exists st2 p,
    onRawMessage host_error (registerChannel st channelName channel)
      (request_frame (RawPromise id (VStr channelName) name arg))
    = Returned st2
    /\ promises st2 = promises st ++ [p]
    /\ p_id p = JSON.norm id
    /\ p_fate p
       = match call channel (JSON.norm name) (norm_body arg) with
         | CallThrows err => Some (Rejected err)
         | CallReturns fate => fate
         end
    /\ activeRequests st2 !! ToString (JSON.norm id)
       = Some (CancelPromise (length (promises st))).
Proof.
  intros Hfit.
  rewrite (ServerFacts.request_decoded host_error _ _ _
             (LayoutFacts.decode_request_frame _ Hfit)).
  cbn [read_request JSON.norm onRequest].
  destruct (ServerFacts.onPromise_kept host_error
              (registerChannel st channelName channel) (JSON.norm id)
              (VStr channelName) (JSON.norm name) (norm_body arg))
    as (p & Hp & Hid & Hf & Hh).
  exists (onPromise host_error (registerChannel st channelName channel)
            (JSON.norm id) (VStr channelName) (JSON.norm name)
            (norm_body arg)), p.
  split; [reflexivity|]. split; [exact Hp|]. split; [exact Hid|].
  split; [|exact Hh].
  rewrite Hf.
  cbn [channels registerChannel set_channels ToString].
  rewrite lookup_insert_eq. reflexivity.
Qed.

(** The call [ping] of the channel [echo], registered on a new
    server. *)
Lemma registered_channel_is_called_witness :
  exists st2 p,
    onRawMessage example_host_error
      (registerChannel new_ChannelServer "echo" pending_channel)
      (request_frame ExampleVocab.ping_request)
    = Returned st2
    /\ promises st2 = [p]
    /\ p_id p = VNum 1
    /\ p_fate p = None
    /\ activeRequests st2 !! ToString (VNum 1) = Some (CancelPromise 0).
Proof.
  apply (registered_channel_is_called example_host_error new_ChannelServer
           "echo" pending_channel (VNum 1) (VStr "ping") VUndefined).
  vm_compute. reflexivity.
Defined.

(** *** Events *)

Lemma listeners_fire st sid data :
  listeners (fire st sid data) = listeners st.
Proof.
  unfold fire. destruct (listeners st !! sid) as [l|]; [|reflexivity].
  destruct (l_live l); [|reflexivity]. destruct st; reflexivity.
Qed.

Lemma sent_fires host_error st sid id datas :
  listeners st !! sid = Some {| l_id := id; l_live := true |} ->
  sent (run host_error st (map (Fire sid) datas))
  = sent st ++ map (fun data => response_frame (RawEventFire id data)) datas.
Proof.
  revert st. induction datas as [|d datas IH]; intros st Hl.
  - cbn. rewrite app_nil_r. reflexivity.
  - cbn [map run fold_left step].
    change (fold_left (step host_error) (map (Fire sid) datas)
              (fire st sid d))
      with (run host_error (fire st sid d) (map (Fire sid) datas)).
    rewrite IH by (rewrite listeners_fire; exact Hl).
    unfold fire. rewrite Hl. cbn [l_live l_id].
    rewrite ServerFacts.sent_sendResponse, <- app_assoc. reflexivity.
Qed.

(** After an EventListen request for a registered channel whose
    [listen] returns an event, the server sends one EventFire response
    for every emission of that event, in the order of the emissions,
    each with the id of the request and the emitted data; the request
    itself is answered with nothing. *)
Theorem emissions_are_sent_in_order host_error (st : ChannelServer)
  (channelName : string) (channel : IChannel) (id name arg : value)
  (datas : list value) :
  protocolListener st = true ->
  listen channel (JSON.norm name) (norm_body arg) = ListenReturns ->
  byteLength
    (header_buffer
       (request_header (RawEventListen id (VStr channelName) name arg)) arg)
  < 2 ^ 32 ->
  sent
    (run host_error (registerChannel st channelName channel)
       (Receive (request_frame (RawEventListen id (VStr channelName) name arg))
          :: map (Fire (length (listeners st))) datas))
  = sent st
      ++ map (fun data => response_frame (RawEventFire (JSON.norm id) data))
           datas.
Proof.
  intros Hp Hl Hfit. cbn [run fold_left step].
  set (st1 := registerChannel st channelName channel).
  assert (Hp1 : protocolListener st1 = true) by exact Hp.
  assert (Hc : channels st1 !! channelName = Some channel)
    by apply lookup_insert_eq.
  rewrite Hp1.
  rewrite (ServerFacts.request_decoded host_error _ _ _
             (LayoutFacts.decode_request_frame _ Hfit)).
  cbn [read_request JSON.norm onRequest]. unfold onEventListen.
  cbn [ToString]. rewrite Hc, Hl. cbn [state_of].
  match goal with
  | |- sent (fold_left _ _ ?s) = _ =>
      change (sent (run host_error s (map (Fire (length (listeners st))) datas))
              = sent st
                  ++ map (fun data =>
                            response_frame (RawEventFire (JSON.norm id) data))
                       datas)
  end.
  erewrite sent_fires; [reflexivity|].
  cbn [listeners activeRequests_set set_keys_created set_activeRequests
       set_listeners].
  apply list_lookup_middle. reflexivity.
Qed.

(** Two emissions of an event of the channel [echo]. *)
Lemma emissions_are_sent_in_order_witness :
  sent
    (run example_host_error
       (registerChannel new_ChannelServer "echo" pending_channel)
       (Receive
          (request_frame
             (RawEventListen (VNum 5) (VStr "echo") (VStr "pong") VUndefined))
          :: map (Fire (length (listeners new_ChannelServer)))
               [VStr "a"; VStr "b"]))
  = sent new_ChannelServer
      ++ map (fun data => response_frame (RawEventFire (VNum 5) data))
           [VStr "a"; VStr "b"].
Proof.
  apply (emissions_are_sent_in_order example_host_error new_ChannelServer
           "echo" pending_channel (VNum 5) (VStr "pong") VUndefined
           [VStr "a"; VStr "b"]); vm_compute; reflexivity.
Defined.

(** *** The stack of a transmitted error *)

Lemma append_cons a (s t : string) :
  (String.String a s +:+ t = String.String a (s +:+ t))%string.
Proof. reflexivity. Qed.

Lemma append_empty (s : string) : s +:+ EmptyString = s.
Proof.
  induction s as [|a s IH]; [reflexivity|].
  rewrite append_cons, IH. reflexivity.
Qed.

Lemma append_shift (cur : string) c (s : string) :
  (cur +:+ String.String c EmptyString) +:+ s = cur +:+ String.String c s.
Proof.
  induction cur as [|a cur IH]; [reflexivity|].
  rewrite !append_cons, IH. reflexivity.
Qed.

Lemma split_lines_aux_cons cur s :
  exists l ls, split_lines_aux cur s = l :: ls.
Proof.
  revert cur. induction s as [|c s IH]; intros cur; cbn [split_lines_aux].
  - eauto.
  - destruct (Ascii.eqb c JSON.ch_lf); [eauto | apply IH].
Qed.

Lemma concat_split_lines_aux cur s :
  String.concat line_feed (split_lines_aux cur s) = cur +:+ s.
Proof.
  revert cur. induction s as [|c s IH]; intros cur.
  - cbn [split_lines_aux String.concat]. rewrite append_empty. reflexivity.
  - cbn [split_lines_aux]. destruct (Ascii.eqb c JSON.ch_lf) eqn:E.
    + apply Ascii.eqb_eq in E. subst c.
      specialize (IH EmptyString).
      destruct (split_lines_aux_cons EmptyString s) as (l & ls & El).
      assert (Hc : String.concat line_feed
                     (cur :: split_lines_aux EmptyString s)
                   = cur +:+ line_feed
                       +:+ String.concat line_feed
                             (split_lines_aux EmptyString s)).
      { rewrite El. reflexivity. }
      rewrite Hc, IH. reflexivity.
    + rewrite IH. apply append_shift.
Qed.

Lemma one_line_append a b :
  one_line (a +:+ b) = one_line a && one_line b.
Proof.
  induction a as [|c a IH]; [reflexivity|].
  rewrite append_cons. cbn [one_line]. rewrite IH, andb_assoc. reflexivity.
Qed.

Lemma one_line_split_lines_aux cur s :
  one_line cur = true ->
  List.Forall (fun l => one_line l = true) (split_lines_aux cur s).
Proof.
  revert cur. induction s as [|c s IH]; intros cur Hc.
  - repeat constructor. exact Hc.
  - cbn [split_lines_aux]. destruct (Ascii.eqb c JSON.ch_lf) eqn:E.
    + constructor; [exact Hc | apply IH; reflexivity].
    + apply IH. rewrite one_line_append, Hc. cbn [one_line].
      rewrite E. reflexivity.
Qed.

(** The response that the error callback of [onPromise] sends for an
    [Error] whose stack is a string: a PromiseError whose data holds
    the message, the name and, as the stack, the lines of that string;
    joined with line feeds they give the stack back, and none of them
    holds a line feed. The empty stack is sent as [undefined]. *)
Theorem error_stack_travels_as_lines (id msg nm : value) (s : string) :
  exists st,
    response_of id
      (Rejected (IsError {| message := msg; name := nm; stack := VStr s |}))
    = Some (RawPromiseError id
              (VObj [("message", msg); ("name", nm); ("stack", st)]))
    /\ (s = EmptyString -> st = VUndefined)
    /\ (s <> EmptyString ->
        exists lines,
          st = VArr (map VStr lines)
          /\ String.concat line_feed lines = s
          /\ List.Forall (fun l => one_line l = true) lines).
Proof.
  destruct s as [|c s].
  - exists VUndefined. split; [reflexivity|]. split; [reflexivity|].
    intros H. contradiction.
  - exists (VArr (map VStr (split_lines (String.String c s)))).
    split; [reflexivity|]. split; [discriminate|]. intros _.
    exists (split_lines (String.String c s)). split; [reflexivity|].
    split.
    + apply (concat_split_lines_aux EmptyString).
    + apply one_line_split_lines_aux. reflexivity.
Qed.

End ServerEdgeFacts.

(** ** The channel client: request ids and the initialization *)

Module ClientEdgeFacts.
Import Codec Client CodecVocab ServerVocab ClientVocab CancelVocab.
Import ClientEdgeVocab.
Import ClientFacts CancelFacts.

Lemma issued_keeps a b :
  keeps_requests a b -> issued b = issued a.
Proof.
  intros (Hf & He & _). unfold issued.
  rewrite <- !(map_map f_raw request_id), <- !(map_map e_raw request_id).
  rewrite Hf, He. reflexivity.
Qed.

Lemma keeps_requests_refl a : keeps_requests a a.
Proof. repeat split. lia. Qed.

Lemma keeps_requests_trans a b c :
  keeps_requests a b -> keeps_requests b c -> keeps_requests a c.
Proof.
  intros (F1 & E1 & L1) (F2 & E2 & L2). repeat split; [congruence.. | lia].
Qed.

Lemma keeps_requests_same a b : same_core a b -> keeps_requests a b.
Proof.
  intros (Hf & Hi & _ & _ & _ & He). repeat split; [|exact He|exact Hi].
  rewrite Hf. reflexivity.
Qed.

Lemma keeps_requests_retires h a b : retires h a b -> keeps_requests a b.
Proof.
  intros (Ho & Hh & Hn & Hi & _ & _ & He & _).
  repeat split; [|exact He|lia].
  apply list_eq. intros i.
  change (map f_raw (futures b)) with (f_raw <$> futures b).
  change (map f_raw (futures a)) with (f_raw <$> futures a).
  rewrite !list_lookup_fmap.
  destruct (decide (i = h)) as [->|Hne]; [|rewrite Ho by exact Hne; reflexivity].
  destruct (futures a !! h) as [x|] eqn:Ex.
  - destruct (Hh x eq_refl) as (x' & -> & Hr & _). cbn. congruence.
  - rewrite (Hn eq_refl). reflexivity.
Qed.

Lemma keeps_requests_sendRequest st r : keeps_requests st (sendRequest st r).
Proof. rewrite sendRequest_frame. repeat split. cbn. lia. Qed.

Lemma keeps_requests_cancel st h : keeps_requests st (cancel st h).
Proof.
  destruct (futures st !! h) as [x|] eqn:Ex.
  - destruct (f_status x) eqn:Es;
      try (rewrite cancel_settled;
           [apply keeps_requests_refl | intros y Hy; congruence]).
    destruct (cancel_pending st h x Ex Es) as [R _].
    apply keeps_requests_retires in R.
    destruct (request_sent st x); [|exact R].
    eapply keeps_requests_trans; [apply keeps_requests_sendRequest | exact R].
  - rewrite cancel_settled; [apply keeps_requests_refl|].
    intros y Hy. congruence.
Qed.

Section Facts.
Variable host_error : fault -> JSError.

Lemma keeps_requests_Initialize st :
  keeps_requests st (state_of (onResponse host_error st RawInitialize)).
Proof.
  destruct (Initialize_fields host_error st) as (_ & Hi & _ & He & _ & Hf).
  repeat split; [|exact He|lia].
  apply list_eq. intros i.
  change (map f_raw ?l) with (f_raw <$> l).
  rewrite !list_lookup_fmap, Hf.
  destruct (bufferedRequests st) as [q|]; [|reflexivity].
  destruct (flushed q i); [|reflexivity].
  destruct (futures st !! i); reflexivity.
Qed.

Lemma keeps_requests_dispose st : keeps_requests st (dispose st).
Proof.
  unfold dispose.
  assert (Hfold : forall hs x, keeps_requests x (fold_left cancel hs x)).
  { induction hs as [|h hs IH]; intros x; [apply keeps_requests_refl|].
    cbn [fold_left].
    eapply keeps_requests_trans; [apply keeps_requests_cancel | apply IH]. }
  eapply keeps_requests_trans; [|eapply keeps_requests_trans; [apply Hfold|]].
  - instantiate (1 := set_protocolListener false st). repeat split. cbn. lia.
  - repeat split. cbn. lia.
Qed.

(** Every step keeps the requests of the client or adds one with the
    next id. *)
Lemma step_requests st ev :
  well_formed st ->
  keeps_requests st (step host_error st ev)
  \/ one_more_request st (step host_error st ev).
Proof.
  intros W. destruct ev as [ch name arg|h|ch name arg|e|e|m|]; cbn [step].
  - right. destruct (requestPromise_fields st ch name arg)
      as (Hf & Hi & _ & He & _).
    split; [exact Hi|]. left. eexists. rewrite Hf, He, map_app.
    split; [reflexivity|]. split; reflexivity.
  - left. apply keeps_requests_cancel.
  - right. destruct (requestEvent_fields st ch name arg)
      as (Hf & Hi & _ & _ & _ & He).
    split; [exact Hi|]. right. eexists. rewrite Hf, He, map_app.
    split; [reflexivity|]. split; reflexivity.
  - left. destruct (subscribe_cases st e W) as [Hc | (mid & r & Hc & _ & _ & ->)].
    + apply keeps_requests_same, Hc.
    + eapply keeps_requests_trans;
        [apply keeps_requests_same, Hc | apply keeps_requests_sendRequest].
  - left. destruct (unsubscribe_cases st e) as [Hc | (mid & r & Hc & _ & ->)].
    + apply keeps_requests_same, Hc.
    + eapply keeps_requests_trans;
        [apply keeps_requests_same, Hc | apply keeps_requests_sendRequest].
  - left. destruct (protocolListener st); [|apply keeps_requests_refl].
    destruct (decode_response m) as [response|] eqn:Ed.
    + rewrite (onRawMessage_decode host_error st m response Ed).
      destruct (Initialize_or_not response) as [->|Hne].
      * apply keeps_requests_Initialize.
      * destruct (onResponse_cases host_error st response Hne) as [Hc | [h R]].
        -- apply keeps_requests_same, Hc.
        -- eapply keeps_requests_retires, R.
    + rewrite onRawMessage_undecoded by exact Ed. apply keeps_requests_refl.
  - left. apply keeps_requests_dispose.
Qed.

Lemma given_out_later a b id :
  lastRequestId a <= lastRequestId b -> given_out a id -> given_out b id.
Proof. intros Hl (i & -> & Hi). exists i. split; [reflexivity | lia]. Qed.

Lemma fresh_step st ev :
  well_formed st ->
  0 <= lastRequestId st ->
  NoDup (issued st) /\ List.Forall (given_out st) (issued st) ->
  0 <= lastRequestId (step host_error st ev)
  /\ NoDup (issued (step host_error st ev))
  /\ List.Forall (given_out (step host_error st ev))
       (issued (step host_error st ev)).
Proof.
  intros W Hpos [Hnd Hall].
  destruct (step_requests st ev W) as [K | [Hi Hone]].
  - pose proof K as (_ & _ & Hl). rewrite (issued_keeps _ _ K).
    split; [lia|]. split; [exact Hnd|].
    eapply List.Forall_impl; [|exact Hall].
    intros id. apply given_out_later, Hl.
  - split; [lia|].
    set (st' := step host_error st ev) in *.
    assert (Hnew : ~ In (VNum (lastRequestId st)) (issued st)).
    { intros Hin. rewrite List.Forall_forall in Hall.
      destruct (Hall _ Hin) as (i & [= <-] & Hlt). lia. }
    assert (Hlater : forall id, given_out st id -> given_out st' id).
    { intros id. apply given_out_later. lia. }
    assert (Hthis : given_out st' (VNum (lastRequestId st))).
    { eexists. split; [reflexivity | lia]. }
    unfold issued in *.
    rewrite <- !(map_map f_raw request_id), <- !(map_map e_raw request_id)
      in *.
    destruct Hone as [(r & Hf & Hr & He) | (r & He & Hr & Hf)];
      rewrite Hf, He, map_app; cbn [map]; rewrite Hr.
    + set (A := map request_id (map f_raw (futures st))) in *.
      set (B := map request_id (map e_raw (emitters st))) in *.
      split.
      * rewrite <- app_assoc. cbn [app].
        apply NoDup_ListNoDup. apply NoDup_ListNoDup in Hnd.
        apply (List.NoDup_Add (a := VNum (lastRequestId st)) (l := A ++ B)).
        -- apply List.Add_app.
        -- split; assumption.
      * rewrite <- app_assoc. cbn [app].
        apply List.Forall_app in Hall as [HA HB].
        apply List.Forall_app. split.
        -- eapply List.Forall_impl; [apply Hlater | exact HA].
        -- constructor; [exact Hthis|].
           eapply List.Forall_impl; [apply Hlater | exact HB].
    + set (A := map request_id (map f_raw (futures st))) in *.
      set (B := map request_id (map e_raw (emitters st))) in *.
      split.
      * rewrite app_assoc.
        apply NoDup_ListNoDup. apply NoDup_ListNoDup in Hnd.
        apply (List.NoDup_Add (a := VNum (lastRequestId st)) (l := A ++ B)).
        -- rewrite <- (app_nil_r (A ++ B)) at 1. apply List.Add_app.
        -- split; assumption.
      * rewrite app_assoc. apply List.Forall_app. split.
        -- eapply List.Forall_impl; [apply Hlater | exact Hall].
        -- repeat constructor. exact Hthis.
Qed.

(** *** After the initialization *)

Lemma waiting_flush q st :
  waiting (fold_left flush_request q st) = waiting st.
Proof.
  revert st. induction q as [|r q IH]; intros st; [reflexivity|].
  cbn [fold_left]. rewrite IH. unfold flush_request, doRequest.
  destruct (flush r); [|reflexivity].
  rewrite sendRequest_frame. reflexivity.
Qed.

Lemma cancel_side st h :
  state (cancel st h) = state st
  /\ (bufferedRequests st = None -> bufferedRequests (cancel st h) = None)
  /\ waiting (cancel st h) = waiting st.
Proof.
  unfold cancel, settle_future.
  repeat (case_match; try (rewrite sendRequest_frame in *);
          cbn in *; subst; try done).
  all: repeat split; try done; intros ->; reflexivity.
Qed.

Lemma settled_in_step st ev :
  settled_in st -> settled_in (step host_error st ev).
Proof.
  intros S. destruct ev as [ch name arg|h|ch name arg|e|e|m|]; cbn [step].
  - destruct (requestPromise_fields st ch name arg)
      as (_ & _ & Hst & _ & Hq & _).
    intros Hs. rewrite Hst in Hs. destruct (S Hs) as [Hq0 Hw0].
    rewrite Hq, Hs. cbn [is_Uninitialized]. split; [exact Hq0|].
    rewrite <- Hw0. unfold requestPromise, bufferRequest, doRequest.
    destruct (is_Uninitialized _); rewrite ?sendRequest_frame; reflexivity.
  - intros Hs.
    assert (E : state (cancel st h) = state st
                /\ (bufferedRequests st = None ->
                    bufferedRequests (cancel st h) = None)
                /\ waiting (cancel st h) = waiting st).
    { apply cancel_side. }
    destruct E as (E1 & E2 & E3). rewrite E1 in Hs. rewrite E3.
    destruct (S Hs) as [Hq Hw]. auto.
  - intros Hs. apply S, Hs.
  - intros Hs.
    assert (E : state (subscribe st e) = state st
                /\ bufferedRequests (subscribe st e) = bufferedRequests st
                /\ (state st = Idle ->
                    waiting (subscribe st e) = waiting st)).
    { unfold subscribe.
      repeat (case_match; try (rewrite sendRequest_frame in *);
              cbn in *; subst; try done).
      repeat split. intros Hi. destruct (state st); cbn in *; congruence. }
    destruct E as (E1 & E2 & E3). rewrite E1 in Hs. rewrite E2, (E3 Hs).
    apply S, Hs.
  - intros Hs.
    assert (E : state (unsubscribe st e) = state st
                /\ bufferedRequests (unsubscribe st e) = bufferedRequests st
                /\ (waiting st = [] -> waiting (unsubscribe st e) = [])).
    { unfold unsubscribe.
      repeat (case_match; try (rewrite sendRequest_frame in *);
              cbn in *; subst; try done).
      repeat split. intros ->. reflexivity. }
    destruct E as (E1 & E2 & E3). rewrite E1 in Hs. rewrite E2.
    destruct (S Hs) as [Hq Hw]. auto.
  - destruct (protocolListener st); [|exact S].
    destruct (decode_response m) as [response|] eqn:Ed.
    + rewrite (onRawMessage_decode host_error st m response Ed).
      destruct (Initialize_or_not response) as [->|Hne].
      * intros _.
        destruct (Initialize_fields host_error st) as (_ & _ & Hq & _).
        split; [exact Hq|].
        cbn [onResponse]. repeat case_match; cbn [state_of];
          [cbn [waiting set_bufferedRequests]; rewrite waiting_flush|];
          reflexivity.
      * intros Hs.
        assert (E : state (state_of (onResponse host_error st response))
                    = state st
                    /\ bufferedRequests
                         (state_of (onResponse host_error st response))
                       = bufferedRequests st
                    /\ waiting (state_of (onResponse host_error st response))
                       = waiting st).
        { unfold onResponse, handle, settle_future.
          repeat (case_match; cbn in *; subst; try done). }
        destruct E as (E1 & E2 & E3). rewrite E1 in Hs. rewrite E2, E3.
        apply S, Hs.
    + rewrite onRawMessage_undecoded by exact Ed. exact S.
  - unfold dispose.
    assert (Hfold : forall hs x, settled_in x ->
                      settled_in (fold_left cancel hs x)).
    { induction hs as [|h hs IH]; intros x Hx; [exact Hx|].
      cbn [fold_left]. apply IH. intros Hs.
      assert (E : state (cancel x h) = state x
                  /\ (bufferedRequests x = None ->
                      bufferedRequests (cancel x h) = None)
                  /\ waiting (cancel x h) = waiting x).
      { apply cancel_side. }
      destruct E as (E1 & E2 & E3). rewrite E1 in Hs. rewrite E3.
      destruct (Hx Hs) as [Hq Hw]. auto. }
    intros Hs. apply (Hfold (activeRequests (set_protocolListener false st))
                        (set_protocolListener false st)); [exact S | exact Hs].
Qed.

Lemma settled_in_run es st :
  settled_in st -> settled_in (run host_error st es).
Proof.
  revert st. induction es as [|e es IH]; intros st S; [exact S|].
  cbn [run fold_left]. apply IH, settled_in_step, S.
Qed.

End Facts.

(** A second Initialize response makes [onResponse] throw: the queue of
    buffered requests is [null] once the client is initialized, and
    [onResponse] calls its [forEach]. The [TypeError] leaves
    [onRawMessage] with the client as it was: nothing is sent and no
    promise changes. *)
Theorem second_Initialize_throws host_error (es : list event)
  (m : list byte) :
  state (run host_error new_ChannelClient es) = Idle ->
  decode_response m = Some RawInitialize ->
  onRawMessage host_error (run host_error new_ChannelClient es) m
  = Threw (run host_error new_ChannelClient es)
      (IsError (host_error (PropertyOfUndefined "forEach"))).
Proof.
  intros Hs Hd.
  set (st := run host_error new_ChannelClient es) in *.
  assert (S : settled_in st).
  { apply settled_in_run. intros H. discriminate. }
  destruct (S Hs) as [Hq Hw].
  rewrite (onRawMessage_decode host_error st m _ Hd).
  clearbody st. unfold onResponse. cbn [waiting set_state].
  rewrite Hw. cbn [fold_left bufferedRequests set_waiting set_state].
  rewrite Hq. f_equal.
  destruct st. cbn in *. subst. reflexivity.
Qed.

(** A client receives the Initialize response twice. *)
Lemma second_Initialize_throws_witness :
  onRawMessage example_host_error
    (run example_host_error new_ChannelClient [Receive Initialize_frame])
    Initialize_frame
  = Threw (run example_host_error new_ChannelClient [Receive Initialize_frame])
      (IsError (example_host_error (PropertyOfUndefined "forEach"))).
Proof.
  apply (second_Initialize_throws example_host_error
           [Receive Initialize_frame] Initialize_frame);
    vm_compute; reflexivity.
Defined.

(** No two requests that a channel client builds, calls and events
    alike, carry the same id: whatever happens to a new client, the ids
    of its requests are pairwise different numbers from 0 up to, and
    not including, [lastRequestId]. *)
Theorem request_ids_are_fresh host_error (es : list event) :
  NoDup (issued (run host_error new_ChannelClient es))
  /\ List.Forall (given_out (run host_error new_ChannelClient es))
       (issued (run host_error new_ChannelClient es)).
Proof.
  assert (G : forall es st,
            well_formed st -> 0 <= lastRequestId st ->
            NoDup (issued st) /\ List.Forall (given_out st) (issued st) ->
            NoDup (issued (run host_error st es))
            /\ List.Forall (given_out (run host_error st es))
                 (issued (run host_error st es))).
  { clear es. induction es as [|e es IH]; intros st W Hpos H; [exact H|].
    cbn [run fold_left].
    destruct (fresh_step host_error st e W Hpos H) as (Hpos' & H').
    apply IH; [apply well_formed_step, W | exact Hpos' | exact H']. }
  apply G.
  - apply well_formed_new.
  - reflexivity.
  - split; [apply NoDup_nil_2 | constructor].
Qed.

End ClientEdgeFacts.

(** ** The channel client: one terminal response per call *)

Module HandlerFacts.
Import Codec Client CodecVocab ServerVocab ClientVocab CancelVocab.
Import ClientEdgeVocab HandlerVocab.
Import ClientFacts CancelFacts ClientEdgeFacts.

Lemma raw_lookup a b h x :
  map f_raw (futures b) = map f_raw (futures a) ->
  futures a !! h = Some x ->
  exists x', futures b !! h = Some x' /\ f_raw x' = f_raw x.
Proof.
  intros Hm Hx.
  assert (Hr : (f_raw <$> futures a) !! h = Some (f_raw x)).
  { rewrite list_lookup_fmap, Hx. reflexivity. }
  change (f_raw <$> futures a) with (map f_raw (futures a)) in Hr.
  rewrite <- Hm in Hr.
  change (map f_raw (futures b)) with (f_raw <$> futures b) in Hr.
  rewrite list_lookup_fmap in Hr.
  destruct (futures b !! h) as [y|]; [|discriminate].
  injection Hr as Hr. eauto.
Qed.

Lemma handlers_own_keeps a b :
  keeps_requests a b -> fewer_handlers a b ->
  handlers_own a -> handlers_own b.
Proof.
  intros (Hf & _) Hh Ha key h Hk.
  destruct (Ha key h (Hh _ _ Hk)) as (x & Hx & Hkey).
  destruct (raw_lookup a b h x Hf Hx) as (x' & Hx' & Hr).
  exists x'. rewrite Hr. auto.
Qed.

Lemma fewer_handlers_eq a b : handlers b = handlers a -> fewer_handlers a b.
Proof. intros E key hd. rewrite E. auto. Qed.

Lemma handlers_cancel st h : handlers (cancel st h) = handlers st.
Proof.
  unfold cancel, settle_future.
  repeat (case_match; try (rewrite sendRequest_frame in *);
          cbn in *; subst; try done).
Qed.

Lemma handlers_fold_cancel hs st :
  handlers (fold_left cancel hs st) = handlers st.
Proof.
  revert st. induction hs as [|h hs IH]; intros st; [reflexivity|].
  cbn [fold_left]. rewrite IH. apply handlers_cancel.
Qed.

Lemma handlers_subscribe st e : handlers (subscribe st e) = handlers st.
Proof.
  unfold subscribe.
  repeat (case_match; try (rewrite sendRequest_frame in *);
          cbn in *; subst; try done).
Qed.

Lemma handlers_unsubscribe st e : handlers (unsubscribe st e) = handlers st.
Proof.
  unfold unsubscribe.
  repeat (case_match; try (rewrite sendRequest_frame in *);
          cbn in *; subst; try done).
Qed.

Lemma handlers_fold_initialized ws st :
  handlers (fold_left initialized ws st) = handlers st.
Proof.
  revert st. induction ws as [|e ws IH]; intros st; [reflexivity|].
  cbn [fold_left]. rewrite IH. unfold initialized.
  destruct (emitters st !! e); [|reflexivity].
  rewrite sendRequest_frame. reflexivity.
Qed.

Lemma handlers_settle_future h s st :
  handlers (settle_future h s st) = handlers st.
Proof.
  unfold settle_future. repeat (case_match; cbn; try done).
Qed.

Section Facts.
Variable host_error : fault -> JSError.

(** What a handler does to the table of handlers. *)
Lemma handlers_handle st hd response :
  handlers (state_of (handle host_error st hd response)) = handlers st
  \/ exists h x,
       hd = PromiseHandler h /\ futures st !! h = Some x
       /\ handlers (state_of (handle host_error st hd response))
          = delete (ToString (request_id (f_raw x))) (handlers st).
Proof.
  destruct hd as [h|e]; cbn [handle].
  - destruct (futures st !! h) as [x|] eqn:Ex; [|left; reflexivity].
    destruct response; try (left; reflexivity);
      right; exists h, x; (split; [reflexivity|]); (split; [exact Ex|]);
      repeat case_match; cbn [state_of];
      rewrite ?handlers_settle_future; reflexivity.
  - left. repeat (case_match; cbn; try done).
Qed.

Lemma handlers_handle_terminal st h x response :
  futures st !! h = Some x -> is_terminal response = true ->
  handlers (state_of (handle host_error st (PromiseHandler h) response))
  = delete (ToString (request_id (f_raw x))) (handlers st).
Proof.
  intros Hx Ht. cbn [handle]. rewrite Hx.
  destruct response; try discriminate;
    repeat case_match; cbn [state_of];
    rewrite ?handlers_settle_future; reflexivity.
Qed.

Lemma fewer_handlers_onResponse st response :
  response <> RawInitialize ->
  fewer_handlers st (state_of (onResponse host_error st response)).
Proof.
  intros Hne.
  assert (G : forall hd,
            fewer_handlers st (state_of (handle host_error st hd response))).
  { intros hd key hd' Hk.
    destruct (handlers_handle st hd response) as [E | (h & x & _ & _ & E)];
      rewrite E in Hk; [exact Hk|].
    apply lookup_delete_Some in Hk as [_ Hk]. exact Hk. }
  unfold onResponse. destruct response; try congruence;
    (destruct (handlers st !! _); [apply G | intros key hd H; exact H]).
Qed.

Lemma handlers_flush q st key hd :
  handlers (fold_left flush_request q st) !! key = Some hd ->
  handlers st !! key = Some hd
  \/ exists r, In r q /\ key = ToString (request_id (raw r))
               /\ hd = PromiseHandler (owner r).
Proof.
  revert st. induction q as [|r q IH]; intros st Hk; [left; exact Hk|].
  cbn [fold_left] in Hk. apply IH in Hk as [Hk | (r' & Hin & E)].
  - unfold flush_request, doRequest in Hk.
    destruct (flush r); [|left; exact Hk].
    rewrite sendRequest_frame in Hk.
    cbn [handlers set_future set_futures sendRawMessage set_sent
         set_handlers] in Hk.
    destruct (decide (ToString (request_id (raw r)) = key)) as [<-|Hne].
    + rewrite lookup_insert_eq in Hk. injection Hk as <-.
      right. exists r. split; [left; reflexivity | auto].
    + rewrite lookup_insert_ne in Hk by exact Hne. left. exact Hk.
  - right. exists r'. split; [right; exact Hin | exact E].
Qed.

Lemma handlers_own_step st ev :
  well_formed st -> handlers_own st -> handlers_own (step host_error st ev).
Proof.
  intros W O. destruct ev as [ch name arg|h|ch name arg|e|e|m|]; cbn [step].
  - destruct (requestPromise_fields st ch name arg) as (Hf & _).
    intros key h Hk. rewrite Hf.
    unfold requestPromise, bufferRequest, doRequest in Hk.
    destruct (is_Uninitialized _).
    + cbn in Hk. destruct (O key h Hk) as (x & Hx & Hkey).
      exists x. split; [apply lookup_app_l_Some, Hx | exact Hkey].
    + rewrite sendRequest_frame in Hk. cbn in Hk.
      destruct (decide (ToString (VNum (lastRequestId st)) = key))
        as [<-|Hne].
      * rewrite lookup_insert_eq in Hk. injection Hk as <-.
        eexists. split; [apply list_lookup_middle; reflexivity|].
        reflexivity.
      * rewrite lookup_insert_ne in Hk by exact Hne.
        destruct (O key h Hk) as (x & Hx & Hkey).
        exists x. split; [apply lookup_app_l_Some, Hx | exact Hkey].
  - apply (handlers_own_keeps st); [apply keeps_requests_cancel | | exact O].
    apply fewer_handlers_eq, handlers_cancel.
  - destruct (requestEvent_fields st ch name arg) as (Hf & _).
    intros key h Hk. rewrite Hf. unfold requestEvent in Hk. cbn in Hk.
    destruct (decide (ToString (VNum (lastRequestId st)) = key)) as [<-|Hne].
    + rewrite lookup_insert_eq in Hk. discriminate.
    + rewrite lookup_insert_ne in Hk by exact Hne. apply O, Hk.
  - apply (handlers_own_keeps st); [| | exact O].
    + destruct (subscribe_cases st e W) as [Hc | (mid & r & Hc & _ & _ & ->)].
      * apply keeps_requests_same, Hc.
      * eapply keeps_requests_trans;
          [apply keeps_requests_same, Hc | apply keeps_requests_sendRequest].
    + apply fewer_handlers_eq, handlers_subscribe.
  - apply (handlers_own_keeps st); [| | exact O].
    + destruct (unsubscribe_cases st e) as [Hc | (mid & r & Hc & _ & ->)].
      * apply keeps_requests_same, Hc.
      * eapply keeps_requests_trans;
          [apply keeps_requests_same, Hc | apply keeps_requests_sendRequest].
    + apply fewer_handlers_eq, handlers_unsubscribe.
  - destruct (protocolListener st); [|exact O].
    destruct (decode_response m) as [response|] eqn:Ed.
    + rewrite (onRawMessage_decode host_error st m response Ed).
      destruct (Initialize_or_not response) as [->|Hne].
      * pose proof (keeps_requests_Initialize host_error st) as K.
        intros key h Hk.
        assert (Hold : handlers st !! key = Some (PromiseHandler h)
                       \/ exists q r, bufferedRequests st = Some q /\ In r q
                            /\ key = ToString (request_id (raw r))
                            /\ h = owner r).
        { unfold onResponse in Hk.
          cbn [bufferedRequests set_waiting] in Hk.
          destruct (initialized_fields (waiting (set_state Idle st))
                      (set_state Idle st)) as (_ & _ & Hq & _).
          cbn [bufferedRequests set_state] in Hq. rewrite Hq in Hk.
          destruct (bufferedRequests st) as [q|] eqn:Eq.
          - cbn [state_of handlers set_bufferedRequests] in Hk.
            apply handlers_flush in Hk as [Hk | (r & Hin & -> & [= ->])].
            + cbn [handlers set_waiting] in Hk.
              rewrite handlers_fold_initialized in Hk. left. exact Hk.
            + right. exists q, r. auto.
          - cbn [state_of handlers set_waiting] in Hk.
            rewrite handlers_fold_initialized in Hk. left. exact Hk. }
        destruct K as (Hf & _).
        destruct Hold as [Hk0 | (q & r & Eq & Hin & -> & ->)].
        -- destruct (O key h Hk0) as (x & Hx & Hkey).
           destruct (raw_lookup _ _ h x Hf Hx) as (x' & Hx' & Hr).
           exists x'. rewrite Hr. auto.
        -- destruct (wf_queue st W q r Eq Hin) as (x & Hx & Hraw & _).
           destruct (raw_lookup _ _ _ x Hf Hx) as (x' & Hx' & Hr).
           exists x'. rewrite Hr, Hraw. auto.
      * apply (handlers_own_keeps st); [| | exact O].
        -- destruct (onResponse_cases host_error st response Hne)
             as [Hc | [h R]].
           ++ apply keeps_requests_same, Hc.
           ++ eapply keeps_requests_retires, R.
        -- apply fewer_handlers_onResponse, Hne.
    + rewrite onRawMessage_undecoded by exact Ed. exact O.
  - apply (handlers_own_keeps st);
      [apply keeps_requests_dispose | | exact O].
    apply fewer_handlers_eq. unfold dispose.
    cbn [handlers set_activeRequests]. rewrite handlers_fold_cancel.
    reflexivity.
Qed.

Lemma handlers_own_run es st :
  well_formed st -> handlers_own st -> handlers_own (run host_error st es).
Proof.
  revert st. induction es as [|e es IH]; intros st W O; [exact O|].
  cbn [run fold_left].
  apply IH; [apply well_formed_step, W | apply handlers_own_step; assumption].
Qed.

End Facts.

(** A call is ended by the first terminal response for its id: its
    handler removes itself from the table of handlers before it settles
    the promise, so every later response with that id finds no handler
    and leaves the client as it is. *)
Theorem first_response_ends_the_call host_error (es : list event)
  (h : nat) (r1 : IRawResponse) :
  handlers (run host_error new_ChannelClient es)
    !! ToString (response_id r1) = Some (PromiseHandler h) ->
  is_terminal r1 = true ->
  handlers
    (state_of (onResponse host_error (run host_error new_ChannelClient es) r1))
    !! ToString (response_id r1) = None
  /\ forall r2,
       r2 <> RawInitialize ->
       ToString (response_id r2) = ToString (response_id r1) ->
       onResponse host_error
         (state_of
            (onResponse host_error (run host_error new_ChannelClient es) r1))
         r2
       = Returned
           (state_of
              (onResponse host_error (run host_error new_ChannelClient es)
                 r1)).
Proof.
  intros Hk Ht.
  set (st := run host_error new_ChannelClient es) in *.
  assert (O : handlers_own st).
  { apply handlers_own_run; [apply well_formed_new|].
    intros key h' H. discriminate. }
  destruct (O _ _ Hk) as (x & Hx & Hkey).
  assert (Hnone : handlers (state_of (onResponse host_error st r1))
                    !! ToString (response_id r1) = None).
  { assert (E : onResponse host_error st r1
                = handle host_error st (PromiseHandler h) r1).
    { destruct r1; try discriminate; cbn [onResponse response_id] in *;
        rewrite Hk; reflexivity. }
    rewrite E, (handlers_handle_terminal host_error st h x r1 Hx Ht), Hkey.
    apply lookup_delete_eq. }
  split; [exact Hnone|].
  intros r2 Hne Hid. unfold onResponse at 1.
  destruct r2; try congruence; cbn [response_id] in Hid;
    cbn [response_id]; rewrite Hid, Hnone; reflexivity.
Qed.

(** The call of [calling_client] is answered twice. *)
Lemma first_response_ends_the_call_witness :
  handlers calling_client !! ToString (VNum 0) = Some (PromiseHandler 0)
  /\ onResponse example_host_error
       (state_of
          (onResponse example_host_error calling_client
             (RawPromiseSuccess (VNum 0) (VStr "polo"))))
       (RawPromiseSuccess (VNum 0) (VStr "again"))
     = Returned
         (state_of
            (onResponse example_host_error calling_client
               (RawPromiseSuccess (VNum 0) (VStr "polo")))).
Proof.
  split; [vm_compute; reflexivity|].
  refine (proj2 (first_response_ends_the_call example_host_error
                   [Receive Initialize_frame;
                    Call "echo" "error" (VStr "nice error")]
                   0%nat (RawPromiseSuccess (VNum 0) (VStr "polo")) _ _)
            (RawPromiseSuccess (VNum 0) (VStr "again")) _ _);
    first [vm_compute; reflexivity | discriminate].
Defined.

End HandlerFacts.

(** ** A peer of the multi-client server *)

Module PeerFacts.
Import Codec IPC Peer ServerVocab ClientVocab PeerVocab LayoutVocab.

Lemma protocolListener_connection_server this :
  Server.protocolListener (connection_server this) = true.
Proof.
  unfold connection_server.
  generalize (map_to_list (channels this)).
  assert (G : forall l s, Server.protocolListener s = true ->
            Server.protocolListener
              (fold_left
                 (fun channelServer kv =>
                    Server.registerChannel channelServer (fst kv) (snd kv))
                 l s) = true).
  { induction l as [|kv l IH]; intros s Hs; [exact Hs|].
    cbn [fold_left]. apply IH. exact Hs. }
  intros l. apply G. reflexivity.
Qed.

Lemma decode_Initialize_frame :
  decode_response Initialize_frame = Some RawInitialize.
Proof. vm_compute. reflexivity. Qed.

(** The handshake of a peer and the server. [new IPCClient(protocol,
    id)] sends two frames, the id and the Initialize response of its
    channel server. When a connection that is still to send its first
    message delivers them, the server registers the connection under
    that id, its new channel client is initialized and its new channel
    server is as it was built. [getClient] then resolves with that
    connection, unless the id is the empty string, for which it
    rejects. *)
Theorem handshake host_error (this : IPCServer) (i : nat) (id : string) :
  connections this !! i = Some Connecting ->
  Peer.sent (new_IPCClient id) = [Buffer_from id; Initialize_frame]
  /\ exists c,
       connections
         (deliver host_error this i (Peer.sent (new_IPCClient id))) !! i
       = Some (Connected id (connection_server this) c)
       /\ Client.state c = Client.Idle
       /\ channelClients
            (deliver host_error this i (Peer.sent (new_IPCClient id))) !! id
          = Some i
       /\ getClient
            (deliver host_error this i (Peer.sent (new_IPCClient id))) id
          = if String.eqb id EmptyString
            then ClientRejected "Client id should be provided"
            else ClientResolved i.
Proof.
  intros Hi. split; [reflexivity|].
  change (Peer.sent (new_IPCClient id))
    with [Buffer_from id; Initialize_frame].
  unfold deliver, run. cbn [map fold_left step].
  assert (Hlt : (i < length (connections this))%nat)
    by (eapply lookup_lt_Some; exact Hi).
  unfold firstMessage. rewrite Hi.
  rewrite CodecFacts.toString_from.
  unfold message. cbn [connections].
  rewrite list_lookup_insert_eq by exact Hlt.
  cbn [connections channelClients].
  rewrite list_insert_insert_eq.
  rewrite list_lookup_insert_eq by exact Hlt.
  eexists. split; [|split; [|split]].
  - f_equal. f_equal.
    cbn [Server.step]. rewrite protocolListener_connection_server.
    rewrite (LayoutFacts.response_ignored_by_server host_error _ _ _
               decode_Initialize_frame).
    reflexivity.
  - cbn [Client.step Client.protocolListener Client.new_ChannelClient].
    rewrite (ClientFacts.onRawMessage_decode host_error _ _ _
               decode_Initialize_frame).
    apply (CancelFacts.Initialize_fields host_error).
  - apply lookup_insert_eq.
  - unfold getClient. cbn [channelClients].
    rewrite lookup_insert_eq. reflexivity.
Qed.

(** The peer [window:1] on a new connection. *)
Lemma handshake_witness :
  connections (clientConnect new_IPCServer) !! 0%nat = Some Connecting
  /\ getClient
       (deliver example_host_error (clientConnect new_IPCServer) 0
          (Peer.sent (new_IPCClient "window:1"))) "window:1"
     = ClientResolved 0.
Proof.
  split; [reflexivity|].
  destruct (handshake example_host_error (clientConnect new_IPCServer) 0%nat
              "window:1" eq_refl) as (_ & c & _ & _ & _ & H).
  exact H.
Defined.

(** When two peers have announced the same id, the disconnection of
    one of them removes the entry of that id from the table of the
    server: the other peer stays connected, but [getClient] no longer
    finds it and waits for a peer to announce the id. *)
Theorem twin_loses_its_entry host_error (this : IPCServer) (i j : nat)
  (id : string)
  (si sj : Server.ChannelServer) (ci cj : Client.ChannelClient) :
  i <> j ->
  id <> EmptyString ->
  connections this !! i = Some (Connected id si ci) ->
  connections this !! j = Some (Connected id sj cj) ->
  connections (clientDisconnect host_error this i) !! j = Some (Connected id sj cj)
  /\ channelClients (clientDisconnect host_error this i) !! id = None
  /\ getClient (clientDisconnect host_error this i) id = ClientAwaited id.
Proof.
  intros Hij Hid Hi Hj. unfold clientDisconnect. rewrite Hi.
  cbn [connections channelClients]. split; [|split].
  - rewrite list_lookup_insert_ne by exact Hij. exact Hj.
  - apply lookup_delete_eq.
  - unfold getClient. cbn [channelClients]. rewrite lookup_delete_eq.
    destruct (String.eqb id EmptyString) eqn:E; [|reflexivity].
    apply String.eqb_eq in E. contradiction.
Qed.

(** The first of the [twins] disconnects. *)
Lemma twin_loses_its_entry_witness :
  (exists sj cj,
      connections (clientDisconnect example_host_error twins 0) !! 1%nat
      = Some (Connected "twin" sj cj))
  /\ getClient twins "twin" = ClientResolved 1
  /\ getClient (clientDisconnect example_host_error twins 0) "twin"
     = ClientAwaited "twin".
Proof.
  split; [|split; [reflexivity|]].
  - eexists _, _.
    refine (proj1 (twin_loses_its_entry example_host_error twins 0%nat
                     1%nat "twin" _ _ _ _ _ _ _ _));
      try reflexivity; discriminate.
  - refine (proj2 (proj2 (twin_loses_its_entry example_host_error twins
                            0%nat 1%nat "twin" _ _ _ _ _ _ _ _)));
      try reflexivity; discriminate.
Defined.

(** What a peer puts on the wire. A call issued right after
    [new IPCClient(protocol, id)] sends nothing: the protocol has seen
    the id and the Initialize response of the peer, in this order. When
    the Initialize response of the other side arrives, the request of
    the call follows them, with the id 0. *)
Theorem first_call_of_a_peer host_error (id channelName name : string)
  (arg : value) :
  Peer.sent (fst (call (new_IPCClient id) channelName name arg))
  = [Buffer_from id; Initialize_frame]
  /\ Peer.sent
       (receive host_error
          (fst (call (new_IPCClient id) channelName name arg))
          Initialize_frame)
     = [Buffer_from id; Initialize_frame;
        request_frame
          (RawPromise (VNum 0) (VStr channelName) (VStr name) arg)]
  /\ channelServer
       (receive host_error
          (fst (call (new_IPCClient id) channelName name arg))
          Initialize_frame)
     = Server.new_ChannelServer.
Proof.
  split; [reflexivity|]. unfold receive.
  cbn [channelClient channelServer call new_IPCClient fst Peer.sent].
  assert (Hs : Server.step host_error Server.new_ChannelServer
                 (Server.Receive Initialize_frame)
               = Server.new_ChannelServer).
  { cbn [Server.step].
    rewrite (LayoutFacts.response_ignored_by_server host_error _ _ _
               decode_Initialize_frame).
    reflexivity. }
  rewrite Hs. split; [|reflexivity].
  unfold sent_since. cbn [Client.step].
  rewrite (ClientFacts.onRawMessage_decode host_error _ _ _
             decode_Initialize_frame).
  set (c1 := fst (Client.requestPromise Client.new_ChannelClient channelName
                    name arg)).
  assert (Hp : Client.protocolListener c1 = true) by reflexivity.
  rewrite Hp. erewrite ClientFacts.sent_Initialize by reflexivity.
  reflexivity.
Qed.

End PeerFacts.

(** ** A call and its answer *)

Module AnswerFacts.
Import Codec Client CodecVocab ServerVocab ClientVocab LayoutVocab.

(** The promise of a call that was sent, once the handler of
    [doRequest] was given [response]. *)
Lemma handle_new_call host_error (c : ChannelClient)
  (channelName name : string) (arg : value) (response : IRawResponse)
  (s : future_status) :
  state c = Idle ->
  (forall st x,
      futures st !! length (futures c) = Some x ->
      f_status x = Pending ->
      handle host_error st (PromiseHandler (length (futures c))) response
      = Returned
          (settle_future (length (futures c)) s
             (set_handlers
                (fun m => delete (ToString (request_id (f_raw x))) m) st))) ->
  response <> RawInitialize ->
  response_id response = VNum (lastRequestId c) ->
  exists c2,
    onResponse host_error (fst (requestPromise c channelName name arg))
      response
    = Returned c2
    /\ futures c2
       = futures c
           ++ [{| f_raw :=
                    RawPromise (VNum (lastRequestId c)) (VStr channelName)
                      (VStr name) arg;
                  f_kind := Direct;
                  f_status := s |}]
    /\ handlers c2 = delete (ToString (VNum (lastRequestId c))) (handlers c)
    /\ sent c2 = sent (fst (requestPromise c channelName name arg)).
Proof.
  intros Hs Hh Hr Hid.
  set (x := {| f_raw :=
                 RawPromise (VNum (lastRequestId c)) (VStr channelName)
                   (VStr name) arg;
               f_kind := Direct; f_status := Pending |}).
  set (c1 := fst (requestPromise c channelName name arg)).
  assert (Hf : futures c1 = futures c ++ [x]).
  { unfold c1, requestPromise. cbn [fst state set_lastRequestId].
    rewrite Hs. reflexivity. }
  assert (Hk : handlers c1
               = <[ToString (VNum (lastRequestId c))
                   := PromiseHandler (length (futures c))]> (handlers c)).
  { unfold c1, requestPromise. cbn [fst state set_lastRequestId].
    rewrite Hs. reflexivity. }
  assert (Hx : futures c1 !! length (futures c) = Some x).
  { rewrite Hf. apply list_lookup_middle. reflexivity. }
  assert (E : onResponse host_error c1 response
              = handle host_error c1 (PromiseHandler (length (futures c)))
                  response).
  { unfold onResponse. rewrite Hid, Hk, lookup_insert_eq.
    destruct response; congruence. }
  rewrite E, (Hh c1 x Hx eq_refl). eexists. split; [reflexivity|].
  unfold settle_future, set_future.
  cbn [futures set_handlers]. rewrite Hx.
  cbn [x f_status futures set_futures set_activeRequests handlers sent
       set_handlers].
  rewrite Hx. split; [|split; [|reflexivity]].
  - rewrite Hf.
    replace (length (futures c)) with (length (futures c) + 0)%nat at 1
      by lia.
    rewrite insert_app_r. reflexivity.
  - rewrite Hk. cbn [f_raw request_id]. apply delete_insert_eq.
Qed.

(** A call on an initialized client, answered. The frame that
    [sendResponse] of a server builds for a PromiseSuccess with the id
    of the call resolves the promise of the call with the data as it
    reads back, and the frame for a PromiseErrorObj rejects it with the
    data as it reads back. The handler of the call is gone, and the
    client sends nothing. *)
Theorem answer_reaches_the_caller host_error (c : ChannelClient)
  (s : Server.ChannelServer) (channelName name : string) (arg data : value)
  (failed : bool) :
  state c = Idle ->
  byteLength
    (header_buffer
       (response_header
          (if failed then RawPromiseErrorObj (VNum (lastRequestId c)) data
           else RawPromiseSuccess (VNum (lastRequestId c)) data)) data)
  < 2 ^ 32 ->
  exists buf c2,
    Server.sent
      (Server.sendResponse s
         (if failed then RawPromiseErrorObj (VNum (lastRequestId c)) data
          else RawPromiseSuccess (VNum (lastRequestId c)) data))
    = Server.sent s ++ [buf]
    /\ onRawMessage host_error
         (fst (requestPromise c channelName name arg)) buf
       = Returned c2
    /\ futures c2
       = futures c
           ++ [{| f_raw :=
                    RawPromise (VNum (lastRequestId c)) (VStr channelName)
                      (VStr name) arg;
                  f_kind := Direct;
                  f_status :=
                    if failed then Failed (NotError (norm_body data))
                    else Resolved (norm_body data) |}]
    /\ handlers c2 = delete (ToString (VNum (lastRequestId c))) (handlers c)
    /\ sent c2 = sent c ++ [request_frame
                              (RawPromise (VNum (lastRequestId c))
                                 (VStr channelName) (VStr name) arg)].
Proof.
  intros Hs Hfit.
  set (answer :=
         if failed then RawPromiseErrorObj (VNum (lastRequestId c)) data
         else RawPromiseSuccess (VNum (lastRequestId c)) data) in *.
  exists (response_frame answer).
  assert (Hd : decode_response (response_frame answer)
               = Some (read_response answer)).
  { apply LayoutFacts.decode_response_frame.
    unfold answer in *. destruct failed; exact Hfit. }
  rewrite ServerFacts.sent_sendResponse.
  rewrite (ClientFacts.onRawMessage_decode host_error _ _ _ Hd).
  assert (Hsent : sent (fst (requestPromise c channelName name arg))
                  = sent c ++ [request_frame
                                 (RawPromise (VNum (lastRequestId c))
                                    (VStr channelName) (VStr name) arg)]).
  { unfold requestPromise. cbn [fst state set_lastRequestId]. rewrite Hs.
    cbn [is_Uninitialized set_activeRequests sent]. unfold doRequest.
    rewrite ClientFacts.sent_sendRequest. reflexivity. }
  rewrite <- Hsent.
  destruct (handle_new_call host_error c channelName name arg
              (read_response answer)
              (if failed then Failed (NotError (norm_body data))
               else Resolved (norm_body data)) Hs)
    as (c2 & E & F & K & S).
  - intros st x Hx Hp. unfold answer.
    destruct failed; cbn [read_response handle]; rewrite Hx; reflexivity.
  - unfold answer. destruct failed; discriminate.
  - unfold answer. destruct failed; reflexivity.
  - exists c2. auto.
Qed.

(** The call [ping] of a client that has read the Initialize response,
    answered with the string [pong]. *)
Lemma answer_reaches_the_caller_witness :
  exists buf c2,
    Server.sent
      (Server.sendResponse Server.new_ChannelServer
         (RawPromiseSuccess (VNum 0) (VStr "pong")))
    = Server.sent Server.new_ChannelServer ++ [buf]
    /\ onRawMessage example_host_error
         (fst (requestPromise
                 (run example_host_error new_ChannelClient
                    [Receive Initialize_frame])
                 "echo" "ping" VUndefined)) buf
       = Returned c2
    /\ futures c2
       = [{| f_raw := RawPromise (VNum 0) (VStr "echo") (VStr "ping")
                        VUndefined;
             f_kind := Direct;
             f_status := Resolved (VStr "pong") |}]
    /\ handlers c2 = delete (ToString (VNum 0)) ∅
    /\ sent c2
       = [request_frame
            (RawPromise (VNum 0) (VStr "echo") (VStr "ping") VUndefined)].
Proof.
  apply (answer_reaches_the_caller example_host_error
           (run example_host_error new_ChannelClient
              [Receive Initialize_frame])
           Server.new_ChannelServer "echo" "ping" VUndefined (VStr "pong")
           false).
  - vm_compute. reflexivity.
  - vm_compute. reflexivity.
Defined.

End AnswerFacts.
